(** * T3S: a reactive signal primitive, embedded and verified

    Shallow embedding of [src/t3s.js] (and of the second copy of
    [createSignal] found next to the README) together with the
    properties the specification states about it.

    - JavaScript values are a small tagged union ([val]): the
      primitives whose truthiness and string form the library uses,
      with integers for numbers.
    - The document is the list of its elements; an element carries the
      two data attributes the library queries, a text of its own and its
      class list.  The nesting of elements is not modelled: element [i]
      is the [i]-th element object, which keeps its attributes and its
      class list wherever it is in the page.
    - A selector [[attr="name"]] selects the elements whose attribute
      equals the name.  This is what the host does when the name stands
      for itself between the double quotes ([selector_safe]), which the
      theorems about the elements that a name binds assume.
    - The string form of a value ([display]) is the host's for the
      values that [printable] delimits.
    - Every closure the library allocates is a record of the variables it
      captures: a signal is the record of [value], [subscribers],
      [readers] and [checkers]; the arrow function built by
      [createComputed] is [Recompute signal computeFn]; an unsubscribe
      handle is the pair of the signal and the function it deletes.
    - A [Set] is the ECMAScript entry list: [delete] leaves a hole,
      [add] appends, and [forEach] walks the list by index, so holes are
      skipped and appended entries are reached.
    - Caller-supplied functions are interaction trees over the signal
      API ([prog]): they read, set and update signals, subscribe and
      unsubscribe, return and throw; they do not catch exceptions, touch
      the document or create signals.  They are run by an interpreter
      that threads the world and is bounded by fuel, since callbacks may
      re-enter [set]: fuel bounds the depth of nested calls and the
      length of each walk over a subscriber set, and running out of it
      is the outcome [Exhausted].
    - Each call the library makes into caller code is recorded in a
      trace, which is how invocation counts are observed. *)

From Stdlib Require Import ZArith DecimalString.
From stdpp Require Import base tactics option list strings.

(** ** Values *)

Inductive val : Type :=
| VUndefined
| VNull
| VBool (b : bool)
| VNum (z : Z)
| VNaN
| VStr (s : string)
| VObj (id : nat).

#[global] Instance val_eq_dec : EqDecision val.
Proof. solve_decision. Defined.

(** [!!value] *)
Definition truthy (v : val) : bool :=
  match v with
  | VUndefined | VNull | VNaN => false
  | VBool b => b
  | VNum z => negb (Z.eqb z 0)
  | VStr s => negb (String.eqb s "")
  | VObj _ => true
  end.

(** [`${value}`]; a number is printed in decimal and an object as
    ["[object Object]"].  This is the host's string form for the values
    that [printable] delimits. *)
Definition display (v : val) : string :=
  match v with
  | VUndefined => "undefined"
  | VNull => "null"
  | VBool true => "true"
  | VBool false => "false"
  | VNum z => NilZero.string_of_int (Z.to_int z)
  | VNaN => "NaN"
  | VStr s => s
  | VObj _ => "[object Object]"
  end.

(** The values of which [display] is the string form: integers that a
    number holds exactly, which the host prints in decimal, and, of the
    other values, all but objects, whose string form is their own
    [toString]. *)
Definition printable (v : val) : Prop :=
  match v with
  | VNum z => (Z.abs z ≤ 9007199254740991)%Z
  | VObj _ => False
  | _ => True
  end.

Definition type_error : val := VStr "TypeError".

(** ** The document *)

Record element : Type := Element {
  attr_read : option string;      (* data-signal-read *)
  attr_checker : option string;   (* data-signal-checker *)
  innerText : string;
  classList : list string
}.

Definition set_innerText (t : string) (e : element) : element :=
  {| attr_read := attr_read e; attr_checker := attr_checker e;
     innerText := t; classList := classList e |}.

Definition map_classList (f : list string → list string) (e : element) : element :=
  {| attr_read := attr_read e; attr_checker := attr_checker e;
     innerText := innerText e; classList := f (classList e) |}.

(** DOMTokenList: an ordered set of tokens. *)
Definition classList_contains (tok : string) (cl : list string) : bool :=
  bool_decide (tok ∈ cl).

Definition classList_add (tok : string) (cl : list string) : list string :=
  if classList_contains tok cl then cl else cl ++ [tok].

Definition classList_remove (tok : string) (cl : list string) : list string :=
  filter (λ t, t ≠ tok) cl.

(** [toggle(token, force)], following the DOM standard's steps. *)
Definition classList_toggle (tok : string) (force : bool) (cl : list string) : list string :=
  if classList_contains tok cl
  then (if force then cl else classList_remove tok cl)
  else (if force then cl ++ [tok] else cl).

(** [querySelectorAll(`[attr="${name}"]`)]: the indices, in document
    order, of the elements whose attribute equals [name]. *)
Fixpoint select_from (i : nat) (attr : element → option string) (name : string)
    (d : list element) : list nat :=
  match d with
  | [] => []
  | e :: d' =>
      if decide (attr e = Some name)
      then i :: select_from (S i) attr name d'
      else select_from (S i) attr name d'
  end.

Definition querySelectorAll (attr : element → option string) (name : string)
    (d : list element) : list nat :=
  select_from 0 attr name d.

(** The code pastes [name] between the double quotes of the selector
    without escaping it.  A character stands for itself there unless it
    is NUL, a line break, the double quote or the backslash; a name of
    such characters is the attribute value the selector asks for. *)
Definition selector_char (c : Ascii.ascii) : bool :=
  negb (existsb (Nat.eqb (Ascii.nat_of_ascii c)) [0; 10; 12; 13; 34; 92]).

Fixpoint selector_safe (name : string) : bool :=
  match name with
  | String.EmptyString => true
  | String.String c rest => selector_char c && selector_safe rest
  end.

(** ** Signals, functions, the world *)

(** Signal objects and function objects are referred to by their index
    in the world's tables. *)
Abbreviation sref := nat (only parsing).
Abbreviation fref := nat (only parsing).

Record signal : Type := Signal {
  value : val;
  subscribers : list (option fref);   (* Set entries; [None] is a deleted entry *)
  readers : list nat;
  checkers : list nat
}.

(** Caller code: what a function body does with the signal API. *)
Inductive prog : Type :=
| Ret (v : val)
| Throw (e : val)
| Get (s : sref) (k : val → prog)
| SetP (s : sref) (v : val) (k : prog)
| UpdateP (s : sref) (f : fref) (k : prog)
| Subscribe (s : sref) (f : fref) (k : prog)
| Unsubscribe (s : sref) (f : fref) (k : prog).

Inductive fdef : Type :=
| User (body : val → prog)
| Recompute (signal : sref) (computeFn : fref).   (* () => signal.set(computeFn()) *)

Inductive event : Type :=
| EvSubscriber (s : sref) (f : fref) (v : val)   (* fn(value) in notify *)
| EvUpdateFn (s : sref) (f : fref) (v : val)     (* fn(value) in update *)
| EvCompute (f : fref).                          (* computeFn() *)

#[global] Instance event_eq_dec : EqDecision event.
Proof. solve_decision. Defined.

Record world : Type := World {
  sigs : list signal;
  fns : list fdef;
  doc : list element;
  trace : list event
}.

Inductive outcome (A : Type) : Type :=
| Done (a : A)
| Raised (e : val)
| Exhausted.
Arguments Done {A} a.
Arguments Raised {A} e.
Arguments Exhausted {A}.

Definition with_sigs (f : list signal → list signal) (w : world) : world :=
  {| sigs := f (sigs w); fns := fns w; doc := doc w; trace := trace w |}.

Definition with_doc (f : list element → list element) (w : world) : world :=
  {| sigs := sigs w; fns := fns w; doc := f (doc w); trace := trace w |}.

Definition emit (e : event) (w : world) : world :=
  {| sigs := sigs w; fns := fns w; doc := doc w; trace := trace w ++ [e] |}.

Definition alloc_fn (d : fdef) (w : world) : fref * world :=
  (length (fns w),
   {| sigs := sigs w; fns := fns w ++ [d]; doc := doc w; trace := trace w |}).

(** [value = v] *)
Definition store_value (v : val) (sg : signal) : signal :=
  {| value := v; subscribers := subscribers sg;
     readers := readers sg; checkers := checkers sg |}.

Definition with_subscribers (f : list (option fref) → list (option fref))
    (sg : signal) : signal :=
  {| value := value sg; subscribers := f (subscribers sg);
     readers := readers sg; checkers := checkers sg |}.

(** [Set.prototype.add]: append unless already an entry. *)
Definition set_add (f : fref) (es : list (option fref)) : list (option fref) :=
  if bool_decide (Some f ∈ es) then es else es ++ [Some f].

(** [Set.prototype.delete]: the entry becomes a hole. *)
Definition set_delete (f : fref) (es : list (option fref)) : list (option fref) :=
  (λ e, if decide (e = Some f) then None else e) <$> es.

(** The functions currently in the set, in insertion order. *)
Definition live (es : list (option fref)) : list fref := omap id es.

(** ** The library *)

Section Core.
(** What the body of [checkers.forEach] does to a class list, given
    [!!value]; the two copies of [createSignal] differ only here. *)
Variable checker_step : bool → list string → list string.

Section Calls.
(** How a function object is called at the current depth. *)
Variable callf : fref → val → world → outcome val * world.

(** [subscribers.forEach(fn => fn(value))] from entry [i] on. *)
Fixpoint forEach_subscribers (m : nat) (s : sref) (i : nat) (w : world)
    {struct m} : outcome unit * world :=
  match sigs w !! s with
  | None => (Raised type_error, w)
  | Some sg =>
      match subscribers sg !! i with
      | None => (Done (), w)
      | Some entry =>
          match m with
          | 0 => (Exhausted, w)
          | S m' =>
              match entry with
              | None => forEach_subscribers m' s (S i) w
              | Some f =>
                  match callf f (value sg) (emit (EvSubscriber s f (value sg)) w) with
                  | (Done _, w1) => forEach_subscribers m' s (S i) w1
                  | (Raised e, w1) => (Raised e, w1)
                  | (Exhausted, w1) => (Exhausted, w1)
                  end
              end
          end
      end
  end.

(** [readers.forEach(reader => (reader.innerText = `${value}`))] *)
Definition write_readers (sg : signal) (d : list element) : list element :=
  foldl (λ d r, alter (set_innerText (display (value sg))) r d) d (readers sg).

(** [checkers.forEach(checker => { ... })] *)
Definition write_checkers (sg : signal) (d : list element) : list element :=
  foldl (λ d c, alter (map_classList (checker_step (truthy (value sg)))) c d)
        d (checkers sg).

Definition write_targets (s : sref) (w : world) : world :=
  match sigs w !! s with
  | None => w
  | Some sg => with_doc (λ d, write_checkers sg (write_readers sg d)) w
  end.

Definition notify_with (m : nat) (s : sref) (w : world) : outcome unit * world :=
  match forEach_subscribers m s 0 w with
  | (Done _, w1) => (Done (), write_targets s w1)
  | r => r
  end.

(** [set(newValue) { value = newValue; notify(); }] *)
Definition set_with (m : nat) (s : sref) (v : val) (w : world)
    : outcome unit * world :=
  match sigs w !! s with
  | None => (Raised type_error, w)
  | Some _ => notify_with m s (with_sigs (alter (store_value v) s) w)
  end.

(** [update(fn) { value = fn(value); notify(); }] *)
Definition update_with (m : nat) (s : sref) (f : fref) (w : world)
    : outcome unit * world :=
  match sigs w !! s with
  | None => (Raised type_error, w)
  | Some sg =>
      match callf f (value sg) (emit (EvUpdateFn s f (value sg)) w) with
      | (Done x, w1) => notify_with m s (with_sigs (alter (store_value x) s) w1)
      | (Raised e, w1) => (Raised e, w1)
      | (Exhausted, w1) => (Exhausted, w1)
      end
  end.

(** [subscribe(fn) { subscribers.add(fn); return () => subscribers.delete(fn); }] *)
Definition subscribe (s : sref) (f : fref) (w : world) : world :=
  with_sigs (alter (with_subscribers (set_add f)) s) w.

(** Calling the handle returned by [subscribe(fn)] on signal [s]. *)
Definition unsubscribe (s : sref) (f : fref) (w : world) : world :=
  with_sigs (alter (with_subscribers (set_delete f)) s) w.

(** Running a caller-supplied body. *)
Fixpoint exec (m : nat) (p : prog) (w : world) : outcome val * world :=
  match p with
  | Ret v => (Done v, w)
  | Throw e => (Raised e, w)
  | Get s k =>
      match sigs w !! s with
      | None => (Raised type_error, w)
      | Some sg => exec m (k (value sg)) w
      end
  | SetP s v k =>
      match set_with m s v w with
      | (Done _, w1) => exec m k w1
      | (Raised e, w1) => (Raised e, w1)
      | (Exhausted, w1) => (Exhausted, w1)
      end
  | UpdateP s f k =>
      match update_with m s f w with
      | (Done _, w1) => exec m k w1
      | (Raised e, w1) => (Raised e, w1)
      | (Exhausted, w1) => (Exhausted, w1)
      end
  | Subscribe s f k =>
      match sigs w !! s with
      | None => (Raised type_error, w)
      | Some _ => exec m k (subscribe s f w)
      end
  | Unsubscribe s f k => exec m k (unsubscribe s f w)
  end.
End Calls.

(** Calling function object [f] with argument [arg]; [n] bounds the
    depth of nested calls and the length of each [forEach] walk. *)
Fixpoint call (n : nat) (f : fref) (arg : val) (w : world) : outcome val * world :=
  match n with
  | 0 => (Exhausted, w)
  | S n' =>
      match fns w !! f with
      | None => (Raised type_error, w)
      | Some (User body) => exec (call n') n' (body arg) w
      | Some (Recompute signal computeFn) =>
          match call n' computeFn VUndefined (emit (EvCompute computeFn) w) with
          | (Done x, w1) =>
              match set_with (call n') n' signal x w1 with
              | (Done _, w2) => (Done VUndefined, w2)
              | (Raised e, w2) => (Raised e, w2)
              | (Exhausted, w2) => (Exhausted, w2)
              end
          | (Raised e, w1) => (Raised e, w1)
          | (Exhausted, w1) => (Exhausted, w1)
          end
      end
  end.

Definition get (s : sref) (w : world) : option val :=
  value <$> sigs w !! s.

Definition notify (fuel : nat) := notify_with (call fuel) fuel.
Definition set (fuel : nat) := set_with (call fuel) fuel.
Definition update (fuel : nat) := update_with (call fuel) fuel.
Definition run (fuel : nat) := exec (call fuel) fuel.

(** [createSignal(name, initialValue)]: returns the new signal. *)
Definition createSignal (fuel : nat) (name : string) (initialValue : val) (w : world)
    : outcome sref * world :=
  let sg := {| value := initialValue;
               subscribers := [];
               readers := querySelectorAll attr_read name (doc w);
               checkers := querySelectorAll attr_checker name (doc w) |} in
  let s := length (sigs w) in
  match notify fuel s (with_sigs (λ l, l ++ [sg]) w) with
  | (Done _, w1) => (Done s, w1)
  | (Raised e, w1) => (Raised e, w1)
  | (Exhausted, w1) => (Exhausted, w1)
  end.

(** [dependencies.forEach(dep => { dep.subscribe(() => signal.set(computeFn())); })] *)
Fixpoint subscribe_dependencies (signal : sref) (computeFn : fref)
    (dependencies : list sref) (w : world) : outcome unit * world :=
  match dependencies with
  | [] => (Done (), w)
  | dep :: rest =>
      match sigs w !! dep with
      | None => (Raised type_error, w)
      | Some _ =>
          let '(k, w1) := alloc_fn (Recompute signal computeFn) w in
          subscribe_dependencies signal computeFn rest (subscribe dep k w1)
      end
  end.

(** [createComputed(name, computeFn, dependencies)]: returns the
    internal signal, of which the caller may only use [get] and
    [subscribe]. *)
Definition createComputed (fuel : nat) (name : string) (computeFn : fref)
    (dependencies : list sref) (w : world) : outcome sref * world :=
  match call fuel computeFn VUndefined (emit (EvCompute computeFn) w) with
  | (Done x, w1) =>
      match createSignal fuel name x w1 with
      | (Done signal, w2) =>
          match subscribe_dependencies signal computeFn dependencies w2 with
          | (Done _, w3) => (Done signal, w3)
          | (Raised e, w3) => (Raised e, w3)
          | (Exhausted, w3) => (Exhausted, w3)
          end
      | r => r
      end
  | (Raised e, w1) => (Raised e, w1)
  | (Exhausted, w1) => (Exhausted, w1)
  end.
End Core.

(** [src/t3s.js]: [checker.classList.toggle('visible', !!value)] *)
Definition toggle_visible (b : bool) (cl : list string) : list string :=
  classList_toggle "visible" b cl.

(** The second copy:
    [if (!!value) checker.classList.add('visible'); else checker.classList.remove('visible');] *)
Definition add_or_remove_visible (b : bool) (cl : list string) : list string :=
  if b then classList_add "visible" cl else classList_remove "visible" cl.

(** ** Top-level scripts

    A script is a sequence of calls made from outside the library, each
    in its own turn of the event loop: a call runs to its end, whether it
    returns, raises or exhausts the stack, and the next call starts from
    the world it left. *)

Inductive api_call : Type :=
| CallDefine (body : val → prog)
| CallCreateSignal (name : string) (initialValue : val)
| CallCreateComputed (name : string) (computeFn : fref) (dependencies : list sref)
| CallSet (s : sref) (v : val)
| CallUpdate (s : sref) (f : fref)
| CallSubscribe (s : sref) (f : fref)
| CallUnsubscribe (s : sref) (f : fref).

Definition step_call (cs : bool → list string → list string) (fuel : nat)
    (c : api_call) (w : world) : world :=
  match c with
  | CallDefine body => (alloc_fn (User body) w).2
  | CallCreateSignal name initialValue => (createSignal cs fuel name initialValue w).2
  | CallCreateComputed name computeFn dependencies =>
      (createComputed cs fuel name computeFn dependencies w).2
  | CallSet s v => (set cs fuel s v w).2
  | CallUpdate s f => (update cs fuel s f w).2
  | CallSubscribe s f => subscribe s f w
  | CallUnsubscribe s f => unsubscribe s f w
  end.

Definition run_calls (cs : bool → list string → list string) (fuel : nat)
    (cl : list api_call) (w : world) : world :=
  foldl (λ w c, step_call cs fuel c w) w cl.

(** Calls that use signals and functions that exist already. *)
Definition plain_call (c : api_call) : Prop :=
  match c with
  | CallDefine _ | CallCreateSignal _ _ | CallCreateComputed _ _ _ => False
  | CallSet _ _ | CallUpdate _ _ | CallSubscribe _ _ | CallUnsubscribe _ _ => True
  end.

(** ** Classes of caller code

    [permitted] bounds what a body may do: which signals it may write,
    and which registrations it may add or remove.  [writable] bounds the
    signals that the closures built by [createComputed] write. *)

Section Permissions.
Variable writable : sref → Prop.
Variable may_set : sref → Prop.
Variable may_sub : sref → fref → Prop.
Variable may_unsub : sref → fref → Prop.

Inductive permitted : prog → Prop :=
| permitted_ret v : permitted (Ret v)
| permitted_throw e : permitted (Throw e)
| permitted_get s k : (∀ v, permitted (k v)) → permitted (Get s k)
| permitted_set s v k : may_set s → permitted k → permitted (SetP s v k)
| permitted_update s f k : may_set s → permitted k → permitted (UpdateP s f k)
| permitted_subscribe s f k : may_sub s f → permitted k → permitted (Subscribe s f k)
| permitted_unsubscribe s f k : may_unsub s f → permitted k → permitted (Unsubscribe s f k).

Definition fdef_permitted (d : fdef) : Prop :=
  match d with
  | User body => ∀ v, permitted (body v)
  | Recompute signal _ => writable signal
  end.

Definition code_permitted (w : world) : Prop :=
  ∀ f d, fns w !! f = Some d → fdef_permitted d.
End Permissions.

(** Bodies that only read signals and drop registrations, and then
    return; [n] is the number of signals that exist. *)
Inductive leaf (n : nat) (may_unsub : sref → fref → Prop) : prog → Prop :=
| leaf_ret v : leaf n may_unsub (Ret v)
| leaf_get s k : s < n → (∀ v, leaf n may_unsub (k v)) → leaf n may_unsub (Get s k)
| leaf_unsubscribe s f k :
    may_unsub s f → leaf n may_unsub k → leaf n may_unsub (Unsubscribe s f k).

Definition quiet (n : nat) : prog → Prop := leaf n (λ _ _, False).
Definition detaching (n : nat) : prog → Prop := leaf n (λ _ _, True).

Definition quiet_fn (w : world) (f : fref) : Prop :=
  ∃ body, fns w !! f = Some (User body) ∧ ∀ v, quiet (length (sigs w)) (body v).

Definition detaching_fn (w : world) (f : fref) : Prop :=
  ∃ body, fns w !! f = Some (User body) ∧ ∀ v, detaching (length (sigs w)) (body v).

(** Bodies that only read signals and then throw [e]. *)
Inductive raises (n : nat) (e : val) : prog → Prop :=
| raises_throw : raises n e (Throw e)
| raises_get s k : s < n → (∀ v, raises n e (k v)) → raises n e (Get s k).

(** Function objects whose call raises [e] without re-entering the
    library: a caller function whose body reads and throws, or the
    closure of a computed signal whose [computeFn] does.  The list is
    what the call adds to the trace. *)
Inductive raising_fn (w : world) (e : val) : fref → list event → Prop :=
| raising_user f body :
    fns w !! f = Some (User body) →
    (∀ v, raises (length (sigs w)) e (body v)) →
    raising_fn w e f []
| raising_recompute f signal computeFn body :
    fns w !! f = Some (Recompute signal computeFn) →
    fns w !! computeFn = Some (User body) →
    (∀ v, raises (length (sigs w)) e (body v)) →
    raising_fn w e f [EvCompute computeFn].

(** Caller code that never writes signal [s]: no body calls [set] or
    [update] on it and no [createComputed] closure has it as its
    internal signal. *)
Definition never_writes (s : sref) : world → Prop :=
  code_permitted (λ t, t ≠ s) (λ t, t ≠ s) (λ _ _, True) (λ _ _, True).

(** ** Computed signals *)

(** Bodies that only read signals satisfying [P], and then return. *)
Inductive reader (P : sref → Prop) : prog → Prop :=
| reader_ret v : reader P (Ret v)
| reader_get s k : P s → (∀ v, reader P (k v)) → reader P (Get s k).

(** What a body that only reads returns, given the signals. *)
Fixpoint pure_run (sgs : list signal) (p : prog) : outcome val :=
  match p with
  | Ret v => Done v
  | Throw e => Raised e
  | Get s k =>
      match sgs !! s with
      | Some sg => pure_run sgs (k (value sg))
      | None => Raised type_error
      end
  | _ => Raised type_error
  end.

(** The computed signal [ci] holds what [computeFn()] returns now. *)
Definition computed_current (ci : sref) (cf : fref) (w : world) : Prop :=
  ∃ body r, fns w !! cf = Some (User body) ∧
            pure_run (sigs w) (body VUndefined) = Done r ∧
            get ci w = Some r.

(** The function objects that [createComputed] allocates for the
    occurrences of [d] in its dependency list, the first allocated
    being [base]. *)
Fixpoint dep_closures (d : sref) (base : nat) (deps : list sref) : list fref :=
  match deps with
  | [] => []
  | d' :: rest =>
      (if decide (d' = d) then [base] else []) ++ dep_closures d (S base) rest
  end.

(** A computed signal in place and sealed: [computeFn] only reads the
    dependencies; on every dependency a closure
    [() => signal.set(computeFn())] is registered; and caller code has
    neither the internal signal's [set] and [update], which
    [createComputed] does not return, nor the handles of those
    registrations, which it drops. *)
Record computed_sealed (ci : sref) (cf : fref) (deps : list sref) (w : world) : Prop := {
  sealed_computeFn :
    ∃ body, fns w !! cf = Some (User body) ∧
            ∀ v, reader (λ s, s ∈ deps ∧ s < length (sigs w)) (body v);
  sealed_signal : ci < length (sigs w);
  sealed_not_dep : ci ∉ deps;
  sealed_registered :
    ∀ d, d ∈ deps →
      ∃ sg k, sigs w !! d = Some sg ∧ Some k ∈ subscribers sg ∧
              fns w !! k = Some (Recompute ci cf);
  sealed_code :
    code_permitted (λ _, True) (λ t, t ≠ ci) (λ _ _, True)
      (λ _ f, fns w !! f ≠ Some (Recompute ci cf)) w;
  sealed_closures : ∀ k cf', fns w !! k = Some (Recompute ci cf') → cf' = cf
}.

(** The registrations of the closures of a computed signal stay where
    they are ([F] is the table of function objects). *)
Definition closures_kept (F : list fdef) (ci : sref) (cf : fref) (w w' : world) : Prop :=
  fns w' = fns w ∧ length (sigs w') = length (sigs w) ∧
  (fns w = F →
   ∀ d sg j k, sigs w !! d = Some sg → subscribers sg !! j = Some (Some k) →
     F !! k = Some (Recompute ci cf) →
     ∃ sg', sigs w' !! d = Some sg' ∧ subscribers sg' !! j = Some (Some k)).

(** In the pass over [t], a closure of the computed signal is still to
    come at or after entry [i]. *)
Definition pending (ci : sref) (cf : fref) (deps : list sref)
    (t : sref) (i : nat) (w : world) : Prop :=
  t ∈ deps ∧
  ∃ sg j k, sigs w !! t = Some sg ∧ i ≤ j ∧ subscribers sg !! j = Some (Some k) ∧
            fns w !! k = Some (Recompute ci cf).

(** Every registered function exists. *)
Definition entries_in_range (w : world) : Prop :=
  ∀ s sg f, sigs w !! s = Some sg → Some f ∈ subscribers sg → f < length (fns w).

(** A world whose code refers only to what exists: registered
    functions exist, bodies write signals that exist and drop
    registrations of functions that exist, and closures of computed
    signals write signals that exist. *)
Definition closed_world (w : world) : Prop :=
  entries_in_range w ∧
  code_permitted (λ t, t < length (sigs w)) (λ t, t < length (sigs w)) (λ _ _, True)
    (λ _ f, f < length (fns w)) w.

(** ** Counting invocations *)

Definition is_compute (cf : fref) (e : event) : bool :=
  match e with
  | EvCompute f => bool_decide (f = cf)
  | _ => false
  end.

Definition is_fired (s : sref) (g : fref) (e : event) : bool :=
  match e with
  | EvSubscriber s' f _ => bool_decide (s' = s ∧ f = g)
  | _ => false
  end.

Definition tally (p : event → bool) (t : list event) : nat :=
  length (filter (λ e, p e = true) t).

(** [f] is a closure [() => signal.set(computeFn())] of the computed
    signal [ci]. *)
Definition is_closure (w : world) (ci : sref) (cf : fref) (f : fref) : bool :=
  match fns w !! f with
  | Some (Recompute s c) => bool_decide (s = ci ∧ c = cf)
  | _ => false
  end.

(** How many such closures are registered on signal [d]. *)
Definition closures_on (w : world) (ci : sref) (cf : fref) (d : sref) : nat :=
  match sigs w !! d with
  | Some sg => length (filter (λ f, is_closure w ci cf f = true) (live (subscribers sg)))
  | None => 0
  end.

(** The sum of a weight over the events of a trace. *)
Definition total (A : event → nat) (t : list event) : nat := sum_list (A <$> t).

(** The event is the invocation, by a notification, of a closure
    [() => c.set(computeFn())] of the computed signal [c] ([F] is the
    table of function objects). *)
Definition is_recompute (F : list fdef) (c : sref) (e : event) : bool :=
  match e with
  | EvSubscriber _ k _ =>
      match F !! k with
      | Some (Recompute c' _) => bool_decide (c' = c)
      | _ => false
      end
  | _ => false
  end.

(** How many times signal [d] notifies in the run of a [set] or
    [update] on [s] whose events are [new]: once if it is [s] itself,
    and once for every invocation of a closure that sets it. *)
Definition notifications (F : list fdef) (s : sref) (new : list event) (d : sref) : nat :=
  (if decide (d = s) then 1 else 0) + tally (is_recompute F d) new.

(** The functions registered on signal [d]. *)
Definition registered (w : world) (d : sref) : list fref :=
  match sigs w !! d with
  | Some sg => live (subscribers sg)
  | None => []
  end.

(** The computed signal [ci] of [createComputed(name, cf, deps)] is in
    place: the closures that set [ci] are those that run [cf], and on
    every signal there is one of them for each time the signal occurs in
    [deps]. *)
Definition installed (ci : sref) (cf : fref) (deps : list sref) (w : world) : Prop :=
  ci < length (sigs w) ∧
  (∀ k c cf', fns w !! k = Some (Recompute c cf') → c = ci ↔ cf' = cf) ∧
  ∀ d, closures_on w ci cf d = length (filter (λ d', d' = d) deps).

(** A world in which every subscriber is quiet. *)
Definition quiet_world (w : world) : Prop :=
  ∀ s sg f, sigs w !! s = Some sg → f ∈ live (subscribers sg) → quiet_fn w f.

(** A world with one computed signal [ci] in which every other
    subscriber is quiet. *)
Record tame (ci : sref) (cf : fref) (w : world) : Prop := {
  tame_computeFn : quiet_fn w cf;
  tame_signal :
    ∃ sgc, sigs w !! ci = Some sgc ∧ NoDup (live (subscribers sgc)) ∧
           ∀ g, g ∈ live (subscribers sgc) → quiet_fn w g;
  tame_others :
    ∀ d sg f, d ≠ ci → sigs w !! d = Some sg → f ∈ live (subscribers sg) →
      quiet_fn w f ∨ fns w !! f = Some (Recompute ci cf)
}.

(** Only the value of [ci], the document and the trace differ. *)
Definition revalued (ci : sref) (w w' : world) : Prop :=
  fns w' = fns w ∧ length (sigs w') = length (sigs w) ∧
  (∀ s, s ≠ ci → sigs w' !! s = sigs w !! s) ∧
  subscribers <$> sigs w' !! ci = subscribers <$> sigs w !! ci.

(** The same functions and the same registrations. *)
Definition same_subscribers (w w' : world) : Prop :=
  fns w' = fns w ∧ length (sigs w') = length (sigs w) ∧
  ∀ s, subscribers <$> sigs w' !! s = subscribers <$> sigs w !! s.

(** ** Relations between the world before and after a run *)

Definition same_shape (w w' : world) : Prop :=
  fns w' = fns w ∧ length (sigs w') = length (sigs w).

Definition keeps_value (s : sref) (w w' : world) : Prop :=
  fns w' = fns w ∧ get s w' = get s w.

(** ** Worlds that differ by deleted registrations only *)

Definition entries_le (es es' : list (option fref)) : Prop :=
  Forall2 (λ e e', e' = e ∨ e' = None) es es'.

Definition signal_le (sg sg' : signal) : Prop :=
  value sg' = value sg ∧ readers sg' = readers sg ∧ checkers sg' = checkers sg ∧
  entries_le (subscribers sg) (subscribers sg').

Definition detached (w w' : world) : Prop :=
  fns w' = fns w ∧ doc w' = doc w ∧ Forall2 signal_le (sigs w) (sigs w').

Definition emit_all (es : list event) (w : world) : world :=
  {| sigs := sigs w; fns := fns w; doc := doc w; trace := trace w ++ es |}.

(** ** What a bound target shows

    A display target shows the value when its text is the value's string
    form; a visibility target reflects the value when it carries the
    class [visible] exactly when the value is truthy. *)

Definition shows_value (s : sref) (w : world) : Prop :=
  ∀ sg r e, sigs w !! s = Some sg → r ∈ readers sg → doc w !! r = Some e →
    innerText e = display (value sg).

Definition flags_value (s : sref) (w : world) : Prop :=
  ∀ sg c e, sigs w !! s = Some sg → c ∈ checkers sg → doc w !! c = Some e →
    ("visible" ∈ classList e ↔ truthy (value sg) = true).

(** ** Example worlds *)

Definition empty_world : world := World [] [] [] [].

(** [v => { if (v) count.set(0); }], subscribed to [count] itself. *)
Definition reset_if_truthy (v : val) : prog :=
  if truthy v then SetP 0 (VNum 0) (Ret VUndefined) else Ret VUndefined.

Definition reentrant_world : world :=
  run_calls toggle_visible 1
    [CallDefine reset_if_truthy; CallCreateSignal "count" (VNum 1); CallSubscribe 0 0]
    empty_world.

(** [() => a.get()], and a world with one signal [a]. *)
Definition read_signal (s : sref) (_ : val) : prog := Get s (λ v, Ret v).

Definition one_signal_world : world :=
  run_calls toggle_visible 1
    [CallDefine (read_signal 0); CallCreateSignal "a" (VNum 0)] empty_world.

(** A page with a display target and a visibility target for [count]
    and a visibility target for [isCountPositive]. *)
Definition page : list element :=
  [Element (Some "count") None "" [];
   Element None (Some "count") "" ["badge"];
   Element None (Some "isCountPositive") "" []].

(** Caller functions used in the examples. *)
Definition noop (_ : val) : prog := Ret VUndefined.
Definition peek (_ : val) : prog := Get 0 (λ _, Ret VUndefined).
Definition increment (v : val) : prog :=
  Ret (match v with VNum z => VNum (z + 1) | _ => VNaN end).
Definition boom (_ : val) : prog := Throw (VStr "boom").
Definition is_positive (_ : val) : prog :=
  Get 0 (λ v, Ret (VBool (match v with VNum z => Z.ltb 0 z | _ => false end))).
Definition drop_other (_ : val) : prog := Unsubscribe 0 1 (Ret VUndefined).
Definition drop_self (_ : val) : prog := Unsubscribe 0 2 (Ret VUndefined).

(** [count] with two quiet subscribers. *)
Definition counter_world : world :=
  run_calls toggle_visible 1
    [CallDefine noop; CallDefine peek; CallDefine increment; CallDefine boom;
     CallCreateSignal "count" (VNum 0); CallSubscribe 0 0; CallSubscribe 0 1]
    (World [] [] page []).

(** [count] with a subscriber that raises between two quiet ones. *)
Definition faulty_world : world :=
  run_calls toggle_visible 1
    [CallDefine noop; CallDefine peek; CallDefine increment; CallDefine boom;
     CallCreateSignal "count" (VNum 0);
     CallSubscribe 0 0; CallSubscribe 0 3; CallSubscribe 0 1]
    (World [] [] page []).

(** [count] with subscribers that unsubscribe another callback and
    themselves. *)
Definition detaching_world : world :=
  run_calls toggle_visible 1
    [CallDefine drop_other; CallDefine noop; CallDefine drop_self; CallDefine noop;
     CallCreateSignal "count" (VNum 0);
     CallSubscribe 0 0; CallSubscribe 0 1; CallSubscribe 0 2; CallSubscribe 0 3]
    (World [] [] page []).

(** [count] and the function [() => count.get() > 0]. *)
Definition positive_world : world :=
  run_calls toggle_visible 1
    [CallDefine is_positive; CallDefine noop; CallCreateSignal "count" (VNum 0)]
    (World [] [] page []).

(** Two signals, and the world after
    [createComputed('sum', () => a.get(), [a, b])] and a quiet
    subscription to the computed signal. *)
Definition two_signals_world : world :=
  run_calls toggle_visible 1
    [CallDefine (read_signal 0); CallDefine noop;
     CallCreateSignal "a" (VNum 0); CallCreateSignal "b" (VNum 0)]
    empty_world.

Definition two_dependencies_world : world :=
  subscribe 2 1 (createComputed toggle_visible 3 "sum" 0 [0; 1] two_signals_world).2.

(** [count] with the subscriber [boom], and the world after
    [createComputed('isCountPositive', () => count.get() > 0, [count])]:
    the closure of the computed signal is registered after [boom]. *)
Definition throwing_world : world :=
  run_calls toggle_visible 1
    [CallDefine is_positive; CallDefine boom; CallCreateSignal "count" (VNum 0);
     CallSubscribe 0 1]
    (World [] [] page []).

Definition stale_world : world :=
  (createComputed toggle_visible 3 "isCountPositive" 0 [0] throwing_world).2.

(** [() => a.get() + b.get()] for the signals at indices 0 and 1, which
    hold numbers. *)
Definition sum_of_two (_ : val) : prog :=
  Get 0 (λ x, Get 1 (λ y,
    Ret (match x, y with VNum p, VNum q => VNum (p + q) | _, _ => VNaN end))).

(** A diamond: the signal [a], [b = createComputed('b', () => a.get(), [a])]
    and [c = createComputed('c', () => a.get() + b.get(), [a, b])] with
    one subscriber. *)
Definition diamond_world : world :=
  run_calls toggle_visible 3
    [CallDefine (read_signal 0); CallDefine sum_of_two; CallDefine noop;
     CallCreateSignal "a" (VNum 0);
     CallCreateComputed "b" 0 [0];
     CallCreateComputed "c" 1 [0; 1];
     CallSubscribe 2 2]
    empty_world.

(** The signal [count] in [counter_world], [faulty_world] and
    [detaching_world], and the signal [a] of [two_dependencies_world]. *)
Definition counter_count : signal :=
  {| value := VNum 0; subscribers := [Some 0; Some 1]; readers := [0]; checkers := [1] |}.

Definition faulty_count : signal :=
  {| value := VNum 0; subscribers := [Some 0; Some 3; Some 1];
     readers := [0]; checkers := [1] |}.

Definition detaching_count : signal :=
  {| value := VNum 0; subscribers := [Some 0; Some 1; Some 2; Some 3];
     readers := [0]; checkers := [1] |}.

Definition dependency_a : signal :=
  {| value := VNum 0; subscribers := [Some 2]; readers := []; checkers := [] |}.

(** * Further definitions

    The classes of worlds and callbacks, and the relations between the
    world before and after a run, used by the later parts of the file. *)

(** ** What the library leaves alone *)

(** The host appends an element to the document. *)
Definition appendChild (e : element) (w : world) : world :=
  with_doc (λ d, d ++ [e]) w.

(** Element [i] is a display target, or a visibility target, of some
    signal. *)
Definition bound_reader (w : world) (i : nat) : Prop :=
  ∃ s sg, sigs w !! s = Some sg ∧ i ∈ readers sg.

Definition bound_checker (w : world) (i : nat) : Prop :=
  ∃ s sg, sigs w !! s = Some sg ∧ i ∈ checkers sg.

(** Every bound target is an element of the document that carries the
    attribute it was selected by. *)
Definition well_bound (w : world) : Prop :=
  ∀ s sg, sigs w !! s = Some sg →
    (∀ r, r ∈ readers sg → ∃ e, doc w !! r = Some e ∧ is_Some (attr_read e)) ∧
    (∀ c, c ∈ checkers sg → ∃ e, doc w !! c = Some e ∧ is_Some (attr_checker e)).

(** The element has its data attributes and, [visible] apart, its class
    tokens. *)
Definition element_kept (e e' : element) : Prop :=
  attr_read e' = attr_read e ∧ attr_checker e' = attr_checker e ∧
  classList_remove "visible" (classList e') = classList_remove "visible" (classList e).

(** What a call on existing signals leaves as it was. *)
Definition footprint (w w' : world) : Prop :=
  fns w' = fns w ∧
  length (sigs w') = length (sigs w) ∧
  (∀ s, readers <$> sigs w' !! s = readers <$> sigs w !! s) ∧
  (∀ s, checkers <$> sigs w' !! s = checkers <$> sigs w !! s) ∧
  length (doc w') = length (doc w) ∧
  ∀ i e e', doc w !! i = Some e → doc w' !! i = Some e' →
    element_kept e e' ∧
    (¬ bound_reader w i → innerText e' = innerText e) ∧
    (¬ bound_checker w i → classList e' = classList e).

(** The signals that exist keep their lists of bound targets. *)
Definition bindings_kept (w w' : world) : Prop :=
  ∀ s sg, sigs w !! s = Some sg →
    ∃ sg', sigs w' !! s = Some sg' ∧ readers sg' = readers sg ∧ checkers sg' = checkers sg.

(** The document keeps its elements; an element without
    [data-signal-read] keeps its text and one without
    [data-signal-checker] keeps its class list. *)
Definition untagged_kept (w w' : world) : Prop :=
  length (doc w') = length (doc w) ∧
  ∀ i e, doc w !! i = Some e →
    ∃ e', doc w' !! i = Some e' ∧ element_kept e e' ∧
      (attr_read e = None → innerText e' = innerText e) ∧
      (attr_checker e = None → classList e' = classList e).

(** What a script of calls leaves as it was. *)
Definition kept (w w' : world) : Prop :=
  bindings_kept w w' ∧ (well_bound w → well_bound w' ∧ untagged_kept w w').

(** Every element has its data attributes and, [visible] apart, its
    class tokens; one without [data-signal-checker] has its whole class
    list. *)
Definition classes_kept (w w' : world) : Prop :=
  ∀ i e, doc w !! i = Some e →
    ∃ e', doc w' !! i = Some e' ∧ element_kept e e' ∧
          (attr_checker e = None → classList e' = classList e).

(** Calls whose name, if they give one, is selector-safe. *)
Definition safe_call (c : api_call) : Prop :=
  match c with
  | CallCreateSignal name _ | CallCreateComputed name _ _ => selector_safe name = true
  | _ => True
  end.

(** The display targets of [s] show its value, when [display] is its
    string form. *)
Definition shows_printable (s : sref) (w : world) : Prop :=
  ∀ sg r e, sigs w !! s = Some sg → r ∈ readers sg → doc w !! r = Some e →
    printable (value sg) → innerText e = display (value sg).

(** ** Registrations *)

(** No signal holds a function twice. *)
Definition no_duplicates (w : world) : Prop :=
  ∀ s sg, sigs w !! s = Some sg → NoDup (live (subscribers sg)).

Definition duplicates_kept_out (w w' : world) : Prop :=
  fns w' = fns w ∧ (no_duplicates w → no_duplicates w').

(** Bodies that only read signals and subscribe functions satisfying
    [P], and then return; [n] is the number of signals that exist. *)
Inductive attaching (n : nat) (P : fref → Prop) : prog → Prop :=
| attaching_ret v : attaching n P (Ret v)
| attaching_get s k : s < n → (∀ v, attaching n P (k v)) → attaching n P (Get s k)
| attaching_subscribe s f k :
    s < n → P f → attaching n P k → attaching n P (Subscribe s f k).

Definition attaching_fn (w : world) (P : fref → Prop) (f : fref) : Prop :=
  ∃ body, fns w !! f = Some (User body) ∧ ∀ v, attaching (length (sigs w)) P (body v).

(** How many of the [n] function objects are not entries of the set. *)
Definition missing (n : nat) (es : list (option fref)) : nat :=
  length (filter (λ g, Some g ∉ es) (seq 0 n)).

(** The set has only gained entries, each a function satisfying [P]. *)
Definition entries_grow (n : nat) (P : fref → Prop) (es es' : list (option fref)) : Prop :=
  es `prefix_of` es' ∧
  length es' + missing n es' ≤ length es + missing n es ∧
  ∀ g, Some g ∈ es' → Some g ∈ es ∨ P g.

Definition signal_grow (n : nat) (P : fref → Prop) (sg sg' : signal) : Prop :=
  value sg' = value sg ∧ readers sg' = readers sg ∧ checkers sg' = checkers sg ∧
  entries_grow n P (subscribers sg) (subscribers sg').

Definition grown (P : fref → Prop) (w w' : world) : Prop :=
  fns w' = fns w ∧ doc w' = doc w ∧
  Forall2 (signal_grow (length (fns w)) P) (sigs w) (sigs w').

(** [v => { count.subscribe(late); }] for the function [late] at index 1 *)
Definition attach_late (_ : val) : prog := Subscribe 0 1 (Ret VUndefined).

Definition attaching_world : world :=
  run_calls toggle_visible 1
    [CallDefine attach_late; CallDefine noop;
     CallCreateSignal "count" (VNum 0); CallSubscribe 0 0]
    (World [] [] page []).

(** The call is a [set] or an [update] on signal [s]. *)
Definition call_writes (s : sref) (c : api_call) : Prop :=
  match c with
  | CallSet t _ | CallUpdate t _ => t = s
  | _ => False
  end.

(** A caller function without effects: [a => g(a)]. *)
Definition pure_fn (w : world) (f : fref) (g : val → val) : Prop :=
  ∃ body, fns w !! f = Some (User body) ∧ ∀ a, body a = Ret (g a).

(** ** Re-entrant passes *)

(** Entry [i] of the subscribers of [s] is the function [f], whose body
    starts by calling [s.set]; the entries before it are quiet. *)
Definition unguarded (s : sref) (i : nat) (f : fref) (w : world) : Prop :=
  (∃ body, fns w !! f = Some (User body) ∧ ∀ a, ∃ u k, body a = SetP s u k) ∧
  ∃ sg, sigs w !! s = Some sg ∧ subscribers sg !! i = Some (Some f) ∧
        ∀ g, Some g ∈ take i (subscribers sg) → quiet_fn w g.

(** A world in layers: every subscriber is quiet or is the closure of a
    computed signal created after the signal it is registered on, with a
    quiet [computeFn]. *)
Definition layered (w : world) : Prop :=
  ∀ s sg f, sigs w !! s = Some sg → f ∈ live (subscribers sg) →
    quiet_fn w f ∨
    ∃ ci cf, fns w !! f = Some (Recompute ci cf) ∧ s < ci < length (sigs w) ∧ quiet_fn w cf.

(** No subscriber set has more than [L] entries. *)
Definition widest (L : nat) (w : world) : Prop :=
  ∀ s sg, sigs w !! s = Some sg → length (subscribers sg) ≤ L.

(** The registrations and the signals up to [s] are as before. *)
Definition beyond (s : sref) (w w' : world) : Prop :=
  same_subscribers w w' ∧ ∀ t, t ≤ s → sigs w' !! t = sigs w !! t.

(** [v => { count.set(v + 1); }] *)
Definition bump (v : val) : prog :=
  SetP 0 (match v with VNum z => VNum (z + 1) | _ => VNaN end) (Ret VUndefined).

Definition runaway_world : world :=
  run_calls toggle_visible 1
    [CallDefine noop; CallDefine bump; CallCreateSignal "count" (VNum 0);
     CallSubscribe 0 0; CallSubscribe 0 1]
    (World [] [] page []).

(** [set] returns at depth [n], when [n] bounds what is still above the
    signal. *)
Definition returns_at (cs : bool → list string → list string) (L n : nat) : Prop :=
  ∀ s v w sg, layered w → widest L w → sigs w !! s = Some sg →
    (length (sigs w) - s) + L ≤ n →
    ∃ w', set_with cs (call cs n) n s v w = (Done (), w') ∧
          same_subscribers w w' ∧
          (∀ t, t < s → sigs w' !! t = sigs w !! t) ∧
          sigs w' !! s = Some (store_value v sg).

(** The bound targets of [s] show its value. *)
Definition targets_show (s : sref) (w : world) : Prop :=
  shows_value s w ∧ flags_value s w.

(** No element is a target of the same kind of both signals. *)
Definition targets_apart (a b : signal) : Prop :=
  (∀ i, i ∈ readers a → i ∉ readers b) ∧ (∀ i, i ∈ checkers a → i ∉ checkers b).

(** The page after [count] and [isCountPositive] are created. *)
Definition rendering_world : world :=
  (createComputed toggle_visible 3 "isCountPositive" 0 [0] positive_world).2.

(** ** Further example values *)

(** [v => v + 1] *)
Definition successor (v : val) : val :=
  match v with VNum z => VNum (z + 1) | _ => VNaN end.

(** An element for [count] that is added to the page later. *)
Definition late_element : element := Element (Some "count") None "" [].

(** The signal [count] in [attaching_world], and the two signals of
    [rendering_world]. *)
Definition attaching_count : signal :=
  {| value := VNum 0; subscribers := [Some 0]; readers := [0]; checkers := [1] |}.

Definition rendering_count : signal :=
  {| value := VNum 0; subscribers := [Some 2]; readers := [0]; checkers := [1] |}.

Definition rendering_positive : signal :=
  {| value := VBool false; subscribers := []; readers := []; checkers := [2] |}.

(** * Properties *)

(** ** Frame reasoning

    A relation between the world before and after, kept by every
    primitive step that the permissions allow, is kept by every run of
    permitted caller code, however deeply it re-enters the library. *)

Section Frame.
Variable cs : bool → list string → list string.
Variable R : world → world → Prop.
Variable writable : sref → Prop.
Variable may_set : sref → Prop.
Variable may_sub : sref → fref → Prop.
Variable may_unsub : sref → fref → Prop.

Hypothesis R_refl : ∀ w, R w w.
Hypothesis R_trans : ∀ w1 w2 w3, R w1 w2 → R w2 w3 → R w1 w3.
Hypothesis R_fns : ∀ w w', R w w' → fns w' = fns w.
Hypothesis R_emit_sub : ∀ t f v w, writable t → R w (emit (EvSubscriber t f v) w).
Hypothesis R_emit_upd : ∀ t f v w, may_set t → R w (emit (EvUpdateFn t f v) w).
Hypothesis R_emit_cmp : ∀ f w, R w (emit (EvCompute f) w).
Hypothesis R_store : ∀ t v w, writable t → R w (with_sigs (alter (store_value v) t) w).
Hypothesis R_targets : ∀ t w, writable t → R w (write_targets cs t w).
Hypothesis R_subscribe : ∀ t f w, may_sub t f → R w (subscribe t f w).
Hypothesis R_unsubscribe : ∀ t f w, may_unsub t f → R w (unsubscribe t f w).
Hypothesis may_set_writable : ∀ t, may_set t → writable t.

#[local] Abbreviation permitted := (permitted may_set may_sub may_unsub).
#[local] Abbreviation code_permitted := (code_permitted writable may_set may_sub may_unsub).

Lemma code_permitted_R w w' : R w w' → code_permitted w → code_permitted w'.
Proof. intros HR HP f d. rewrite (R_fns _ _ HR). apply HP. Qed.

Section FrameCalls.
Variable callf : fref → val → world → outcome val * world.
Hypothesis callf_frame : ∀ f a w, code_permitted w → R w (callf f a w).2.

Lemma forEach_subscribers_frame m t i w :
  writable t → code_permitted w → R w (forEach_subscribers callf m t i w).2.
Proof.
  intros Ht. revert i w. induction m as [|m IH]; intros i w HP; simpl.
  - destruct (sigs w !! t) as [sg|]; [|apply R_refl].
    destruct (subscribers sg !! i); apply R_refl.
  - destruct (sigs w !! t) as [sg|]; [|apply R_refl].
    destruct (subscribers sg !! i) as [[f|]|]; [| by apply IH | apply R_refl].
    pose proof (R_emit_sub t f (value sg) w Ht) as H1.
    pose proof (callf_frame f (value sg) _ (code_permitted_R _ _ H1 HP)) as H2.
    destruct (callf f (value sg) _) as [[?| ?|] w1]; simpl in *;
      try (eapply R_trans; eauto; fail).
    eapply R_trans; [eapply R_trans; eauto|].
    apply IH. eapply code_permitted_R; [|exact HP]. eapply R_trans; eauto.
Qed.

Lemma notify_with_frame m t w :
  writable t → code_permitted w → R w (notify_with cs callf m t w).2.
Proof.
  intros Ht HP. unfold notify_with.
  pose proof (forEach_subscribers_frame m t 0 w Ht HP) as H1.
  destruct (forEach_subscribers callf m t 0 w) as [[?| ?|] w1]; simpl in *; auto.
  eapply R_trans; eauto.
Qed.

Lemma set_with_frame m t v w :
  writable t → code_permitted w → R w (set_with cs callf m t v w).2.
Proof.
  intros Ht HP. unfold set_with.
  destruct (sigs w !! t); [|apply R_refl].
  pose proof (R_store t v w Ht) as H1.
  eapply R_trans; [exact H1|].
  apply notify_with_frame; auto.
Qed.

Lemma update_with_frame m t f w :
  may_set t → code_permitted w → R w (update_with cs callf m t f w).2.
Proof.
  intros Ht HP. unfold update_with.
  destruct (sigs w !! t) as [sg|]; [|apply R_refl].
  pose proof (R_emit_upd t f (value sg) w Ht) as H1.
  pose proof (callf_frame f (value sg) _ (code_permitted_R _ _ H1 HP)) as H2.
  destruct (callf f (value sg) _) as [[x| ?|] w1]; simpl in *;
    try (eapply R_trans; eauto; fail).
  assert (R w w1) as H3 by (eapply R_trans; eauto).
  eapply R_trans; [exact H3|].
  eapply R_trans; [apply (R_store t x w1); auto|].
  apply notify_with_frame; auto.
  exact (code_permitted_R _ _ H3 HP).
Qed.

Lemma exec_frame m p w :
  permitted p → code_permitted w → R w (exec cs callf m p w).2.
Proof.
  intros Hp. revert w. induction Hp as [v|e|s k Hk IH|s v k Hs Hk IH|s f k Hs Hk IH
                                       |s f k Hs Hk IH|s f k Hs Hk IH];
    intros w HP; simpl.
  - apply R_refl.
  - apply R_refl.
  - destruct (sigs w !! s); [by apply IH | apply R_refl].
  - pose proof (set_with_frame m s v w (may_set_writable _ Hs) HP) as H1.
    destruct (set_with cs callf m s v w) as [[?| ?|] w1]; simpl in *; auto.
    eapply R_trans; [exact H1|]. apply IH. eapply code_permitted_R; eauto.
  - pose proof (update_with_frame m s f w Hs HP) as H1.
    destruct (update_with cs callf m s f w) as [[?| ?|] w1]; simpl in *; auto.
    eapply R_trans; [exact H1|]. apply IH. eapply code_permitted_R; eauto.
  - destruct (sigs w !! s); [|apply R_refl].
    pose proof (R_subscribe s f w Hs) as H1.
    eapply R_trans; [exact H1|]. apply IH. eapply code_permitted_R; eauto.
  - pose proof (R_unsubscribe s f w Hs) as H1.
    eapply R_trans; [exact H1|]. apply IH. eapply code_permitted_R; eauto.
Qed.
End FrameCalls.

Lemma call_frame n f a w : code_permitted w → R w (call cs n f a w).2.
Proof.
  revert f a w. induction n as [|n IH]; intros f a w HP; simpl; [apply R_refl|].
  destruct (fns w !! f) as [[body|signal computeFn]|] eqn:Hf; [| |apply R_refl].
  - apply exec_frame; auto. apply (HP _ _ Hf).
  - pose proof (R_emit_cmp computeFn w) as H1.
    pose proof (IH computeFn VUndefined _ (code_permitted_R _ _ H1 HP)) as H2.
    destruct (call cs n computeFn VUndefined _) as [[x| ?|] w1]; simpl in *;
      try (eapply R_trans; eauto; fail).
    assert (R w w1) as H3 by (eapply R_trans; eauto).
    pose proof (set_with_frame (call cs n) IH n signal x w1 (HP _ _ Hf)
                  (code_permitted_R _ _ H3 HP)) as H4.
    destruct (set_with cs (call cs n) n signal x w1) as [[?| ?|] w2]; simpl in *;
      eapply R_trans; eauto.
Qed.

Lemma set_frame n t v w : writable t → code_permitted w → R w (set cs n t v w).2.
Proof. intros. apply set_with_frame; auto. intros. by apply call_frame. Qed.

Lemma update_frame n t f w : may_set t → code_permitted w → R w (update cs n t f w).2.
Proof. intros. apply update_with_frame; auto. intros. by apply call_frame. Qed.

Lemma run_frame n p w : permitted p → code_permitted w → R w (run cs n p w).2.
Proof. intros. apply exec_frame; auto. intros. by apply call_frame. Qed.
End Frame.

(** ** The two copies of [createSignal] agree *)

Lemma classList_remove_absent tok cl : tok ∉ cl → classList_remove tok cl = cl.
Proof.
  intros H. unfold classList_remove. induction cl as [|t cl IH]; [done|].
  rewrite filter_cons. apply not_elem_of_cons in H as [H1 H2].
  destruct (decide (t ≠ tok)) as [_|Hn]; [by rewrite IH|].
  exfalso. apply Hn. congruence.
Qed.

Lemma toggle_is_add_or_remove b cl : toggle_visible b cl = add_or_remove_visible b cl.
Proof.
  unfold toggle_visible, add_or_remove_visible, classList_toggle, classList_add,
    classList_contains.
  destruct b; [done|]. case_bool_decide as H; [done|].
  by rewrite classList_remove_absent.
Qed.

Section Extensional.
Variables cs1 cs2 : bool → list string → list string.
Hypothesis cs_ext : ∀ b cl, cs1 b cl = cs2 b cl.

Lemma write_checkers_ext sg d : write_checkers cs1 sg d = write_checkers cs2 sg d.
Proof.
  unfold write_checkers. revert d.
  induction (checkers sg) as [|c l IH]; intros d; simpl; [done|].
  rewrite IH. f_equal. apply list_alter_ext; [|done].
  intros e _. unfold map_classList. by rewrite cs_ext.
Qed.

Lemma write_targets_ext s w : write_targets cs1 s w = write_targets cs2 s w.
Proof.
  unfold write_targets. destruct (sigs w !! s); [|done].
  unfold with_doc. by rewrite write_checkers_ext.
Qed.

Section ExtCalls.
Variables callf1 callf2 : fref → val → world → outcome val * world.
Hypothesis callf_ext : ∀ f a w, callf1 f a w = callf2 f a w.

Lemma forEach_subscribers_ext m s i w :
  forEach_subscribers callf1 m s i w = forEach_subscribers callf2 m s i w.
Proof.
  revert i w. induction m as [|m IH]; intros i w; simpl; [done|].
  destruct (sigs w !! s) as [sg|]; [|done].
  destruct (subscribers sg !! i) as [[f|]|]; [|apply IH|done].
  rewrite callf_ext. destruct (callf2 f (value sg) _) as [[?| ?|] w1]; auto.
Qed.

Lemma notify_with_ext m s w :
  notify_with cs1 callf1 m s w = notify_with cs2 callf2 m s w.
Proof.
  unfold notify_with. rewrite forEach_subscribers_ext.
  destruct (forEach_subscribers callf2 m s 0 w) as [[?| ?|] w1]; auto.
  by rewrite write_targets_ext.
Qed.

Lemma set_with_ext m s v w :
  set_with cs1 callf1 m s v w = set_with cs2 callf2 m s v w.
Proof. unfold set_with. destruct (sigs w !! s); [apply notify_with_ext|done]. Qed.

Lemma update_with_ext m s f w :
  update_with cs1 callf1 m s f w = update_with cs2 callf2 m s f w.
Proof.
  unfold update_with. destruct (sigs w !! s) as [sg|]; [|done].
  rewrite callf_ext. destruct (callf2 f (value sg) _) as [[?| ?|] w1]; auto.
  apply notify_with_ext.
Qed.

Lemma exec_ext m p w : exec cs1 callf1 m p w = exec cs2 callf2 m p w.
Proof.
  revert w. induction p as [v|e|s k IH|s v k IH|s f k IH|s f k IH|s f k IH];
    intros w; simpl; auto.
  - destruct (sigs w !! s); auto.
  - rewrite set_with_ext. destruct (set_with cs2 callf2 m s v w) as [[?| ?|] w1]; auto.
  - rewrite update_with_ext.
    destruct (update_with cs2 callf2 m s f w) as [[?| ?|] w1]; auto.
  - destruct (sigs w !! s); auto.
Qed.
End ExtCalls.

Lemma call_ext n f a w : call cs1 n f a w = call cs2 n f a w.
Proof.
  revert f a w. induction n as [|n IH]; intros f a w; simpl; [done|].
  destruct (fns w !! f) as [[body|signal computeFn]|]; [| |done].
  - by apply exec_ext.
  - rewrite IH. destruct (call cs2 n computeFn VUndefined _) as [[x| ?|] w1]; auto.
    by rewrite (set_with_ext _ _ IH).
Qed.

Lemma set_ext n s v w : set cs1 n s v w = set cs2 n s v w.
Proof. apply set_with_ext, call_ext. Qed.

Lemma update_ext n s f w : update cs1 n s f w = update cs2 n s f w.
Proof. apply update_with_ext, call_ext. Qed.

Lemma createSignal_ext n name v w :
  createSignal cs1 n name v w = createSignal cs2 n name v w.
Proof.
  unfold createSignal, notify. by rewrite (notify_with_ext _ _ (call_ext n)).
Qed.

Lemma createComputed_ext n name cf deps w :
  createComputed cs1 n name cf deps w = createComputed cs2 n name cf deps w.
Proof.
  unfold createComputed. rewrite call_ext.
  destruct (call cs2 n cf VUndefined _) as [[x| ?|] w1]; auto.
  by rewrite createSignal_ext.
Qed.

Lemma step_call_ext n c w : step_call cs1 n c w = step_call cs2 n c w.
Proof.
  destruct c; simpl; auto using f_equal, createSignal_ext, createComputed_ext,
    set_ext, update_ext.
Qed.

Lemma run_calls_ext n cl w : run_calls cs1 n cl w = run_calls cs2 n cl w.
Proof.
  unfold run_calls. revert w. induction cl as [|c cl IH]; intros w; simpl; [done|].
  by rewrite step_call_ext, IH.
Qed.
End Extensional.

(** C10. The [createSignal] of [src/t3s.js] and the second copy, whose
    [notify] uses [if (!!value) add else remove] in place of
    [classList.toggle('visible', !!value)], are observationally equal:
    the two checker statements leave the same class list for every value
    and every class list, creating a signal yields the same signal and
    the same world, and every script of create, set, update, subscribe
    and unsubscribe calls, with any caller-supplied callbacks, ends in
    the same world (stored values, subscriber sets, display texts, class
    lists and the trace of callback invocations with their arguments),
    so that [get] answers the same on both sides. *)
Theorem createSignal_copies_equivalent :
  (∀ v cl, toggle_visible (truthy v) cl = add_or_remove_visible (truthy v) cl) ∧
  (∀ fuel name initialValue w,
     createSignal toggle_visible fuel name initialValue w
     = createSignal add_or_remove_visible fuel name initialValue w) ∧
  (∀ fuel calls w,
     run_calls toggle_visible fuel calls w
     = run_calls add_or_remove_visible fuel calls w) ∧
  (∀ fuel calls w s,
     get s (run_calls toggle_visible fuel calls w)
     = get s (run_calls add_or_remove_visible fuel calls w)).
Proof.
  split; [intros; apply toggle_is_add_or_remove|].
  split; [intros; apply createSignal_ext, toggle_is_add_or_remove|].
  split; intros.
  - apply run_calls_ext, toggle_is_add_or_remove.
  - f_equal. apply run_calls_ext, toggle_is_add_or_remove.
Qed.

(** ** Writing the bound targets *)

Lemma write_targets_sigs cs s w : sigs (write_targets cs s w) = sigs w.
Proof. unfold write_targets. by destruct (sigs w !! s). Qed.

Lemma write_targets_fns cs s w : fns (write_targets cs s w) = fns w.
Proof. unfold write_targets. by destruct (sigs w !! s). Qed.

Lemma write_targets_trace cs s w : trace (write_targets cs s w) = trace w.
Proof. unfold write_targets. by destruct (sigs w !! s). Qed.

Lemma foldl_alter_elem {A} (g : A → A) (P : A → Prop) (l : list nat) (d : list A) c e :
  (∀ x, P (g x)) → c ∈ l →
  foldl (λ d r, alter g r d) d l !! c = Some e → P e.
Proof.
  intros Hg. revert e. induction l as [|r l IH] using rev_ind; intros e Hc He.
  - by apply elem_of_nil in Hc.
  - rewrite foldl_snoc in He. destruct (decide (r = c)) as [->|Hne].
    + rewrite list_lookup_alter_eq in He.
      destruct (foldl _ d l !! c); simplify_eq/=. apply Hg.
    + rewrite list_lookup_alter_ne in He by done.
      apply IH; [|done]. apply elem_of_app in Hc as [Hc|Hc]; [done|].
      apply list_elem_of_singleton in Hc. congruence.
Qed.

Lemma foldl_alter_proj {A B} (g : A → A) (proj : A → B) (l : list nat) (d : list A) c :
  (∀ x, proj (g x) = proj x) →
  proj <$> foldl (λ d r, alter g r d) d l !! c = proj <$> d !! c.
Proof.
  intros Hg. induction l as [|r l IH] using rev_ind; [done|].
  rewrite foldl_snoc. destruct (decide (r = c)) as [->|Hne].
  - rewrite list_lookup_alter_eq, <- IH.
    destruct (foldl _ d l !! c); simpl; [by rewrite Hg|done].
  - by rewrite list_lookup_alter_ne.
Qed.

Lemma length_foldl_alter {A} (g : A → A) (l : list nat) (d : list A) :
  length (foldl (λ d r, alter g r d) d l) = length d.
Proof.
  induction l as [|r l IH] using rev_ind; [done|].
  by rewrite foldl_snoc, length_alter.
Qed.

Lemma visible_toggle b cl : "visible" ∈ toggle_visible b cl ↔ b = true.
Proof.
  unfold toggle_visible, classList_toggle, classList_contains, classList_remove.
  case_bool_decide as H; destruct b; split; try done.
  - intros [Hne _]%list_elem_of_filter. done.
  - intros _. apply elem_of_app. right. by apply list_elem_of_singleton.
Qed.

Lemma write_targets_shows cs s w :
  shows_value s (write_targets cs s w).
Proof.
  intros sg r e Hs Hr He. unfold write_targets in *.
  destruct (sigs w !! s) as [sg0|] eqn:E; simpl in *; [|congruence].
  assert (sg0 = sg) as -> by congruence.
  assert (Some (innerText e)
          = innerText <$> write_readers sg (doc w) !! r) as H1.
  { unfold write_checkers in He.
    rewrite <- (foldl_alter_proj (map_classList (cs (truthy (value sg)))) innerText
                  (checkers sg) _ r) by done.
    by rewrite He. }
  destruct (write_readers sg (doc w) !! r) as [e1|] eqn:E1; simplify_eq/=.
  rewrite H1. unfold write_readers in E1.
  by eapply (foldl_alter_elem _ (λ x, innerText x = display (value sg))) in E1.
Qed.

Lemma write_targets_flags s w :
  flags_value s (write_targets toggle_visible s w).
Proof.
  intros sg c e Hs Hc He. unfold write_targets in *.
  destruct (sigs w !! s) as [sg0|] eqn:E; simpl in *; [|congruence].
  assert (sg0 = sg) as -> by congruence.
  unfold write_checkers in He.
  eapply (foldl_alter_elem _ (λ x, "visible" ∈ classList x ↔ truthy (value sg) = true))
    in He; [done| |done].
  intros x. simpl. apply visible_toggle.
Qed.

(** ** The shape of a notification pass *)

Lemma notify_with_done cs callf m s w w' :
  notify_with cs callf m s w = (Done (), w') →
  ∃ w1, forEach_subscribers callf m s 0 w = (Done (), w1) ∧ w' = write_targets cs s w1.
Proof.
  unfold notify_with. destruct (forEach_subscribers callf m s 0 w) as [[[]| ?|] w1];
    intros; simplify_eq. eauto.
Qed.

Lemma set_with_done cs callf m s v w w' :
  set_with cs callf m s v w = (Done (), w') →
  ∃ w1, forEach_subscribers callf m s 0 (with_sigs (alter (store_value v) s) w)
        = (Done (), w1) ∧ w' = write_targets cs s w1.
Proof.
  unfold set_with. destruct (sigs w !! s); [|done]. apply notify_with_done.
Qed.

Lemma update_with_done cs callf m s f w w' :
  update_with cs callf m s f w = (Done (), w') →
  ∃ sg x w0 w1,
    sigs w !! s = Some sg ∧
    callf f (value sg) (emit (EvUpdateFn s f (value sg)) w) = (Done x, w0) ∧
    forEach_subscribers callf m s 0 (with_sigs (alter (store_value x) s) w0)
      = (Done (), w1) ∧
    w' = write_targets cs s w1.
Proof.
  unfold update_with. destruct (sigs w !! s) as [sg|]; [|done].
  destruct (callf f (value sg) _) as [[x| ?|] w0] eqn:E; try done.
  intros (w1 & H1 & H2)%notify_with_done. eauto 10.
Qed.

Lemma createSignal_done cs fuel name initialValue w :
  let sg := {| value := initialValue; subscribers := [];
               readers := querySelectorAll attr_read name (doc w);
               checkers := querySelectorAll attr_checker name (doc w) |} in
  createSignal cs fuel name initialValue w
  = (Done (length (sigs w)),
     write_targets cs (length (sigs w)) (with_sigs (λ l, l ++ [sg]) w)).
Proof.
  intros sg. unfold createSignal, notify, notify_with. cbv zeta. fold sg.
  assert (forEach_subscribers (call cs fuel) fuel (length (sigs w)) 0
            (with_sigs (λ l, l ++ [sg]) w)
          = (Done (), with_sigs (λ l, l ++ [sg]) w)) as ->; [|done].
  destruct fuel; simpl; by rewrite list_lookup_middle.
Qed.

Lemma elem_of_select_from attr name d i c :
  c ∈ select_from i attr name d ↔
  ∃ e, i ≤ c ∧ d !! (c - i) = Some e ∧ attr e = Some name.
Proof.
  revert i. induction d as [|e0 d IH]; intros i; simpl.
  - split; [by intros ?%elem_of_nil|]. by intros (e & _ & ? & _).
  - assert (c ∈ select_from (S i) attr name d ↔
            ∃ e, i ≤ c ∧ (e0 :: d) !! (c - i) = Some e ∧ c ≠ i ∧ attr e = Some name) as Hrec.
    { rewrite IH. split.
      - intros (e & Hle & He & Ha). exists e. repeat split; [lia| |lia|done].
        replace (c - i) with (S (c - S i)) by lia. done.
      - intros (e & Hle & He & Hne & Ha). exists e. repeat split; [lia| |done].
        replace (c - i) with (S (c - S i)) in He by lia. done. }
    destruct (decide (attr e0 = Some name)) as [Ha|Ha].
    + rewrite elem_of_cons, Hrec. split.
      * intros [->|(e & ? & ? & ? & ?)]; [|by eauto].
        exists e0. rewrite Nat.sub_diag. done.
      * intros (e & Hle & He & Hae). destruct (decide (c = i)) as [->|Hne]; [by left|].
        right. eauto 10.
    + rewrite Hrec. split.
      * intros (e & ? & ? & ? & ?). eauto.
      * intros (e & Hle & He & Hae). destruct (decide (c = i)) as [->|Hne]; [|by eauto 10].
        rewrite Nat.sub_diag in He. by simplify_eq/=.
Qed.

Lemma elem_of_querySelectorAll attr name d c :
  c ∈ querySelectorAll attr name d ↔ ∃ e, d !! c = Some e ∧ attr e = Some name.
Proof.
  unfold querySelectorAll. rewrite elem_of_select_from. rewrite Nat.sub_0_r.
  split; [intros (e & _ & ? & ?)|intros (e & ? & ?)]; exists e; repeat split; auto; lia.
Qed.

(** ** Callbacks that do not re-enter the library *)

Lemma emit_all_nil w : emit_all [] w = w.
Proof. destruct w. unfold emit_all. simpl. by rewrite app_nil_r. Qed.

Lemma emit_all_emit e es w : emit_all es (emit e w) = emit_all (e :: es) w.
Proof. unfold emit_all, emit. simpl. by rewrite <- app_assoc. Qed.

Lemma entries_le_refl es : entries_le es es.
Proof. apply Forall_Forall2_diag, Forall_forall. auto. Qed.

Lemma entries_le_trans es1 es2 es3 :
  entries_le es1 es2 → entries_le es2 es3 → entries_le es1 es3.
Proof.
  unfold entries_le. intros H1 H2. eapply Forall2_trans; [|exact H1|exact H2].
  intros x y z [->| ->] [->| ->]; auto.
Qed.

Lemma entries_le_delete f es : entries_le es (set_delete f es).
Proof.
  unfold entries_le, set_delete. induction es as [|e es IH]; simpl; constructor; [|done].
  destruct (decide (e = Some f)); auto.
Qed.

Lemma entries_le_drop j es es' :
  entries_le es es' → entries_le (drop j es) (drop j es').
Proof. apply Forall2_drop. Qed.

Lemma entries_le_elem es es' g : entries_le es es' → Some g ∈ es' → Some g ∈ es.
Proof.
  induction 1 as [|e e' es es' He _ IH]; [done|].
  rewrite !elem_of_cons. intros [Hg|Hg]; [|by right; apply IH].
  left. destruct He as [->| ->]; done.
Qed.

Lemma entries_le_live es es' : entries_le es es' → live es' `sublist_of` live es.
Proof.
  unfold live. induction 1 as [|e e' es es' He _ IH]; simpl; [done|].
  destruct He as [->| ->]; simpl.
  - destruct e; simpl; [by apply sublist_skip|done].
  - destruct e; simpl; [by apply sublist_cons|done].
Qed.

Lemma signal_le_refl sg : signal_le sg sg.
Proof. repeat split; auto using entries_le_refl. Qed.

Lemma signal_le_trans sg1 sg2 sg3 : signal_le sg1 sg2 → signal_le sg2 sg3 → signal_le sg1 sg3.
Proof.
  intros (?&?&?&?) (?&?&?&?). repeat split; try congruence.
  eapply entries_le_trans; eauto.
Qed.

Lemma detached_refl w : detached w w.
Proof.
  repeat split. apply Forall_Forall2_diag, Forall_forall. auto using signal_le_refl.
Qed.

Lemma detached_trans w1 w2 w3 : detached w1 w2 → detached w2 w3 → detached w1 w3.
Proof.
  intros (?&?&H1) (?&?&H2). repeat split; try congruence.
  eapply Forall2_trans; [|exact H1|exact H2]. apply signal_le_trans.
Qed.

Lemma detached_length w w' : detached w w' → length (sigs w') = length (sigs w).
Proof. intros (_&_&H). symmetry. by eapply Forall2_length. Qed.

Lemma detached_lookup w w' s sg :
  detached w w' → sigs w !! s = Some sg →
  ∃ sg', sigs w' !! s = Some sg' ∧ signal_le sg sg'.
Proof. intros (_&_&H) Hs. by eapply Forall2_lookup_l in H. Qed.

Lemma detached_unsubscribe s f w : detached w (unsubscribe s f w).
Proof.
  repeat split. simpl. apply Forall2_alter_r.
  - apply Forall_Forall2_diag, Forall_forall. auto using signal_le_refl.
  - intros sg sg' H1 H2 _. assert (sg' = sg) as -> by congruence.
    repeat split; simpl; auto using entries_le_delete.
Qed.

Lemma quiet_fn_detaching_fn w f : quiet_fn w f → detaching_fn w f.
Proof.
  intros (body & Hf & Hb). exists body. split; [done|]. intros v.
  induction (Hb v); constructor; auto.
Qed.

Lemma detaching_fn_detached w w' f : detached w w' → detaching_fn w f → detaching_fn w' f.
Proof.
  intros Hd (body & Hf & Hb). exists body. pose proof Hd as (Hfns & _).
  rewrite Hfns. split; [done|]. by rewrite (detached_length w w').
Qed.

Section LeafCalls.
Variable cs : bool → list string → list string.
Variable callf : fref → val → world → outcome val * world.

Lemma exec_quiet m p w :
  quiet (length (sigs w)) p → ∃ r, exec cs callf m p w = (Done r, w).
Proof.
  induction 1 as [v|s k Hs Hk IH|]; simpl; [by eauto| |done].
  apply lookup_lt_is_Some in Hs as [sg ->]. apply IH.
Qed.

Lemma exec_detaching m p w :
  detaching (length (sigs w)) p →
  ∃ r w', exec cs callf m p w = (Done r, w') ∧ detached w w' ∧ trace w' = trace w.
Proof.
  intros Hp. remember (length (sigs w)) as n eqn:Hn. revert w Hn.
  induction Hp as [v|s k Hs Hk IH|s f k _ Hk IH]; intros w Hn; simpl.
  - eauto using detached_refl.
  - subst n. apply lookup_lt_is_Some in Hs as [sg ->]. by apply IH.
  - destruct (IH (unsubscribe s f w)) as (r & w' & -> & Hd & Ht).
    { subst n. symmetry. apply (detached_length _ _ (detached_unsubscribe s f w)). }
    exists r, w'. split; [done|]. split; [|done].
    eapply detached_trans; [apply detached_unsubscribe|done].
Qed.

Lemma exec_raises m p e w :
  raises (length (sigs w)) e p → exec cs callf m p w = (Raised e, w).
Proof.
  induction 1 as [|s k Hs Hk IH]; simpl; [done|].
  apply lookup_lt_is_Some in Hs as [sg ->]. apply IH.
Qed.
End LeafCalls.

Lemma call_quiet cs n f a w : quiet_fn w f → ∃ r, call cs (S n) f a w = (Done r, w).
Proof. intros (body & Hf & Hb). simpl. rewrite Hf. by apply exec_quiet. Qed.

Lemma call_detaching cs n f a w :
  detaching_fn w f →
  ∃ r w', call cs (S n) f a w = (Done r, w') ∧ detached w w' ∧ trace w' = trace w.
Proof. intros (body & Hf & Hb). simpl. rewrite Hf. by apply exec_detaching. Qed.

Section QuietPass.
Variable callf : fref → val → world → outcome val * world.
Hypothesis callf_quiet : ∀ f a w, quiet_fn w f → ∃ r, callf f a w = (Done r, w).

(** A pass over quiet subscribers calls each registered function once,
    in registration order, and changes nothing else. *)
Lemma forEach_subscribers_quiet s m i w sg :
  sigs w !! s = Some sg →
  (∀ f, Some f ∈ drop i (subscribers sg) → quiet_fn w f) →
  length (subscribers sg) - i ≤ m →
  forEach_subscribers callf m s i w
  = (Done (), emit_all ((λ f, EvSubscriber s f (value sg)) <$> live (drop i (subscribers sg))) w).
Proof.
  revert i w. induction m as [|m IH]; intros i w Hs Hq Hm.
  - simpl. rewrite Hs. rewrite lookup_ge_None_2 by lia.
    rewrite drop_ge by lia. by rewrite emit_all_nil.
  - simpl. rewrite Hs. destruct (subscribers sg !! i) as [[f|]|] eqn:Hi.
    + rewrite (drop_S _ _ _ Hi) in Hq |- *.
      destruct (callf_quiet f (value sg) (emit (EvSubscriber s f (value sg)) w)) as [r ->].
      { apply Hq. by left. }
      rewrite (IH (S i) (emit (EvSubscriber s f (value sg)) w)); [|done| |lia].
      * simpl. by rewrite emit_all_emit.
      * intros g Hg. apply Hq. by right.
    + rewrite (drop_S _ _ _ Hi) in Hq |- *. simpl.
      apply IH; [done| |lia]. intros g Hg. apply Hq. by right.
    + apply lookup_ge_None in Hi. rewrite drop_ge by lia. by rewrite emit_all_nil.
Qed.
End QuietPass.

Section DetachingPass.
Variable callf : fref → val → world → outcome val * world.
Hypothesis callf_detaching : ∀ f a w, detaching_fn w f →
  ∃ r w', callf f a w = (Done r, w') ∧ detached w w' ∧ trace w' = trace w.

(** A pass over subscribers that drop registrations: the functions
    called are taken, in order, from those registered when the pass
    reached them, and every function still registered at the end was
    called. *)
Lemma forEach_subscribers_detaching s m i w sg :
  sigs w !! s = Some sg →
  (∀ f, Some f ∈ drop i (subscribers sg) → detaching_fn w f) →
  length (subscribers sg) - i ≤ m →
  ∃ w' sg' called,
    forEach_subscribers callf m s i w = (Done (), w') ∧
    detached w w' ∧
    sigs w' !! s = Some sg' ∧
    trace w' = trace w ++ ((λ f, EvSubscriber s f (value sg)) <$> called) ∧
    called `sublist_of` live (drop i (subscribers sg)) ∧
    ∀ f, Some f ∈ drop i (subscribers sg') → f ∈ called.
Proof.
  revert i w sg. induction m as [|m IH]; intros i w sg Hs Hq Hm.
  - exists w, sg, []. simpl. rewrite Hs. rewrite lookup_ge_None_2 by lia.
    rewrite drop_ge by lia. simpl. rewrite app_nil_r.
    split; [done|]. split; [apply detached_refl|]. do 3 (split; [done|]).
    by intros f ?%elem_of_nil.
  - simpl. rewrite Hs. destruct (subscribers sg !! i) as [[f|]|] eqn:Hi.
    + rewrite (drop_S _ _ _ Hi) in Hq |- *.
      set (ev := EvSubscriber s f (value sg)).
      destruct (callf_detaching f (value sg) (emit ev w)) as (r & w1 & -> & Hd & Ht).
      { apply Hq. by left. }
      destruct (detached_lookup _ _ s sg Hd Hs) as (sg1 & Hs1 & Hv & _ & _ & Hle).
      destruct (IH (S i) w1 sg1) as (w' & sg' & called & -> & Hd' & Hs' & Ht' & Hsub & Hall).
      { done. }
      { intros g Hg. apply (detaching_fn_detached (emit ev w)); [done|].
        apply Hq. right. eapply entries_le_elem; [|exact Hg]. by apply entries_le_drop. }
      { apply Forall2_length in Hle. lia. }
      exists w', sg', (f :: called). split; [done|].
      split; [by eapply (detached_trans (emit ev w))|].
      split; [done|]. split.
      { rewrite Ht', Ht, Hv. simpl. by rewrite <- app_assoc. }
      split.
      { simpl. apply sublist_skip. etrans; [exact Hsub|].
        apply entries_le_live. by apply entries_le_drop. }
      intros g Hg.
      destruct (detached_lookup _ _ s sg1 Hd' Hs1) as (sg2 & Hs2 & _ & _ & _ & Hle').
      assert (sg2 = sg') as -> by congruence.
      assert (is_Some (subscribers sg' !! i)) as [e He].
      { apply lookup_lt_is_Some. apply Forall2_length in Hle, Hle'.
        apply lookup_lt_Some in Hi. lia. }
      rewrite (drop_S _ _ _ He) in Hg. apply elem_of_cons in Hg as [<-|Hg].
      * pose proof (entries_le_trans _ _ _ Hle Hle') as Hle2.
        eapply Forall2_lookup_lr in Hle2; [|exact Hi|exact He].
        destruct Hle2 as [Heq|Heq]; simplify_eq. by left.
      * right. by apply Hall.
    + rewrite (drop_S _ _ _ Hi) in Hq |- *.
      destruct (IH (S i) w sg) as (w' & sg' & called & -> & Hd' & Hs' & Ht' & Hsub & Hall).
      { done. }
      { intros g Hg. apply Hq. by right. }
      { lia. }
      exists w', sg', called. do 5 (split; [done|]).
      intros g Hg.
      destruct (detached_lookup _ _ s sg Hd' Hs) as (sg2 & Hs2 & _ & _ & _ & Hle').
      assert (sg2 = sg') as -> by congruence.
      assert (is_Some (subscribers sg' !! i)) as [e He].
      { apply lookup_lt_is_Some. apply Forall2_length in Hle'.
        apply lookup_lt_Some in Hi. lia. }
      rewrite (drop_S _ _ _ He) in Hg. apply elem_of_cons in Hg as [<-|Hg]; [|by apply Hall].
      eapply Forall2_lookup_lr in Hle'; [|exact Hi|exact He].
      destruct Hle' as [Heq|Heq]; simplify_eq.
    + exists w, sg, []. apply lookup_ge_None in Hi.
      rewrite drop_ge by lia. simpl. rewrite app_nil_r.
      split; [done|]. split; [apply detached_refl|]. do 3 (split; [done|]).
      by intros f ?%elem_of_nil.
Qed.
End DetachingPass.

(** ** Sets of subscribers *)

Lemma elem_of_live es f : f ∈ live es ↔ Some f ∈ es.
Proof.
  unfold live. rewrite list_elem_of_omap. split.
  - intros (x & Hx & Hf). simpl in Hf. by subst.
  - intros H. by exists (Some f).
Qed.

Lemma live_app es1 es2 : live (es1 ++ es2) = live es1 ++ live es2.
Proof. apply omap_app. Qed.

Lemma live_set_add_new f es : Some f ∉ es → live (set_add f es) = live es ++ [f].
Proof.
  intros H. unfold set_add. rewrite bool_decide_eq_false_2 by done. by rewrite live_app.
Qed.

Lemma set_add_old f es : Some f ∈ es → set_add f es = es.
Proof. intros H. unfold set_add. by rewrite bool_decide_eq_true_2. Qed.

Lemma live_set_delete f es : live (set_delete f es) = filter (λ g, g ≠ f) (live es).
Proof.
  unfold live, set_delete. induction es as [|[g|] es IH]; csimpl; [done| |done].
  rewrite filter_cons. destruct (decide (Some g = Some f)) as [Heq|Hne]; csimpl.
  - destruct (decide (g ≠ f)) as [Hn|_]; [congruence|done].
  - destruct (decide (g ≠ f)) as [_|Hn]; [by rewrite IH|].
    exfalso. apply Hn. congruence.
Qed.

Lemma set_add_NoDup f es : NoDup (live es) → NoDup (live (set_add f es)).
Proof.
  intros H. destruct (decide (Some f ∈ es)) as [Hin|Hin].
  - by rewrite set_add_old.
  - rewrite live_set_add_new by done. apply NoDup_app. split; [done|]. split.
    + intros g Hg ->%list_elem_of_singleton. by apply elem_of_live in Hg.
    + apply NoDup_singleton.
Qed.

Lemma set_delete_NoDup f es : NoDup (live es) → NoDup (live (set_delete f es)).
Proof. rewrite live_set_delete. apply NoDup_filter. Qed.

Lemma set_delete_absent f es : Some f ∉ es → set_delete f es = es.
Proof.
  intros H. unfold set_delete. induction es as [|e es IH]; csimpl; [done|].
  apply not_elem_of_cons in H as [H1 H2]. rewrite IH by done.
  destruct (decide (e = Some f)); congruence.
Qed.

Lemma set_delete_gone f es : Some f ∉ set_delete f es.
Proof.
  unfold set_delete. intros (e & He & _)%list_elem_of_fmap.
  destruct (decide (e = Some f)); congruence.
Qed.

(** ** A pass over quiet subscribers *)

Lemma set_quiet cs fuel w s sg v :
  sigs w !! s = Some sg →
  (∀ f, f ∈ live (subscribers sg) → quiet_fn w f) →
  length (subscribers sg) < fuel →
  set cs fuel s v w
  = (Done (),
     write_targets cs s
       (emit_all ((λ f, EvSubscriber s f v) <$> live (subscribers sg))
          (with_sigs (alter (store_value v) s) w))).
Proof.
  intros Hs Hq Hfuel. destruct fuel as [|n]; [lia|].
  set (w0 := with_sigs (alter (store_value v) s) w).
  assert (sigs w0 !! s = Some (store_value v sg)) as Hs0.
  { simpl. by rewrite list_lookup_alter_eq, Hs. }
  pose proof (forEach_subscribers_quiet (call cs (S n))
                (call_quiet cs n) s (S n) 0 w0 (store_value v sg) Hs0) as Hrun.
  rewrite drop_0 in Hrun. cbn [value subscribers store_value] in Hrun.
  unfold set, set_with. rewrite Hs. unfold notify_with. fold w0. rewrite Hrun; [done| |lia].
  intros f Hf. apply elem_of_live, Hq in Hf.
  destruct Hf as (body & Hb1 & Hb2). exists body. split; [done|].
  simpl. by rewrite length_alter.
Qed.

(** [update] with a function that only reads is [set] of its result. *)
Lemma update_quiet_fn cs n s f w sg :
  sigs w !! s = Some sg → quiet_fn w f →
  ∃ x, call cs (S n) f (value sg) (emit (EvUpdateFn s f (value sg)) w)
       = (Done x, emit (EvUpdateFn s f (value sg)) w) ∧
       update cs (S n) s f w = set cs (S n) s x (emit (EvUpdateFn s f (value sg)) w).
Proof.
  intros Hs Hq.
  destruct (call_quiet cs n f (value sg) (emit (EvUpdateFn s f (value sg)) w)) as [x Hx];
    [exact Hq|].
  exists x. split; [exact Hx|]. unfold update, update_with, set, set_with.
  rewrite Hs, Hx. simpl. by rewrite Hs.
Qed.

(** ** Unsubscribing during a pass *)

Lemma notify_detaching cs fuel w s sg :
  sigs w !! s = Some sg →
  NoDup (live (subscribers sg)) →
  (∀ f, f ∈ live (subscribers sg) → detaching_fn w f) →
  length (subscribers sg) < fuel →
  ∃ w' sg' called,
    notify cs fuel s w = (Done (), w') ∧
    sigs w' !! s = Some sg' ∧
    value sg' = value sg ∧
    entries_le (subscribers sg) (subscribers sg') ∧
    trace w' = trace w ++ ((λ f, EvSubscriber s f (value sg)) <$> called) ∧
    NoDup called ∧
    (∀ f, f ∈ called → f ∈ live (subscribers sg)) ∧
    (∀ f, f ∈ live (subscribers sg') → f ∈ called).
Proof.
  intros Hs Hnd Hq Hfuel. destruct fuel as [|n]; [lia|].
  destruct (forEach_subscribers_detaching (call cs (S n))
              (call_detaching cs n) s (S n) 0 w sg)
    as (w1 & sg' & called & Hrun & Hd & Hs1 & Ht & Hsub & Hall).
  { done. }
  { intros f Hf. rewrite drop_0 in Hf. by apply Hq, elem_of_live. }
  { lia. }
  rewrite drop_0 in Hsub, Hall.
  destruct (detached_lookup _ _ s _ Hd Hs) as (sg2 & Hs2 & Hv & _ & _ & Hle).
  assert (sg2 = sg') as -> by congruence.
  exists (write_targets cs s w1), sg', called.
  split. { unfold notify, notify_with. by rewrite Hrun. }
  rewrite write_targets_sigs, write_targets_trace.
  split; [done|]. split; [done|]. split; [done|]. split; [done|].
  split; [by eapply sublist_NoDup|].
  split; [|intros f Hf; by apply Hall, elem_of_live].
  intros f Hf. by eapply elem_of_sublist.
Qed.


(** ** No equality check *)


(** ** Unsubscribing *)

Lemma alter_idemp {A} (g : A → A) (i : nat) (l : list A) :
  (∀ x, g (g x) = g x) → alter g i (alter g i l) = alter g i l.
Proof.
  intros Hg. revert i. induction l as [|x l IH]; intros [|i]; simpl; [done..| |].
  - by rewrite Hg.
  - f_equal. apply IH.
Qed.

Lemma set_delete_idemp f es : set_delete f (set_delete f es) = set_delete f es.
Proof. apply set_delete_absent, set_delete_gone. Qed.

Lemma unsubscribe_idemp s f w : unsubscribe s f (unsubscribe s f w) = unsubscribe s f w.
Proof.
  unfold unsubscribe, with_sigs. simpl. f_equal. apply alter_idemp.
  intros sg. unfold with_subscribers. simpl. by rewrite set_delete_idemp.
Qed.

Lemma lookup_subscribe s f w sg :
  sigs w !! s = Some sg →
  sigs (subscribe s f w) !! s = Some (with_subscribers (set_add f) sg).
Proof. intros Hs. simpl. by rewrite list_lookup_alter_eq, Hs. Qed.

Lemma lookup_unsubscribe s f w sg :
  sigs w !! s = Some sg →
  sigs (unsubscribe s f w) !! s = Some (with_subscribers (set_delete f) sg).
Proof. intros Hs. simpl. by rewrite list_lookup_alter_eq, Hs. Qed.

(** C8. Calling the handle returned by [subscribe(fn)] removes exactly
    that registration.  Right after [subscribe] the function is
    registered; once the handle has been called it is not, the other
    registrations and their order are as before, and no other signal is
    touched; a second call of the handle changes nothing; and a [set]
    that follows invokes every other registered callback, in order, and
    does not invoke [fn]. *)
Theorem unsubscribe_removes_registration w s sg f :
  sigs w !! s = Some sg →
  (∃ sg1, sigs (subscribe s f w) !! s = Some sg1 ∧ f ∈ live (subscribers sg1)) ∧
  ∃ sg2,
    sigs (unsubscribe s f w) !! s = Some sg2 ∧
    value sg2 = value sg ∧
    live (subscribers sg2) = filter (λ g, g ≠ f) (live (subscribers sg)) ∧
    (f ∉ live (subscribers sg2)) ∧
    (∀ t, t ≠ s → sigs (unsubscribe s f w) !! t = sigs w !! t) ∧
    unsubscribe s f (unsubscribe s f w) = unsubscribe s f w ∧
    ∀ fuel v,
      (∀ g, g ∈ live (subscribers sg) → g ≠ f → quiet_fn w g) →
      length (subscribers sg) < fuel →
      ∃ w', set toggle_visible fuel s v (unsubscribe s f w) = (Done (), w') ∧
            trace w' = trace w ++
              ((λ g, EvSubscriber s g v) <$> filter (λ g, g ≠ f) (live (subscribers sg))).
Proof.
  intros Hs. split.
  { eexists. split; [by apply lookup_subscribe|]. simpl.
    apply elem_of_live. unfold set_add. case_bool_decide as Hin; [done|].
    apply elem_of_app. right. by apply list_elem_of_singleton. }
  eexists. split; [by apply lookup_unsubscribe|]. simpl.
  split; [done|]. split; [apply live_set_delete|].
  split; [rewrite elem_of_live; apply set_delete_gone|].
  split; [intros t Ht; by rewrite list_lookup_alter_ne|].
  split; [apply unsubscribe_idemp|].
  intros fuel v Hq Hfuel.
  eexists. split.
  { apply (set_quiet toggle_visible fuel (unsubscribe s f w) s
             (with_subscribers (set_delete f) sg) v).
    - by apply lookup_unsubscribe.
    - simpl. rewrite live_set_delete. intros g [Hne Hg]%list_elem_of_filter.
      destruct (Hq g Hg Hne) as (body & Hb1 & Hb2). exists body. split; [done|].
      simpl. by rewrite length_alter.
    - simpl. unfold set_delete. by rewrite length_fmap. }
  rewrite write_targets_trace. simpl. by rewrite live_set_delete.
Qed.

(** ** Exceptions *)

Lemma call_raising cs n f a e extra w :
  raising_fn w e f extra →
  call cs (S (S n)) f a w = (Raised e, emit_all extra w).
Proof.
  intros [f' body Hf Hb|f' signal computeFn body Hf Hc Hb].
  - change (call cs (S (S n)) f' a w)
      with (match fns w !! f' with
            | None => (Raised type_error, w)
            | Some (User body) => exec cs (call cs (S n)) (S n) (body a) w
            | Some (Recompute sg cf) =>
                match call cs (S n) cf VUndefined (emit (EvCompute cf) w) with
                | (Done x, w1) =>
                    match set_with cs (call cs (S n)) (S n) sg x w1 with
                    | (Done _, w2) => (Done VUndefined, w2)
                    | (Raised e, w2) => (Raised e, w2)
                    | (Exhausted, w2) => (Exhausted, w2)
                    end
                | (Raised e, w1) => (Raised e, w1)
                | (Exhausted, w1) => (Exhausted, w1)
                end
            end).
    rewrite Hf, emit_all_nil. by apply exec_raises.
  - change (call cs (S (S n)) f' a w)
      with (match fns w !! f' with
            | None => (Raised type_error, w)
            | Some (User body) => exec cs (call cs (S n)) (S n) (body a) w
            | Some (Recompute sg cf) =>
                match call cs (S n) cf VUndefined (emit (EvCompute cf) w) with
                | (Done x, w1) =>
                    match set_with cs (call cs (S n)) (S n) sg x w1 with
                    | (Done _, w2) => (Done VUndefined, w2)
                    | (Raised e, w2) => (Raised e, w2)
                    | (Exhausted, w2) => (Exhausted, w2)
                    end
                | (Raised e, w1) => (Raised e, w1)
                | (Exhausted, w1) => (Exhausted, w1)
                end
            end).
    rewrite Hf. simpl. rewrite Hc.
    rewrite (exec_raises cs (call cs n) n _ e (emit (EvCompute computeFn) w)); [done|].
    apply Hb.
Qed.

Section RaisingPass.
Variable callf : fref → val → world → outcome val * world.
Hypothesis callf_quiet : ∀ f a w, quiet_fn w f → ∃ r, callf f a w = (Done r, w).

(** The pass stops at the first subscriber that raises. *)
Lemma forEach_subscribers_raise s f e extra i m j w sg :
  sigs w !! s = Some sg →
  subscribers sg !! i = Some (Some f) →
  (∀ g, Some g ∈ take (i - j) (drop j (subscribers sg)) → quiet_fn w g) →
  (∀ w', fns w' = fns w → length (sigs w') = length (sigs w) →
         callf f (value sg) (emit (EvSubscriber s f (value sg)) w')
         = (Raised e, emit_all extra (emit (EvSubscriber s f (value sg)) w'))) →
  j ≤ i → i - j < m →
  forEach_subscribers callf m s j w
  = (Raised e,
     emit_all (((λ g, EvSubscriber s g (value sg))
                  <$> live (take (i - j) (drop j (subscribers sg))))
               ++ EvSubscriber s f (value sg) :: extra) w).
Proof.
  intros Hs Hi. revert j w Hs. induction m as [|m IH]; intros j w Hs Hq Hf Hj Hm; [lia|].
  simpl. rewrite Hs. destruct (decide (j = i)) as [->|Hne].
  - rewrite Hi, Hf, Nat.sub_diag by done. simpl. by rewrite emit_all_emit.
  - assert (is_Some (subscribers sg !! j)) as [entry Hentry].
    { apply lookup_lt_is_Some. apply lookup_lt_Some in Hi. lia. }
    rewrite Hentry. rewrite (drop_S _ _ _ Hentry) in Hq |- *.
    replace (i - j) with (S (i - S j)) in Hq |- * by lia. simpl in Hq |- *.
    destruct entry as [g|].
    + destruct (callf_quiet g (value sg) (emit (EvSubscriber s g (value sg)) w)) as [r ->].
      { apply Hq. by left. }
      rewrite (IH (S j) (emit (EvSubscriber s g (value sg)) w)); [|done| |exact Hf|lia|lia].
      * by rewrite emit_all_emit.
      * intros h Hh. apply Hq. by right.
    + apply IH; [done| |done|lia|lia]. intros h Hh. apply Hq. by right.
Qed.
End RaisingPass.

Lemma quiet_fn_frame w w' f :
  fns w' = fns w → length (sigs w') = length (sigs w) → quiet_fn w f → quiet_fn w' f.
Proof. intros H1 H2 (body & Hb1 & Hb2). exists body. by rewrite H1, H2. Qed.

Lemma raising_fn_frame w w' e f extra :
  fns w' = fns w → length (sigs w') = length (sigs w) →
  raising_fn w e f extra → raising_fn w' e f extra.
Proof.
  intros H1 H2 [f' body Hf Hb|f' signal computeFn body Hf Hc Hb].
  - eapply raising_user; [by rewrite H1|]. by rewrite H2.
  - eapply raising_recompute; [by rewrite H1|by rewrite H1|]. by rewrite H2.
Qed.

Lemma notify_raises fuel w s sg i f e extra :
  sigs w !! s = Some sg →
  subscribers sg !! i = Some (Some f) →
  (∀ g, Some g ∈ take i (subscribers sg) → quiet_fn w g) →
  raising_fn w e f extra →
  i + 1 < fuel →
  notify toggle_visible fuel s w
  = (Raised e,
     emit_all (((λ g, EvSubscriber s g (value sg)) <$> live (take (S i) (subscribers sg)))
               ++ extra) w).
Proof.
  intros Hs Hi Hq Hf Hfuel. destruct fuel as [|[|n]]; [lia..|].
  unfold notify, notify_with.
  rewrite (forEach_subscribers_raise (call toggle_visible (S (S n)))
             (call_quiet toggle_visible (S n)) s f e extra i (S (S n)) 0 w sg);
    [|done|done| | |lia|lia].
  - rewrite Nat.sub_0_r, drop_0. rewrite (take_S_r _ _ _ Hi), live_app, fmap_app.
    simpl. by rewrite <- app_assoc.
  - by rewrite Nat.sub_0_r, drop_0.
  - intros w' H1 H2. apply call_raising. eapply raising_fn_frame; [| |exact Hf]; done.
Qed.

(** C4. An exception raised by a subscriber, or by the [computeFn] of
    a computed signal's recomputation callback, is not caught: it comes
    out of the [set] or [update] call that triggered the pass.  The new
    value is stored and the subscribers registered before the raising
    one have been invoked, but no later subscriber is invoked and no
    display or visibility target is written. *)
Theorem exception_aborts_notification fuel w s sg i f e extra :
  sigs w !! s = Some sg →
  subscribers sg !! i = Some (Some f) →
  (∀ g, Some g ∈ take i (subscribers sg) → quiet_fn w g) →
  raising_fn w e f extra →
  i + 1 < fuel →
  (∀ v, ∃ w',
     set toggle_visible fuel s v w = (Raised e, w') ∧
     get s w' = Some v ∧
     doc w' = doc w ∧
     trace w' = trace w ++
       ((λ g, EvSubscriber s g v) <$> live (take (S i) (subscribers sg))) ++ extra) ∧
  (∀ fn, quiet_fn w fn → ∃ x w',
     update toggle_visible fuel s fn w = (Raised e, w') ∧
     get s w' = Some x ∧
     doc w' = doc w ∧
     trace w' = trace w ++ EvUpdateFn s fn (value sg) ::
       ((λ g, EvSubscriber s g x) <$> live (take (S i) (subscribers sg))) ++ extra).
Proof.
  intros Hs Hi Hq Hf Hfuel. split.
  - intros v. eexists. split.
    { unfold set, set_with. rewrite Hs.
      apply (notify_raises fuel _ s (store_value v sg) i f e extra); try done.
      - simpl. by rewrite list_lookup_alter_eq, Hs.
      - intros g Hg. eapply quiet_fn_frame; [| |by apply Hq]; [done|].
        simpl. by rewrite length_alter.
      - eapply raising_fn_frame; [| |exact Hf]; [done|]. simpl. by rewrite length_alter. }
    simpl. unfold get. simpl. rewrite list_lookup_alter_eq, Hs. done.
  - intros fn Hfn. destruct fuel as [|n]; [lia|].
    destruct (call_quiet toggle_visible n fn (value sg)
                (emit (EvUpdateFn s fn (value sg)) w)) as [x Hx]; [exact Hfn|].
    exists x. eexists. split.
    { unfold update, update_with. rewrite Hs, Hx.
      apply (notify_raises (S n) _ s (store_value x sg) i f e extra); try done.
      - simpl. by rewrite list_lookup_alter_eq, Hs.
      - intros g Hg. eapply quiet_fn_frame; [| |by apply Hq]; [done|].
        simpl. by rewrite length_alter.
      - eapply raising_fn_frame; [| |exact Hf]; [done|]. simpl. by rewrite length_alter. }
    simpl. unfold get. simpl. rewrite list_lookup_alter_eq, Hs.
    split; [done|]. split; [done|]. by rewrite <- app_assoc.
Qed.

(** C9. When the function passed to [update] raises, [update] hands the
    exception on and does nothing itself: the world it leaves is the
    one the function's own run left.  For a function that only reads
    and throws, [get] returns the same value as before, no subscriber
    is invoked, and no target is written; the only trace entry is the
    call of the function. *)
Theorem update_aborts_when_fn_raises fuel w s sg f e :
  sigs w !! s = Some sg →
  (∀ w1, call toggle_visible fuel f (value sg) (emit (EvUpdateFn s f (value sg)) w)
         = (Raised e, w1) →
         update toggle_visible fuel s f w = (Raised e, w1)) ∧
  (∀ body, fns w !! f = Some (User body) →
     raises (length (sigs w)) e (body (value sg)) →
     0 < fuel →
     ∃ w', update toggle_visible fuel s f w = (Raised e, w') ∧
           get s w' = get s w ∧
           sigs w' = sigs w ∧
           doc w' = doc w ∧
           trace w' = trace w ++ [EvUpdateFn s f (value sg)]).
Proof.
  intros Hs. split.
  - intros w1 Hc. unfold update, update_with. by rewrite Hs, Hc.
  - intros body Hf Hb Hfuel. destruct fuel as [|n]; [lia|].
    exists (emit (EvUpdateFn s f (value sg)) w). split; [|done].
    unfold update, update_with. rewrite Hs. simpl. rewrite Hf.
    by rewrite (exec_raises toggle_visible (call toggle_visible n) n _ e).
Qed.

(** ** What every run keeps *)

Lemma permitted_any p : permitted (λ _, True) (λ _ _, True) (λ _ _, True) p.
Proof. induction p; constructor; auto. Qed.

Lemma code_permitted_any w :
  code_permitted (λ _, True) (λ _, True) (λ _ _, True) (λ _ _, True) w.
Proof. intros f [body|sg cf] _; simpl; auto using permitted_any. Qed.

Section Shape.
Variable cs : bool → list string → list string.

Lemma same_shape_refl w : same_shape w w.
Proof. done. Qed.

Lemma same_shape_trans w1 w2 w3 : same_shape w1 w2 → same_shape w2 w3 → same_shape w1 w3.
Proof. intros [? ?] [? ?]. split; congruence. Qed.

Lemma same_shape_write_targets t w : same_shape w (write_targets cs t w).
Proof. split; [apply write_targets_fns|by rewrite write_targets_sigs]. Qed.

Lemma same_shape_alter g t w : same_shape w (with_sigs (alter g t) w).
Proof. split; [done|]. simpl. apply length_alter. Qed.

Lemma call_same_shape n f a w : same_shape w (call cs n f a w).2.
Proof.
  apply (call_frame cs same_shape (λ _, True) (λ _, True) (λ _ _, True) (λ _ _, True));
    auto using same_shape_refl, same_shape_trans, same_shape_write_targets,
      same_shape_alter, code_permitted_any.
  all: try done; try (by intros ?? [? ?]); intros;
    first [apply same_shape_alter | apply same_shape_write_targets
          | apply code_permitted_any | eapply same_shape_trans; eassumption].
Qed.

Lemma set_same_shape n t v w : same_shape w (set cs n t v w).2.
Proof.
  apply (set_frame cs same_shape (λ _, True) (λ _, True) (λ _ _, True) (λ _ _, True));
    auto using same_shape_refl, same_shape_trans, same_shape_write_targets,
      same_shape_alter, code_permitted_any.
  all: try done; try (by intros ?? [? ?]); intros;
    first [apply same_shape_alter | apply same_shape_write_targets
          | apply code_permitted_any | eapply same_shape_trans; eassumption].
Qed.

Lemma update_same_shape n t f w : same_shape w (update cs n t f w).2.
Proof.
  apply (update_frame cs same_shape (λ _, True) (λ _, True) (λ _ _, True) (λ _ _, True));
    auto using same_shape_refl, same_shape_trans, same_shape_write_targets,
      same_shape_alter, code_permitted_any.
  all: try done; try (by intros ?? [? ?]); intros;
    first [apply same_shape_alter | apply same_shape_write_targets
          | apply code_permitted_any | eapply same_shape_trans; eassumption].
Qed.

Lemma step_call_same_shape n c w : plain_call c → same_shape w (step_call cs n c w).
Proof.
  destruct c; simpl; try done; intros _;
    auto using set_same_shape, update_same_shape, same_shape_alter.
  - apply same_shape_alter.
  - apply same_shape_alter.
Qed.

Lemma run_calls_same_shape n cl w : Forall plain_call cl → same_shape w (run_calls cs n cl w).
Proof.
  unfold run_calls. intros H. revert w. induction H as [|c cl Hc _ IH]; intros w; simpl.
  - apply same_shape_refl.
  - eapply same_shape_trans; [by apply step_call_same_shape|apply IH].
Qed.
End Shape.

(** ** Code that never writes a signal leaves its value alone *)

Section KeepsValue.
Variable cs : bool → list string → list string.
Variable s : sref.

Lemma keeps_value_store t v w : t ≠ s → keeps_value s w (with_sigs (alter (store_value v) t) w).
Proof. intros Ht. split; [done|]. unfold get. simpl. by rewrite list_lookup_alter_ne. Qed.

Lemma keeps_value_subscribers g t w :
  keeps_value s w (with_sigs (alter (with_subscribers g) t) w).
Proof.
  split; [done|]. unfold get. simpl. destruct (decide (t = s)) as [->|Hne].
  - rewrite list_lookup_alter_eq. by destruct (sigs w !! s).
  - by rewrite list_lookup_alter_ne.
Qed.

Lemma keeps_value_write_targets t w : keeps_value s w (write_targets cs t w).
Proof. split; [apply write_targets_fns|]. unfold get. by rewrite write_targets_sigs. Qed.

Lemma notify_keeps_value n w :
  never_writes s w → keeps_value s w (notify cs n s w).2.
Proof.
  intros Hnw. unfold notify, notify_with.
  assert (∀ m i w, never_writes s w →
            keeps_value s w (forEach_subscribers (call cs n) m s i w).2) as Hloop.
  { clear w Hnw. induction m as [|m IH]; intros i w Hnw; simpl.
    - destruct (sigs w !! s) as [sg|]; [|done]. by destruct (subscribers sg !! i).
    - destruct (sigs w !! s) as [sg|]; [|done].
      destruct (subscribers sg !! i) as [[f|]|]; [|by apply IH|done].
      pose proof (call_frame cs (keeps_value s) (λ t, t ≠ s) (λ t, t ≠ s)
                    (λ _ _, True) (λ _ _, True)) as Hcall.
      specialize (Hcall ltac:(done)
                    ltac:(by intros ??? [? ?] [? ?]; split; congruence)
                    ltac:(by intros ?? [? ?])
                    ltac:(done) ltac:(done) ltac:(done)
                    ltac:(intros; by apply keeps_value_store)
                    ltac:(intros; apply keeps_value_write_targets)
                    ltac:(intros; apply keeps_value_subscribers)
                    ltac:(intros; apply keeps_value_subscribers)
                    ltac:(done)
                    n f (value sg) (emit (EvSubscriber s f (value sg)) w) Hnw).
      destruct (call cs n f (value sg) _) as [[?| ?|] w1]; simpl in *; try done.
      destruct Hcall as [H1 H2].
      assert (never_writes s w1) as Hnw1.
      { intros g d. rewrite H1. apply Hnw. }
      destruct (IH (S i) w1 Hnw1) as [H3 H4].
      split; unfold get in *; simpl in *; congruence. }
  specialize (Hloop n 0 w Hnw).
  destruct (forEach_subscribers (call cs n) n s 0 w) as [[?| ?|] w1]; simpl in *; try done.
  destruct Hloop as [H1 H2]. split; [by rewrite write_targets_fns|].
  unfold get in *. by rewrite write_targets_sigs.
Qed.
End KeepsValue.

Lemma run_calls_snoc cs n cl c w :
  run_calls cs n (cl ++ [c]) w = step_call cs n c (run_calls cs n cl w).
Proof. unfold run_calls. by rewrite foldl_snoc. Qed.

Lemma never_writes_shape s w w' : same_shape w w' → never_writes s w → never_writes s w'.
Proof. intros [H _] Hnw f d. rewrite H. apply Hnw. Qed.

Lemma set_stores_value cs n s v w :
  is_Some (get s w) → never_writes s w → get s (set cs n s v w).2 = Some v.
Proof.
  intros [x Hx] Hnw. unfold get in Hx. unfold set, set_with.
  destruct (sigs w !! s) as [sg|] eqn:Hs; [|done].
  destruct (notify_keeps_value cs s n (with_sigs (alter (store_value v) s) w)) as [_ H];
    [exact Hnw|].
  unfold notify in H. rewrite H. unfold get. simpl. by rewrite list_lookup_alter_eq, Hs.
Qed.

Lemma update_stores_result cs n s f w prev x w1 :
  get s w = Some prev → never_writes s w →
  call cs n f prev (emit (EvUpdateFn s f prev) w) = (Done x, w1) →
  get s (update cs n s f w).2 = Some x.
Proof.
  intros Hprev Hnw Hcall. unfold get in Hprev. unfold update, update_with.
  destruct (sigs w !! s) as [sg|] eqn:Hs; [|done]. simpl in Hprev. simplify_eq.
  rewrite Hcall.
  pose proof (call_same_shape cs n f (value sg) (emit (EvUpdateFn s f (value sg)) w)) as Hsh.
  rewrite Hcall in Hsh. simpl in Hsh.
  assert (is_Some (sigs w1 !! s)) as [sg1 Hs1].
  { apply lookup_lt_is_Some. destruct Hsh as [_ ->]. simpl. by eapply lookup_lt_Some. }
  destruct (notify_keeps_value cs s n (with_sigs (alter (store_value x) s) w1)) as [_ H].
  { apply (never_writes_shape s (emit (EvUpdateFn s f (value sg)) w)); [|done].
    eapply same_shape_trans; [exact Hsh|]. apply same_shape_alter. }
  unfold notify in H. rewrite H. unfold get. simpl. by rewrite list_lookup_alter_eq, Hs1.
Qed.

(** C1, as amended.  On a signal that no subscriber callback writes
    (no caller function calls [set] or [update] on it), after any
    sequence of calls [get()] returns the value written by the last
    one: after [set(v)] it returns [v], however the notification pass
    ends, and after [update(fn)] it returns what [fn] returned when
    applied to the value held just before that call. *)
Theorem get_returns_last_write fuel w s pre :
  is_Some (get s w) →
  never_writes s w →
  Forall plain_call pre →
  (∀ v, get s (run_calls toggle_visible fuel (pre ++ [CallSet s v]) w) = Some v) ∧
  (∀ f prev x w1,
     get s (run_calls toggle_visible fuel pre w) = Some prev →
     call toggle_visible fuel f prev
       (emit (EvUpdateFn s f prev) (run_calls toggle_visible fuel pre w)) = (Done x, w1) →
     get s (run_calls toggle_visible fuel (pre ++ [CallUpdate s f]) w) = Some x).
Proof.
  intros [x0 Hx0] Hnw Hpre.
  pose proof (run_calls_same_shape toggle_visible fuel pre w Hpre) as Hsh.
  pose proof (never_writes_shape s _ _ Hsh Hnw) as Hnw'.
  assert (is_Some (get s (run_calls toggle_visible fuel pre w))) as Hsome.
  { unfold get in *. apply fmap_is_Some, lookup_lt_is_Some. destruct Hsh as [_ ->].
    destruct (sigs w !! s) eqn:E; [|done]. by eapply lookup_lt_Some. }
  split.
  - intros v. rewrite run_calls_snoc. simpl. by apply set_stores_value.
  - intros f prev x w1 Hprev Hcall. rewrite run_calls_snoc. simpl.
    by eapply update_stores_result.
Qed.

(** C1 as stated fails: a subscriber that writes the signal it is
    subscribed to leaves its own value behind.  The callback
    [v => { if (v) count.set(0); }] is registered on [count]; the call
    [count.set(5)] returns normally and [get()] then returns [0], not
    [5]. *)
Lemma get_after_set_reentrant :
  ∃ w', set toggle_visible 3 0 (VNum 5) reentrant_world = (Done (), w') ∧
        get 0 w' = Some (VNum 0) ∧
        get 0 w' ≠ Some (VNum 5).
Proof.
  exists (set toggle_visible 3 0 (VNum 5) reentrant_world).2.
  split; [vm_compute; reflexivity|]. split; [vm_compute; reflexivity|].
  vm_compute. discriminate.
Qed.

(** ** Creating a computed signal *)

Lemma pure_run_ext (P : sref → Prop) sgs sgs' p :
  reader P p →
  (∀ s, P s → value <$> sgs !! s = value <$> sgs' !! s) →
  pure_run sgs p = pure_run sgs' p.
Proof.
  intros Hp Heq. induction Hp as [v|s k Hs Hk IH]; simpl; [done|].
  specialize (Heq s Hs).
  destruct (sgs !! s) as [sg|], (sgs' !! s) as [sg'|]; simplify_eq/=; [|done].
  rewrite Heq. apply IH.
Qed.

Lemma exec_reader cs callf m (P : sref → Prop) p w :
  reader P p → (∀ s, P s → s < length (sigs w)) →
  ∃ x, pure_run (sigs w) p = Done x ∧ exec cs callf m p w = (Done x, w).
Proof.
  intros Hp HP. induction Hp as [v|s k Hs Hk IH]; simpl; [by eauto|].
  destruct (lookup_lt_is_Some_2 (sigs w) s (HP s Hs)) as [sg ->]. apply IH.
Qed.

Lemma dep_closures_range d base deps k :
  k ∈ dep_closures d base deps → base ≤ k < base + length deps.
Proof.
  revert base. induction deps as [|d' rest IH]; intros base; simpl.
  - by intros ?%elem_of_nil.
  - intros [Hk|Hk]%elem_of_app.
    + destruct (decide (d' = d)); [|by apply elem_of_nil in Hk].
      apply list_elem_of_singleton in Hk. lia.
    + apply IH in Hk. lia.
Qed.

Lemma dep_closures_length d base deps :
  length (dep_closures d base deps) = length (filter (λ d', d' = d) deps).
Proof.
  revert base. induction deps as [|d' rest IH]; intros base; simpl; [done|].
  rewrite length_app, IH, filter_cons. by destruct (decide (d' = d)).
Qed.

Lemma dep_closures_absent d base deps : d ∉ deps → dep_closures d base deps = [].
Proof.
  revert base. induction deps as [|d' rest IH]; intros base Hd; simpl; [done|].
  apply not_elem_of_cons in Hd as [Hne Hd]. rewrite IH by done.
  by destruct (decide (d' = d)).
Qed.

Lemma dep_closures_NoDup d base deps : NoDup (dep_closures d base deps).
Proof.
  revert base. induction deps as [|d' rest IH]; intros base; simpl; [constructor|].
  destruct (decide (d' = d)); simpl; [|apply IH]. constructor; [|apply IH].
  intros Hk%dep_closures_range. lia.
Qed.

Lemma with_subscribers_compose f g sg :
  with_subscribers f (with_subscribers g sg) = with_subscribers (f ∘ g) sg.
Proof. done. Qed.

Lemma subscribe_dependencies_done ci cf deps w :
  entries_in_range w →
  Forall (λ d, d < length (sigs w)) deps →
  ∃ w', subscribe_dependencies ci cf deps w = (Done (), w') ∧
    fns w' = fns w ++ replicate (length deps) (Recompute ci cf) ∧
    doc w' = doc w ∧ trace w' = trace w ∧
    length (sigs w') = length (sigs w) ∧
    ∀ d sg, sigs w !! d = Some sg →
      sigs w' !! d
      = Some (with_subscribers
                (λ es, es ++ (Some <$> dep_closures d (length (fns w)) deps)) sg).
Proof.
  intros Hr Hd. remember (length (sigs w)) as n eqn:Hn. revert w Hr Hn.
  induction Hd as [|dep rest Hdep _ IH]; intros w Hr Hn; simpl; subst n.
  - exists w. rewrite app_nil_r. do 5 (split; [done|]).
    intros d sg Hs. rewrite Hs. f_equal. destruct sg. unfold with_subscribers. simpl.
    by rewrite app_nil_r.
  - destruct (lookup_lt_is_Some_2 _ _ Hdep) as [sgd Hsgd]. rewrite Hsgd.
    set (K := length (fns w)).
    set (w1 := {| sigs := sigs w; fns := fns w ++ [Recompute ci cf];
                  doc := doc w; trace := trace w |}).
    assert (Some K ∉ subscribers sgd) as Hfresh.
    { intros Hin. apply (Hr dep sgd K Hsgd) in Hin. unfold K in Hin. lia. }
    assert (sigs (subscribe dep K w1) !! dep
            = Some (with_subscribers (λ es, es ++ [Some K]) sgd)) as Hdep'.
    { simpl. rewrite list_lookup_alter_eq, Hsgd. simpl. f_equal.
      unfold with_subscribers, set_add. simpl.
      by rewrite bool_decide_eq_false_2. }
    destruct (IH (subscribe dep K w1)) as (w' & Hrun & Hfns & Hdoc & Htr & Hlen & Hsigs).
    { intros s sg f Hs Hf. simpl. rewrite length_app. simpl.
      destruct (decide (s = dep)) as [->|Hne].
      - rewrite Hdep' in Hs. simplify_eq/=.
        apply elem_of_app in Hf as [Hf|Hf].
        + apply (Hr dep sgd f Hsgd) in Hf. lia.
        + apply list_elem_of_singleton in Hf. simplify_eq. unfold K. lia.
      - simpl in Hs. rewrite list_lookup_alter_ne in Hs by done.
        apply (Hr s sg f Hs) in Hf. lia. }
    { simpl. by rewrite length_alter. }
    exists w'. split; [exact Hrun|].
    split. { rewrite Hfns. simpl. by rewrite <- app_assoc. }
    split; [by rewrite Hdoc|]. split; [by rewrite Htr|].
    split; [exact Hlen|].
    intros d sg Hs. destruct (decide (dep = d)) as [->|Hne].
    + assert (sg = sgd) as -> by congruence.
      rewrite (Hsigs _ _ Hdep'). f_equal. unfold with_subscribers. simpl. f_equal.
      rewrite length_app, Nat.add_1_r. fold K. by rewrite <- app_assoc.
    + rewrite (Hsigs d sg).
      * f_equal. unfold with_subscribers. simpl. f_equal.
        by rewrite length_app, Nat.add_1_r.
      * simpl. by rewrite list_lookup_alter_ne.
Qed.

Lemma call_user cs n f a w body :
  fns w !! f = Some (User body) →
  call cs (S n) f a w = exec cs (call cs n) n (body a) w.
Proof. intros H. simpl. by rewrite H. Qed.

Lemma call_recompute cs n f a w signal computeFn :
  fns w !! f = Some (Recompute signal computeFn) →
  call cs (S n) f a w
  = match call cs n computeFn VUndefined (emit (EvCompute computeFn) w) with
    | (Done x, w1) =>
        match set_with cs (call cs n) n signal x w1 with
        | (Done _, w2) => (Done VUndefined, w2)
        | (Raised e, w2) => (Raised e, w2)
        | (Exhausted, w2) => (Exhausted, w2)
        end
    | (Raised e, w1) => (Raised e, w1)
    | (Exhausted, w1) => (Exhausted, w1)
    end.
Proof. intros H. simpl. by rewrite H. Qed.

Lemma createComputed_done cs fuel name cf deps w body :
  entries_in_range w →
  Forall (λ d, d < length (sigs w)) deps →
  fns w !! cf = Some (User body) →
  reader (λ s, s < length (sigs w)) (body VUndefined) →
  0 < fuel →
  ∃ x w',
    createComputed cs fuel name cf deps w = (Done (length (sigs w)), w') ∧
    pure_run (sigs w) (body VUndefined) = Done x ∧
    fns w' = fns w ++ replicate (length deps) (Recompute (length (sigs w)) cf) ∧
    trace w' = trace w ++ [EvCompute cf] ∧
    length (sigs w') = S (length (sigs w)) ∧
    (∃ sgc, sigs w' !! length (sigs w) = Some sgc ∧ value sgc = x ∧
            subscribers sgc = []) ∧
    ∀ d sg, sigs w !! d = Some sg →
      sigs w' !! d
      = Some (with_subscribers
                (λ es, es ++ (Some <$> dep_closures d (length (fns w)) deps)) sg).
Proof.
  intros Hr Hd Hcf Hb Hfuel. destruct fuel as [|n]; [lia|].
  unfold createComputed.
  rewrite (call_user cs n cf VUndefined (emit (EvCompute cf) w) body Hcf).
  destruct (exec_reader cs (call cs n) n _ (body VUndefined) (emit (EvCompute cf) w) Hb)
    as (x & Hx & ->); [done|].
  rewrite createSignal_done. cbv beta iota zeta.
  change (sigs (emit (EvCompute cf) w)) with (sigs w).
  change (doc (emit (EvCompute cf) w)) with (doc w).
  set (sg := {| value := x; subscribers := [];
                readers := querySelectorAll attr_read name (doc w);
                checkers := querySelectorAll attr_checker name (doc w) |}).
  set (ci := length (sigs w)).
  set (w2 := write_targets cs ci (with_sigs (λ l, l ++ [sg]) (emit (EvCompute cf) w))).
  assert (sigs w2 = sigs w ++ [sg]) as Hsigs2 by (unfold w2; by rewrite write_targets_sigs).
  assert (fns w2 = fns w) as Hfns2 by (unfold w2; by rewrite write_targets_fns).
  assert (trace w2 = trace w ++ [EvCompute cf]) as Htr2
    by (unfold w2; by rewrite write_targets_trace).
  destruct (subscribe_dependencies_done ci cf deps w2)
    as (w' & -> & Hfns & _ & Htr & Hlen & Hsigs).
  { intros s s0 f Hs Hf. rewrite Hfns2. rewrite Hsigs2 in Hs.
    apply lookup_app_Some in Hs as [Hs|[_ Hs]]; [by eapply Hr|].
    destruct (s - length (sigs w)); simplify_eq/=. by apply elem_of_nil in Hf. }
  { rewrite Hsigs2, length_app. simpl. eapply Forall_impl; [exact Hd|]. simpl. lia. }
  exists x, w'. split; [done|]. split; [done|].
  split; [by rewrite Hfns, Hfns2|]. split; [by rewrite Htr|].
  split; [rewrite Hlen, Hsigs2, length_app; simpl; lia|].
  split.
  - eexists. split.
    + apply Hsigs. rewrite Hsigs2. by apply list_lookup_middle.
    + simpl. split; [done|]. rewrite dep_closures_absent; [done|].
      intros Hin. eapply Forall_forall in Hd; [|exact Hin]. unfold ci in Hd. lia.
  - intros d sg0 Hs. rewrite (Hsigs d sg0); [by rewrite Hfns2|].
    rewrite Hsigs2. by apply lookup_app_l_Some.
Qed.

(** ** A computed signal stays current *)

Section ClosuresKept.
Variable cs : bool → list string → list string.
Variable F : list fdef.
Variable ci : sref.
Variable cf : fref.

Lemma closures_kept_refl w : closures_kept F ci cf w w.
Proof. split; [done|]. split; [done|]. intros _ d sg j k Hs Hj _. eauto. Qed.

Lemma closures_kept_trans w1 w2 w3 :
  closures_kept F ci cf w1 w2 → closures_kept F ci cf w2 w3 → closures_kept F ci cf w1 w3.
Proof.
  intros (Hf1 & Hl1 & H1) (Hf2 & Hl2 & H2). split; [congruence|]. split; [congruence|].
  intros HF d sg j k Hs Hj Hk.
  destruct (H1 HF d sg j k Hs Hj Hk) as (sg' & Hs' & Hj').
  apply (H2 ltac:(congruence) d sg' j k Hs' Hj' Hk).
Qed.

Lemma closures_kept_alter g t w :
  (∀ sg j k, subscribers sg !! j = Some (Some k) → F !! k = Some (Recompute ci cf) →
             subscribers (g sg) !! j = Some (Some k)) →
  closures_kept F ci cf w (with_sigs (alter g t) w).
Proof.
  intros Hg. split; [done|]. split; [apply length_alter|].
  intros _ d sg j k Hs Hj Hk. simpl. destruct (decide (t = d)) as [->|Hne].
  - rewrite list_lookup_alter_eq, Hs. simpl. eauto.
  - rewrite list_lookup_alter_ne by done. eauto.
Qed.

Lemma closures_kept_write_targets t w : closures_kept F ci cf w (write_targets cs t w).
Proof.
  split; [apply write_targets_fns|]. rewrite write_targets_sigs. split; [done|].
  intros _ d sg j k Hs Hj _. eauto.
Qed.

Lemma closures_kept_emit e w : closures_kept F ci cf w (emit e w).
Proof. split; [done|]. split; [done|]. intros _ d sg j k Hs Hj _. eauto. Qed.

Lemma closures_kept_store t v w :
  closures_kept F ci cf w (with_sigs (alter (store_value v) t) w).
Proof. apply closures_kept_alter. auto. Qed.

Lemma closures_kept_subscribe t f w : closures_kept F ci cf w (subscribe t f w).
Proof.
  apply closures_kept_alter. intros sg j k Hj _. simpl. unfold set_add.
  case_bool_decide; [done|]. by apply lookup_app_l_Some.
Qed.

Lemma closures_kept_unsubscribe t f w :
  F !! f ≠ Some (Recompute ci cf) → closures_kept F ci cf w (unsubscribe t f w).
Proof.
  intros Hf. apply closures_kept_alter. intros sg j k Hj Hk. simpl.
  unfold set_delete. rewrite list_lookup_fmap, Hj. simpl.
  destruct (decide (Some k = Some f)); [|done]. congruence.
Qed.

Lemma call_closures_kept n f a w :
  code_permitted (λ _, True) (λ t, t ≠ ci) (λ _ _, True)
    (λ _ f, F !! f ≠ Some (Recompute ci cf)) w →
  closures_kept F ci cf w (call cs n f a w).2.
Proof.
  apply (call_frame cs (closures_kept F ci cf) (λ _, True) (λ t, t ≠ ci) (λ _ _, True)
           (λ _ f, F !! f ≠ Some (Recompute ci cf)));
    auto using closures_kept_refl, closures_kept_emit, closures_kept_store,
      closures_kept_write_targets, closures_kept_subscribe, closures_kept_unsubscribe.
  - apply closures_kept_trans.
  - by intros ?? (? & _).
Qed.
End ClosuresKept.

Section ComputedCurrent.
Variable cs : bool → list string → list string.
Variable ci : sref.
Variable cf : fref.
Variable deps : list sref.

#[local] Abbreviation Good := (computed_sealed ci cf deps).
#[local] Abbreviation Inv := (computed_current ci cf).

Lemma sealed_kept w w' : Good w → closures_kept (fns w) ci cf w w' → Good w'.
Proof.
  intros [H1 H2 H3 H4 H5 H6] (Hf & Hl & Hk). split; rewrite ?Hf, ?Hl; try done.
  - intros d Hd. destruct (H4 d Hd) as (sg & k & Hs & Hin & Hfk).
    apply list_elem_of_lookup in Hin as [j Hj].
    destruct (Hk eq_refl d sg j k Hs Hj Hfk) as (sg' & Hs' & Hj').
    exists sg', k. split; [done|]. split; [|done]. by eapply list_elem_of_lookup_2.
  - intros f d. rewrite Hf. apply H5.
Qed.

Lemma current_frame w w' :
  fns w' = fns w →
  (∀ s, s = ci ∨ s ∈ deps → value <$> sigs w' !! s = value <$> sigs w !! s) →
  Good w → Inv w → Inv w'.
Proof.
  intros Hf Hv HG (body & r & Hb & Hr & Hg).
  exists body, r. rewrite Hf. split; [done|]. split.
  - rewrite <- Hr. destruct (sealed_computeFn _ _ _ _ HG) as (body' & Hb' & Hrd).
    assert (body' = body) as -> by congruence.
    eapply pure_run_ext; [apply Hrd|]. intros s [Hs _]. apply Hv. by right.
  - unfold get in *. rewrite <- Hg. apply Hv. by left.
Qed.

Lemma pending_end t i w sg :
  sigs w !! t = Some sg → subscribers sg !! i = None → ¬ pending ci cf deps t i w.
Proof.
  intros Hs Hi (_ & sg' & j & k & Hs' & Hj & Hk & _).
  assert (sg' = sg) as -> by congruence.
  apply lookup_ge_None in Hi. apply lookup_lt_Some in Hk. lia.
Qed.

Lemma sealed_store t v w : Good w → Good (with_sigs (alter (store_value v) t) w).
Proof. intros HG. eapply sealed_kept; [exact HG|apply closures_kept_store]. Qed.

Lemma sealed_write_targets t w : Good w → Good (write_targets cs t w).
Proof. intros HG. eapply sealed_kept; [exact HG|apply closures_kept_write_targets]. Qed.

Lemma current_write_targets t w : Inv w → Inv (write_targets cs t w).
Proof.
  intros (body & r & Hb & Hr & Hg). exists body, r.
  unfold get in *. by rewrite write_targets_fns, write_targets_sigs.
Qed.

(** Writing a signal that [computeFn] does not read. *)
Lemma current_store_other t v w :
  t ≠ ci → t ∉ deps → Good w → Inv w → Inv (with_sigs (alter (store_value v) t) w).
Proof.
  intros Hci Hd HG HI. apply (current_frame w); [done| |exact HG|exact HI].
  intros s Hs. simpl. rewrite list_lookup_alter_ne; [done|].
  intros ->. destruct Hs; done.
Qed.

(** Writing the fresh result of [computeFn] into the computed signal. *)
Lemma current_store_result x w body :
  Good w → fns w !! cf = Some (User body) →
  pure_run (sigs w) (body VUndefined) = Done x →
  Inv (with_sigs (alter (store_value x) ci) w).
Proof.
  intros HG Hb Hx. exists body, x. split; [done|]. split.
  - rewrite <- Hx. destruct (sealed_computeFn _ _ _ _ HG) as (body' & Hb' & Hrd).
    assert (body' = body) as -> by congruence.
    eapply pure_run_ext; [apply Hrd|]. intros s [Hs _]. simpl.
    rewrite list_lookup_alter_ne; [done|]. intros <-. by apply (sealed_not_dep _ _ _ _ HG).
  - unfold get. simpl. rewrite list_lookup_alter_eq.
    destruct (lookup_lt_is_Some_2 _ _ (sealed_signal _ _ _ _ HG)) as [sg ->]. done.
Qed.

Lemma current_subscribers g t w :
  Good w → Inv w → Inv (with_sigs (alter (with_subscribers g) t) w).
Proof.
  intros HG HI. apply (current_frame w); [done| |exact HG|exact HI].
  intros s _. simpl. destruct (decide (t = s)) as [->|Hne].
  - rewrite list_lookup_alter_eq. by destruct (sigs w !! s).
  - by rewrite list_lookup_alter_ne.
Qed.

Lemma pending_store t v w : Good w → t ∈ deps →
  pending ci cf deps t 0 (with_sigs (alter (store_value v) t) w).
Proof.
  intros HG Ht. split; [done|].
  destruct (sealed_registered _ _ _ _ HG t Ht) as (sg & k & Hs & Hin & Hfk).
  apply list_elem_of_lookup in Hin as [j Hj].
  exists (store_value v sg), j, k. simpl. rewrite list_lookup_alter_eq, Hs.
  split; [done|]. split; [lia|]. done.
Qed.

Section CurrentCalls.
Variable callf : fref → val → world → outcome val * world.
Hypothesis callf_kept : ∀ f a w, Good w → closures_kept (fns w) ci cf w (callf f a w).2.
Hypothesis callf_current : ∀ f a w r w',
  Good w → Inv w → callf f a w = (Done r, w') → Inv w'.
Hypothesis callf_closure : ∀ k a w r w',
  Good w → fns w !! k = Some (Recompute ci cf) → callf k a w = (Done r, w') → Inv w'.

Lemma forEach_subscribers_current m t i w w' :
  Good w → Inv w ∨ pending ci cf deps t i w →
  forEach_subscribers callf m t i w = (Done (), w') →
  Good w' ∧ Inv w' ∧ fns w' = fns w.
Proof.
  revert i w. induction m as [|m IH]; intros i w HG HI; simpl.
  - destruct (sigs w !! t) as [sg|] eqn:Hs; [|done].
    destruct (subscribers sg !! i) eqn:Hi; [done|]. intros [= <-]. split; [done|].
    split; [|done]. destruct HI as [HI|Hp]; [done|]. exfalso. by eapply pending_end.
  - destruct (sigs w !! t) as [sg|] eqn:Hs; [|done].
    destruct (subscribers sg !! i) as [[f|]|] eqn:Hi.
    + set (w0 := emit (EvSubscriber t f (value sg)) w).
      assert (Good w0) as HG0 by (eapply sealed_kept; [exact HG|apply closures_kept_emit]).
      pose proof (callf_kept f (value sg) w0 HG0) as HR.
      destruct (callf f (value sg) w0) as [[r| ?|] w1] eqn:Hc; try done. simpl in HR.
      assert (Good w1) as HG1 by (eapply sealed_kept; [exact HG0|exact HR]).
      intros Hrun.
      destruct (IH (S i) w1 HG1) with (2 := Hrun) as (HG' & HI' & Hf').
      { destruct HI as [HI|(Ht & sg' & j & k & Hs' & Hj & Hk & Hfk)].
        * left. eapply callf_current; [exact HG0|exact HI|exact Hc].
        * assert (sg' = sg) as -> by congruence. destruct (decide (j = i)) as [->|Hne].
          -- left. assert (f = k) as -> by congruence.
             eapply callf_closure; [exact HG0|exact Hfk|exact Hc].
          -- right. split; [done|]. destruct HR as (Hf1 & Hl1 & Hkeep).
             destruct (Hkeep eq_refl t sg j k Hs Hk Hfk) as (sg1 & Hs1 & Hj1).
             exists sg1, j, k. split; [done|]. split; [lia|]. split; [done|].
             rewrite Hf1. exact Hfk. }
      split; [done|]. split; [done|]. rewrite Hf'. by destruct HR as (-> & _).
    + intros Hrun. apply (IH (S i) w HG); [|done].
      destruct HI as [HI|(Ht & sg' & j & k & Hs' & Hj & Hk & Hfk)]; [by left|].
      assert (sg' = sg) as -> by congruence. right. split; [done|].
      exists sg, j, k. split; [done|]. split; [|done].
      destruct (decide (j = i)) as [->|Hne]; [congruence|lia].
    + intros [= <-]. split; [done|]. split; [|done].
      destruct HI as [HI|Hp]; [done|]. exfalso. by eapply pending_end.
Qed.

Lemma notify_with_current m t w w' :
  Good w → Inv w ∨ pending ci cf deps t 0 w →
  notify_with cs callf m t w = (Done (), w') →
  Good w' ∧ Inv w' ∧ fns w' = fns w.
Proof.
  intros HG HI (w1 & Hrun & ->)%notify_with_done.
  destruct (forEach_subscribers_current m t 0 w w1 HG HI Hrun) as (HG1 & HI1 & Hf1).
  split; [by apply sealed_write_targets|]. split; [by apply current_write_targets|].
  by rewrite write_targets_fns.
Qed.

Lemma set_with_current m t v w w' :
  Good w → t ≠ ci → Inv w ∨ t ∈ deps →
  set_with cs callf m t v w = (Done (), w') →
  Good w' ∧ Inv w' ∧ fns w' = fns w.
Proof.
  intros HG Hci HI. unfold set_with. destruct (sigs w !! t) as [sg|] eqn:Hs; [|done].
  intros Hrun.
  apply (notify_with_current m t (with_sigs (alter (store_value v) t) w) w');
    [by apply sealed_store| |exact Hrun].
  destruct (decide (t ∈ deps)) as [Ht|Ht].
  - right. by apply pending_store.
  - left. destruct HI as [HI|HI]; [|done]. by apply current_store_other.
Qed.

Lemma set_with_result m x w w' body :
  Good w → fns w !! cf = Some (User body) →
  pure_run (sigs w) (body VUndefined) = Done x →
  set_with cs callf m ci x w = (Done (), w') →
  Good w' ∧ Inv w' ∧ fns w' = fns w.
Proof.
  intros HG Hb Hx. unfold set_with. destruct (sigs w !! ci) as [sg|] eqn:Hs; [|done].
  intros Hrun.
  apply (notify_with_current m ci (with_sigs (alter (store_value x) ci) w) w');
    [by apply sealed_store| |exact Hrun].
  left. by eapply current_store_result.
Qed.

Lemma update_with_current m t f w w' :
  Good w → t ≠ ci → Inv w ∨ t ∈ deps →
  update_with cs callf m t f w = (Done (), w') →
  Good w' ∧ Inv w' ∧ fns w' = fns w.
Proof.
  intros HG Hci HI. unfold update_with. destruct (sigs w !! t) as [sg|] eqn:Hs; [|done].
  set (w0 := emit (EvUpdateFn t f (value sg)) w).
  assert (Good w0) as HG0 by (eapply sealed_kept; [exact HG|apply closures_kept_emit]).
  pose proof (callf_kept f (value sg) w0 HG0) as HR.
  destruct (callf f (value sg) w0) as [[x| ?|] w1] eqn:Hc; try done. simpl in HR.
  assert (Good w1) as HG1 by (eapply sealed_kept; [exact HG0|exact HR]).
  intros Hrun.
  destruct (notify_with_current m t (with_sigs (alter (store_value x) t) w1) w')
    with (3 := Hrun) as (HG' & HI' & Hf').
  { by apply sealed_store. }
  { destruct (decide (t ∈ deps)) as [Ht|Ht].
    - right. by apply pending_store.
    - left. destruct HI as [HI|HI]; [|done]. apply current_store_other; try done.
      eapply callf_current; [exact HG0|exact HI|exact Hc]. }
  split; [done|]. split; [done|]. rewrite Hf'. simpl. by destruct HR as (-> & _).
Qed.

Lemma exec_current F m p w r w' :
  permitted (λ t, t ≠ ci) (λ _ _, True) (λ _ f, F !! f ≠ Some (Recompute ci cf)) p →
  fns w = F → Good w → Inv w →
  exec cs callf m p w = (Done r, w') →
  Good w' ∧ Inv w' ∧ fns w' = fns w.
Proof.
  intros Hp. revert w.
  induction Hp as [v|e|s k Hk IH|s v k Hs Hk IH|s f k Hs Hk IH|s f k Hs Hk IH
                  |s f k Hs Hk IH]; intros w HF HG HI; simpl.
  - by intros [= _ <-].
  - done.
  - destruct (sigs w !! s) as [sg|]; [|done]. by apply IH.
  - destruct (set_with cs callf m s v w) as [[[]| ?|] w1] eqn:E; try done.
    destruct (set_with_current m s v w w1 HG Hs (or_introl HI) E) as (HG1 & HI1 & Hf1).
    intros Hrun. destruct (IH w1) with (4 := Hrun) as (HG' & HI' & Hf'); [congruence|done..|].
    split; [done|]. split; [done|]. congruence.
  - destruct (update_with cs callf m s f w) as [[[]| ?|] w1] eqn:E; try done.
    destruct (update_with_current m s f w w1 HG Hs (or_introl HI) E) as (HG1 & HI1 & Hf1).
    intros Hrun. destruct (IH w1) with (4 := Hrun) as (HG' & HI' & Hf'); [congruence|done..|].
    split; [done|]. split; [done|]. congruence.
  - destruct (sigs w !! s) as [sg|]; [|done].
    apply (IH (subscribe s f w)); [done| |by apply current_subscribers].
    eapply sealed_kept; [exact HG|apply closures_kept_subscribe].
  - apply (IH (unsubscribe s f w)); [done| |by apply current_subscribers].
    eapply sealed_kept; [exact HG|apply closures_kept_unsubscribe]. by subst F.
Qed.
End CurrentCalls.

Lemma call_kept_sealed n f a w :
  Good w → closures_kept (fns w) ci cf w (call cs n f a w).2.
Proof. intros HG. apply call_closures_kept, (sealed_code _ _ _ _ HG). Qed.

Lemma call_current n :
  (∀ f a w r w', Good w → Inv w → call cs n f a w = (Done r, w') → Inv w') ∧
  (∀ k a w r w', Good w → fns w !! k = Some (Recompute ci cf) →
                 call cs n k a w = (Done r, w') → Inv w').
Proof.
  induction n as [|n [IHa IHb]]; [by split|].
  assert (∀ k a w r w', Good w → fns w !! k = Some (Recompute ci cf) →
                        call cs (S n) k a w = (Done r, w') → Inv w') as Hclosure.
  { intros k a w r w' HG Hk. rewrite (call_recompute _ _ _ _ _ _ _ Hk).
    destruct (sealed_computeFn _ _ _ _ HG) as (body & Hb & Hrd).
    destruct n as [|n']; [done|].
    rewrite (call_user cs n' cf VUndefined (emit (EvCompute cf) w) body Hb).
    destruct (exec_reader cs (call cs n') n' _ (body VUndefined)
                (emit (EvCompute cf) w) (Hrd VUndefined)) as (x & Hx & ->).
    { by intros s [_ Hs]. }
    destruct (set_with cs (call cs (S n')) (S n') ci x (emit (EvCompute cf) w))
      as [[[]| ?|] w2] eqn:E; try done.
    intros [= _ <-].
    eapply (set_with_result (call cs (S n')) (call_kept_sealed (S n')) IHa IHb) in E
      as (_ & HI & _); [exact HI| |exact Hb|exact Hx].
    eapply sealed_kept; [exact HG|apply closures_kept_emit]. }
  split; [|exact Hclosure].
  intros f a w r w' HG HI. destruct (fns w !! f) as [[body|ci' cf']|] eqn:Hf.
  - rewrite (call_user _ _ _ _ _ _ Hf). intros Hrun.
    eapply (exec_current (call cs n) (call_kept_sealed n) IHa IHb (fns w)) in Hrun
      as (_ & HI' & _); [exact HI'| |done..].
    apply (sealed_code _ _ _ _ HG f (User body) Hf a).
  - destruct (decide (ci' = ci)) as [->|Hne].
    + pose proof (sealed_closures _ _ _ _ HG f cf' Hf) as ->. by apply Hclosure.
    + rewrite (call_recompute _ _ _ _ _ _ _ Hf).
      set (w0 := emit (EvCompute cf') w).
      assert (Good w0) as HG0 by (eapply sealed_kept; [exact HG|apply closures_kept_emit]).
      pose proof (call_kept_sealed n cf' VUndefined w0 HG0) as HR.
      destruct (call cs n cf' VUndefined w0) as [[x| ?|] w1] eqn:Hc; try done.
      simpl in HR.
      assert (Good w1) as HG1 by (eapply sealed_kept; [exact HG0|exact HR]).
      assert (Inv w1) as HI1 by (eapply IHa; [exact HG0|exact HI|exact Hc]).
      destruct (set_with cs (call cs n) n ci' x w1) as [[[]| ?|] w2] eqn:E; try done.
      intros [= _ <-].
      eapply (set_with_current (call cs n) (call_kept_sealed n) IHa IHb) in E
        as (_ & HI' & _); [exact HI'|done|done|by left].
  - simpl. by rewrite Hf.
Qed.

Lemma set_current n t v w w' :
  Good w → t ≠ ci → Inv w ∨ t ∈ deps →
  set cs n t v w = (Done (), w') → Good w' ∧ Inv w'.
Proof.
  intros HG Hci HI Hrun. destruct (call_current n) as [IHa IHb].
  eapply (set_with_current (call cs n) (call_kept_sealed n) IHa IHb) in Hrun
    as (? & ? & _); done.
Qed.

Lemma update_current n t f w w' :
  Good w → t ≠ ci → Inv w ∨ t ∈ deps →
  update cs n t f w = (Done (), w') → Good w' ∧ Inv w'.
Proof.
  intros HG Hci HI Hrun. destruct (call_current n) as [IHa IHb].
  eapply (update_with_current (call cs n) (call_kept_sealed n) IHa IHb) in Hrun
    as (? & ? & _); done.
Qed.
End ComputedCurrent.

Lemma permitted_impl (S1 S2 : sref → Prop) (B1 B2 U1 U2 : sref → fref → Prop) p :
  (∀ t, S1 t → S2 t) → (∀ t f, B1 t f → B2 t f) → (∀ t f, U1 t f → U2 t f) →
  permitted S1 B1 U1 p → permitted S2 B2 U2 p.
Proof. intros HS HB HU. induction 1; constructor; auto. Qed.

Lemma reader_impl (P Q : sref → Prop) p : (∀ s, P s → Q s) → reader P p → reader Q p.
Proof. intros HPQ. induction 1; constructor; auto. Qed.

Lemma dep_closures_elem d base deps : d ∈ deps → ∃ k, k ∈ dep_closures d base deps.
Proof.
  revert base. induction deps as [|d' rest IH]; intros base Hd; simpl.
  - by apply elem_of_nil in Hd.
  - destruct (decide (d' = d)) as [->|Hne].
    + exists base. apply elem_of_app. left. by apply list_elem_of_singleton.
    + apply elem_of_cons in Hd as [->|Hd]; [done|].
      destruct (IH (S base) Hd) as [k Hk]. exists k. apply elem_of_app. by right.
Qed.

Lemma createComputed_sealed cs fuel name cf deps w body :
  closed_world w →
  Forall (λ d, d < length (sigs w)) deps →
  fns w !! cf = Some (User body) →
  (∀ v, reader (λ s, s ∈ deps) (body v)) →
  0 < fuel →
  ∃ w', createComputed cs fuel name cf deps w = (Done (length (sigs w)), w') ∧
        computed_sealed (length (sigs w)) cf deps w' ∧
        computed_current (length (sigs w)) cf w'.
Proof.
  intros [Hr Hcode] Hd Hcf Hb Hfuel.
  assert (∀ v, reader (λ s, s < length (sigs w)) (body v)) as Hb'.
  { intros v. eapply reader_impl; [|apply Hb]. intros s Hs. simpl.
    by eapply Forall_forall in Hd. }
  destruct (createComputed_done cs fuel name cf deps w body Hr Hd Hcf (Hb' VUndefined) Hfuel)
    as (x & w' & Hrun & Hx & Hfns & Htr & Hlen & (sgc & Hsgc & Hv & Hsub) & Hsigs).
  set (ci := length (sigs w)) in *.
  assert (∀ k ci' cf', fns w !! k = Some (Recompute ci' cf') → ci' < ci) as Hold.
  { intros k ci' cf' Hk. apply (Hcode k _ Hk). }
  assert (∀ s, s < ci → value <$> sigs w' !! s = value <$> sigs w !! s) as Hval.
  { intros s Hs. destruct (lookup_lt_is_Some_2 (sigs w) s Hs) as [sg Hsg].
    by rewrite (Hsigs s sg Hsg), Hsg. }
  exists w'. split; [done|]. split; [split|].
  - exists body. split; [rewrite Hfns; by apply lookup_app_l_Some|].
    intros v. eapply reader_impl; [|apply Hb]. intros s Hs. simpl. split; [done|].
    rewrite Hlen. eapply Forall_forall in Hd; [|exact Hs]. simpl in Hd. lia.
  - rewrite Hlen. lia.
  - intros Hin. eapply Forall_forall in Hd; [|exact Hin]. simpl in Hd. unfold ci in Hd. lia.
  - intros d Hin. pose proof Hin as Hlt. eapply Forall_forall in Hlt; [|exact Hd].
    simpl in Hlt. destruct (lookup_lt_is_Some_2 (sigs w) d Hlt) as [sg Hsg].
    destruct (dep_closures_elem d (length (fns w)) deps Hin) as [k Hk].
    eexists _, k. split; [by apply Hsigs|]. split.
    + simpl. apply elem_of_app. right. by apply list_elem_of_fmap_2.
    + apply dep_closures_range in Hk. rewrite Hfns, lookup_app_r by lia.
      apply lookup_replicate_2. lia.
  - intros f d. rewrite Hfns. intros [Hf|[Hge Hf]]%lookup_app_Some.
    + specialize (Hcode f d Hf). destruct d as [b|ci' cf']; simpl in *; [|done].
      intros v. eapply permitted_impl; [| | |apply Hcode]; simpl; [lia|done|].
      intros _ g Hg Habs. rewrite lookup_app_l in Habs by done.
      apply Hold in Habs. lia.
    + apply lookup_replicate in Hf as [-> _]. done.
  - intros k cf'. rewrite Hfns. intros [Hf|[Hge Hf]]%lookup_app_Some.
    + apply Hold in Hf. lia.
    + apply lookup_replicate in Hf as [Hf _]. congruence.
  - exists body, x. split; [rewrite Hfns; by apply lookup_app_l_Some|]. split.
    + rewrite <- Hx. eapply pure_run_ext; [apply (Hb' VUndefined)|].
      intros s Hs. by apply Hval.
    + unfold get. by rewrite Hsgc, <- Hv.
Qed.

(** ** Counting recomputations *)

Lemma tally_nil p : tally p [] = 0.
Proof. done. Qed.

Lemma tally_app p t1 t2 : tally p (t1 ++ t2) = tally p t1 + tally p t2.
Proof. unfold tally. by rewrite filter_app, length_app. Qed.

Lemma tally_cons p e t : tally p (e :: t) = (if p e then 1 else 0) + tally p t.
Proof.
  unfold tally. rewrite filter_cons. destruct (p e) eqn:E.
  - by rewrite decide_True.
  - by rewrite decide_False.
Qed.

Lemma tally_compute_fired cf s v l :
  tally (is_compute cf) ((λ g, EvSubscriber s g v) <$> l) = 0.
Proof. induction l as [|g l IH]; [done|]. csimpl. by rewrite tally_cons, IH. Qed.

Lemma tally_fired_other ci g s v l :
  s ≠ ci → tally (is_fired ci g) ((λ f, EvSubscriber s f v) <$> l) = 0.
Proof.
  intros Hne. induction l as [|f l IH]; [done|]. csimpl. rewrite tally_cons, IH. simpl.
  rewrite bool_decide_eq_false_2; [done|]. by intros [? _].
Qed.

Lemma tally_fired_absent ci g v l :
  g ∉ l → tally (is_fired ci g) ((λ f, EvSubscriber ci f v) <$> l) = 0.
Proof.
  induction l as [|f l IH]; intros Hg; [done|]. csimpl.
  apply not_elem_of_cons in Hg as [Hne Hg]. rewrite tally_cons, IH by done. simpl.
  rewrite bool_decide_eq_false_2; [done|]. intros [_ ?]. congruence.
Qed.

Lemma tally_fired_once ci g v l :
  NoDup l → g ∈ l → tally (is_fired ci g) ((λ f, EvSubscriber ci f v) <$> l) = 1.
Proof.
  induction 1 as [|f l Hf Hnd IH]; intros Hg; [by apply elem_of_nil in Hg|]. csimpl.
  rewrite tally_cons. simpl. apply elem_of_cons in Hg as [->|Hg].
  - rewrite bool_decide_eq_true_2 by done. by rewrite tally_fired_absent.
  - rewrite bool_decide_eq_false_2, IH; [done..|]. intros [_ ->]. done.
Qed.

Section Tame.
Variable cs : bool → list string → list string.
Variable ci : sref.
Variable cf : fref.

Lemma revalued_refl w : revalued ci w w.
Proof. done. Qed.

Lemma revalued_trans w1 w2 w3 : revalued ci w1 w2 → revalued ci w2 w3 → revalued ci w1 w3.
Proof.
  intros (?&?&Ha&?) (?&?&Hb&?). repeat split; try congruence.
  intros s Hs. by rewrite Hb, Ha.
Qed.

Lemma revalued_emit_all es w : revalued ci w (emit_all es w).
Proof. done. Qed.

Lemma revalued_write_targets t w : revalued ci w (write_targets cs t w).
Proof.
  unfold revalued. by rewrite write_targets_fns, write_targets_sigs.
Qed.

Lemma revalued_store x w :
  revalued ci w (with_sigs (alter (store_value x) ci) w).
Proof.
  split; [done|]. split; [apply length_alter|]. split.
  - intros s Hs. simpl. by rewrite list_lookup_alter_ne.
  - simpl. rewrite list_lookup_alter_eq. by destruct (sigs w !! ci).
Qed.

Lemma quiet_fn_revalued w w' f : revalued ci w w' → quiet_fn w f → quiet_fn w' f.
Proof. intros (H1 & H2 & _). by apply quiet_fn_frame. Qed.

Lemma revalued_lookup_ci w w' sgc :
  revalued ci w w' → sigs w !! ci = Some sgc →
  ∃ sgc', sigs w' !! ci = Some sgc' ∧ subscribers sgc' = subscribers sgc.
Proof.
  intros (_ & _ & _ & H) Hs. rewrite Hs in H. simpl in H.
  destruct (sigs w' !! ci) as [sgc'|]; simplify_eq/=. eauto.
Qed.

Lemma tame_revalued w w' : tame ci cf w → revalued ci w w' → tame ci cf w'.
Proof.
  intros [H1 (sgc & Hs & Hnd & Hq) H3] Hr. split.
  - by eapply quiet_fn_revalued.
  - destruct (revalued_lookup_ci w w' sgc Hr Hs) as (sgc' & Hs' & Hsub).
    exists sgc'. rewrite Hsub. split; [done|]. split; [done|].
    intros g Hg. eapply quiet_fn_revalued; eauto.
  - intros d sg f Hd Hsg Hf. destruct Hr as (Hf1 & Hl & Ho & Hc) eqn:E.
    rewrite Ho in Hsg by done. rewrite Hf1.
    destruct (H3 d sg f Hd Hsg Hf) as [Hqf|Hcl]; [left|by right].
    eapply quiet_fn_revalued; eauto.
Qed.

Lemma is_closure_revalued w w' f :
  revalued ci w w' → is_closure w' ci cf f = is_closure w ci cf f.
Proof. intros (H & _). unfold is_closure. by rewrite H. Qed.

Lemma filter_closure_revalued w w' (l : list fref) :
  revalued ci w w' →
  filter (λ f, is_closure w' ci cf f = true) l = filter (λ f, is_closure w ci cf f = true) l.
Proof.
  intros Hr. induction l as [|f l IH]; [done|].
  rewrite !filter_cons, IH, (is_closure_revalued w w' f Hr). done.
Qed.

Lemma is_closure_quiet w f : quiet_fn w f → is_closure w ci cf f = false.
Proof. intros (body & Hb & _). unfold is_closure. by rewrite Hb. Qed.

Lemma is_closure_recompute w f :
  fns w !! f = Some (Recompute ci cf) → is_closure w ci cf f = true.
Proof. intros Hf. unfold is_closure. rewrite Hf. by apply bool_decide_eq_true_2. Qed.

(** One call of a closure: [computeFn] runs once, the computed signal
    gets the result, and each of its subscribers is invoked once. *)
Lemma call_closure_tame n k a w sgc :
  tame ci cf w →
  fns w !! k = Some (Recompute ci cf) →
  sigs w !! ci = Some sgc →
  length (subscribers sgc) ≤ n →
  ∃ x w',
    call cs (S (S n)) k a w = (Done VUndefined, w') ∧
    revalued ci w w' ∧
    trace w' = trace w ++
      EvCompute cf :: ((λ g, EvSubscriber ci g x) <$> live (subscribers sgc)).
Proof.
  intros [Hcf (sgc' & Hs' & Hnd & Hq) _] Hk Hs Hlen.
  assert (sgc' = sgc) as -> by congruence.
  rewrite (call_recompute _ _ _ _ _ _ _ Hk).
  destruct (call_quiet cs n cf VUndefined (emit (EvCompute cf) w)) as [x ->]; [exact Hcf|].
  change (set_with cs (call cs (S n)) (S n) ci x (emit (EvCompute cf) w))
    with (set cs (S n) ci x (emit (EvCompute cf) w)).
  rewrite (set_quiet cs (S n) (emit (EvCompute cf) w) ci sgc x); [|done|done|lia].
  eexists x, _. split; [done|]. split.
  - eapply revalued_trans; [|apply revalued_write_targets].
    eapply revalued_trans; [|apply revalued_emit_all].
    apply (revalued_store x (emit (EvCompute cf) w)).
  - rewrite write_targets_trace. simpl. by rewrite <- app_assoc.
Qed.

Lemma forEach_subscribers_step callf m s i w sg :
  sigs w !! s = Some sg →
  forEach_subscribers callf (S m) s i w
  = match subscribers sg !! i with
    | None => (Done (), w)
    | Some None => forEach_subscribers callf m s (S i) w
    | Some (Some f) =>
        match callf f (value sg) (emit (EvSubscriber s f (value sg)) w) with
        | (Done _, w1) => forEach_subscribers callf m s (S i) w1
        | (Raised e, w1) => (Raised e, w1)
        | (Exhausted, w1) => (Exhausted, w1)
        end
    end.
Proof. intros Hs. simpl. rewrite Hs. by destruct (subscribers sg !! i) as [[?|]|]. Qed.

(** A pass over a signal whose subscribers are quiet functions and
    closures of the computed signal. *)
Lemma forEach_subscribers_tame n d m i w sg sgc :
  tame ci cf w → d ≠ ci →
  sigs w !! d = Some sg → sigs w !! ci = Some sgc →
  length (subscribers sgc) ≤ n →
  length (subscribers sg) - i ≤ m →
  ∃ w' new,
    forEach_subscribers (call cs (S (S n))) m d i w = (Done (), w') ∧
    revalued ci w w' ∧
    trace w' = trace w ++ new ∧
    tally (is_compute cf) new
    = length (filter (λ f, is_closure w ci cf f = true) (live (drop i (subscribers sg)))) ∧
    ∀ g, g ∈ live (subscribers sgc) →
      tally (is_fired ci g) new
      = length (filter (λ f, is_closure w ci cf f = true) (live (drop i (subscribers sg)))).
Proof.
  revert i w sgc. induction m as [|m IH]; intros i w sgc Ht Hd Hs Hc Hn Hm.
  - exists w, []. simpl. rewrite Hs. rewrite lookup_ge_None_2 by lia.
    rewrite drop_ge by lia. rewrite app_nil_r. done.
  - rewrite (forEach_subscribers_step _ _ _ _ _ _ Hs).
    destruct (subscribers sg !! i) as [[f|]|] eqn:Hi.
    + rewrite (drop_S _ _ _ Hi). set (ev := EvSubscriber d f (value sg)).
      assert (f ∈ live (subscribers sg)) as Hf.
      { apply elem_of_live. by eapply list_elem_of_lookup_2. }
      destruct (tame_others _ _ _ Ht d sg f Hd Hs Hf) as [Hq|Hcl].
      * destruct (call_quiet cs (S n) f (value sg) (emit ev w)) as [r Hr]; [exact Hq|].
        rewrite Hr.
        destruct (IH (S i) (emit ev w) sgc) as (w' & new & -> & Hrv & Htr & Hc1 & Hc2);
          [by apply (tame_revalued w)|done..|lia|].
        exists w', (ev :: new). split; [done|]. split; [done|].
        split; [rewrite Htr; simpl; by rewrite <- app_assoc|].
        change (live (Some f :: drop (S i) (subscribers sg)))
          with (f :: live (drop (S i) (subscribers sg))).
        rewrite filter_cons, (is_closure_quiet w f Hq), decide_False by done.
        split.
        -- rewrite tally_cons. simpl. exact Hc1.
        -- intros g Hg. rewrite tally_cons. simpl.
           rewrite bool_decide_eq_false_2 by (by intros [? _]). by apply Hc2.
      * destruct (call_closure_tame n f (value sg) (emit ev w) sgc)
          as (x & w1 & Hr & Hrv1 & Htr1); [by apply (tame_revalued w)|done..|].
        rewrite Hr.
        destruct (revalued_lookup_ci _ _ sgc Hrv1 Hc) as (sgc1 & Hc1' & Hsub1).
        destruct (IH (S i) w1 sgc1) as (w' & new & -> & Hrv & Htr & Hc1 & Hc2).
        { apply (tame_revalued w); [done|]. by apply (revalued_trans _ (emit ev w)). }
        { done. }
        { destruct Hrv1 as (_ & _ & Ho & _). by rewrite Ho. }
        { done. }
        { by rewrite Hsub1. }
        { lia. }
        exists w', (ev :: EvCompute cf
                       :: ((λ g, EvSubscriber ci g x) <$> live (subscribers sgc)) ++ new).
        split; [done|]. split; [by eapply (revalued_trans (emit ev w))|].
        split. { rewrite Htr, Htr1. simpl. rewrite <- !app_assoc. done. }
        change (live (Some f :: drop (S i) (subscribers sg)))
          with (f :: live (drop (S i) (subscribers sg))).
        rewrite filter_cons, (is_closure_recompute w f Hcl), decide_True by done.
        rewrite (filter_closure_revalued (emit ev w) w1) in Hc1, Hc2 by done.
        destruct (tame_signal _ _ _ Ht) as (sgc0 & Hs0 & Hnd & _).
        assert (sgc0 = sgc) as -> by congruence.
        split.
        -- rewrite !tally_cons, tally_app, tally_compute_fired. simpl.
           rewrite bool_decide_eq_true_2 by done. rewrite Hc1. done.
        -- intros g Hg. rewrite !tally_cons, tally_app. simpl.
           rewrite bool_decide_eq_false_2 by (by intros [? _]).
           rewrite tally_fired_once by done. rewrite Hc2; [done|]. by rewrite Hsub1.
    + rewrite (drop_S _ _ _ Hi).
      destruct (IH (S i) w sgc) as (w' & new & -> & Hrv & Htr & Hc1 & Hc2); [done..|lia|].
      exists w', new. done.
    + exists w, []. apply lookup_ge_None in Hi.
      rewrite drop_ge by lia. rewrite app_nil_r. done.
Qed.
End Tame.

Section TameSet.
Variable cs : bool → list string → list string.
Variable ci : sref.
Variable cf : fref.

Lemma same_subscribers_trans w1 w2 w3 :
  same_subscribers w1 w2 → same_subscribers w2 w3 → same_subscribers w1 w3.
Proof.
  intros (?&?&Ha) (?&?&Hb). split; [congruence|]. split; [congruence|].
  intros s. by rewrite Hb, Ha.
Qed.

Lemma revalued_same_subscribers w w' : revalued ci w w' → same_subscribers w w'.
Proof.
  intros (H1 & H2 & H3 & H4). split; [done|]. split; [done|]. intros s.
  destruct (decide (s = ci)) as [->|Hne]; [done|by rewrite H3].
Qed.

Lemma same_subscribers_store t v w :
  same_subscribers w (with_sigs (alter (store_value v) t) w).
Proof.
  split; [done|]. split; [apply length_alter|]. intros s. simpl.
  destruct (decide (t = s)) as [->|Hne].
  - rewrite list_lookup_alter_eq. by destruct (sigs w !! s).
  - by rewrite list_lookup_alter_ne.
Qed.

Lemma same_subscribers_lookup w w' s sg :
  same_subscribers w w' → sigs w !! s = Some sg →
  ∃ sg', sigs w' !! s = Some sg' ∧ subscribers sg' = subscribers sg.
Proof.
  intros (_ & _ & H) Hs. specialize (H s). rewrite Hs in H. simpl in H.
  destruct (sigs w' !! s) as [sg'|]; simplify_eq/=. eauto.
Qed.

Lemma same_subscribers_sym w w' : same_subscribers w w' → same_subscribers w' w.
Proof. intros (?&?&H). split; [congruence|]. split; [congruence|]. intros s. by rewrite H. Qed.

Lemma tame_same_subscribers w w' :
  tame ci cf w → same_subscribers w w' → tame ci cf w'.
Proof.
  intros [H1 (sgc & Hs & Hnd & Hq) H3] Hr. pose proof Hr as (Hf & Hl & Hsub).
  assert (∀ f, quiet_fn w f → quiet_fn w' f) as Hqf.
  { intros f. by apply quiet_fn_frame. }
  split; [by apply Hqf| |].
  - destruct (same_subscribers_lookup w w' ci sgc Hr Hs) as (sgc' & Hs' & Hsc).
    exists sgc'. rewrite Hsc. eauto.
  - intros d sg' f Hd Hsg' Hin.
    destruct (same_subscribers_lookup w' w d sg' (same_subscribers_sym _ _ Hr) Hsg')
      as (sg & Hsg & Hsc).
    rewrite <- Hsc in Hin. rewrite Hf.
    destruct (H3 d sg f Hd Hsg Hin) as [?|?]; auto.
Qed.

Lemma closures_on_same_subscribers w w' d :
  same_subscribers w w' → closures_on w' ci cf d = closures_on w ci cf d.
Proof.
  intros (Hf & Hl & Hsub). unfold closures_on. specialize (Hsub d).
  assert (∀ l : list fref,
            filter (λ f, is_closure w' ci cf f = true) l
            = filter (λ f, is_closure w ci cf f = true) l) as Hfl.
  { intros l. induction l as [|f l IH]; [done|]. rewrite !filter_cons, IH.
    unfold is_closure. by rewrite Hf. }
  destruct (sigs w' !! d) as [sg'|], (sigs w !! d) as [sg|]; simplify_eq/=; [|done].
  by rewrite Hfl, Hsub.
Qed.

(** A [set] on a signal of a tame world. *)
Lemma set_tame fuel d v w sg sgc :
  tame ci cf w → d ≠ ci →
  sigs w !! d = Some sg → sigs w !! ci = Some sgc →
  length (subscribers sg) < fuel → length (subscribers sgc) + 1 < fuel →
  ∃ w' new,
    set cs fuel d v w = (Done (), w') ∧
    trace w' = trace w ++ new ∧
    tally (is_compute cf) new = closures_on w ci cf d ∧
    (∀ g, g ∈ live (subscribers sgc) → tally (is_fired ci g) new = closures_on w ci cf d) ∧
    tame ci cf w' ∧ same_subscribers w w'.
Proof.
  intros Ht Hd Hs Hc Hf1 Hf2. destruct fuel as [|[|n]]; [lia..|].
  set (w0 := with_sigs (alter (store_value v) d) w).
  pose proof (same_subscribers_store d v w) as Hss0. fold w0 in Hss0.
  assert (tame ci cf w0) as Ht0 by (by eapply tame_same_subscribers).
  assert (sigs w0 !! d = Some (store_value v sg)) as Hs0.
  { simpl. by rewrite list_lookup_alter_eq, Hs. }
  assert (sigs w0 !! ci = Some sgc) as Hc0.
  { simpl. by rewrite list_lookup_alter_ne. }
  destruct (forEach_subscribers_tame cs ci cf n d (S (S n)) 0 w0 (store_value v sg) sgc)
    as (w1 & new & Hrun & Hrv & Htr & Hn1 & Hn2); [done..|simpl; lia|simpl; lia|].
  rewrite drop_0 in Hn1, Hn2. cbn [subscribers store_value] in Hn1, Hn2.
  assert (closures_on w ci cf d
          = length (filter (λ f, is_closure w0 ci cf f = true) (live (subscribers sg))))
    as Hcl by (unfold closures_on; by rewrite Hs).
  exists (write_targets cs d w1), new.
  split. { unfold set, set_with. rewrite Hs. unfold notify_with. fold w0. by rewrite Hrun. }
  split; [by rewrite write_targets_trace|].
  split; [by rewrite Hcl|]. split; [intros g Hg; rewrite Hcl; by apply Hn2|].
  assert (same_subscribers w (write_targets cs d w1)) as Hss.
  { eapply same_subscribers_trans; [exact Hss0|].
    eapply same_subscribers_trans; [by apply revalued_same_subscribers|].
    unfold same_subscribers. by rewrite write_targets_fns, write_targets_sigs. }
  split; [by apply (tame_same_subscribers w)|done].
Qed.
End TameSet.

Lemma filter_none {A} (P : A → Prop) `{∀ x, Decision (P x)} (l : list A) :
  (∀ x, x ∈ l → ¬ P x) → filter P l = [].
Proof.
  induction l as [|x l IH]; intros HP; [done|].
  rewrite filter_cons_False by (apply HP; by left).
  apply IH. intros y Hy. apply HP. by right.
Qed.

Lemma filter_all {A} (P : A → Prop) `{∀ x, Decision (P x)} (l : list A) :
  (∀ x, x ∈ l → P x) → filter P l = l.
Proof.
  induction l as [|x l IH]; intros HP; [done|].
  rewrite filter_cons_True by (apply HP; by left).
  f_equal. apply IH. intros y Hy. apply HP. by right.
Qed.

Lemma live_fmap_Some (l : list fref) : live (Some <$> l) = l.
Proof. unfold live. induction l as [|f l IH]; csimpl; [done|]. by rewrite IH. Qed.

Lemma leaf_mono n n' U p : n ≤ n' → leaf n U p → leaf n' U p.
Proof. intros Hn. induction 1; constructor; auto. lia. Qed.

Lemma quiet_reader n p : quiet n p → reader (λ s, s < n) p.
Proof. induction 1; [constructor|by constructor|done]. Qed.

Lemma quiet_world_in_range w : quiet_world w → entries_in_range w.
Proof.
  intros Hq s sg f Hs Hf. apply elem_of_live in Hf.
  destruct (Hq s sg f Hs Hf) as (body & Hb & _). by eapply lookup_lt_Some.
Qed.

Lemma createComputed_tame cs fuel name cf deps w :
  quiet_world w → quiet_fn w cf →
  Forall (λ d, d < length (sigs w)) deps →
  0 < fuel →
  ∃ w', createComputed cs fuel name cf deps w = (Done (length (sigs w)), w') ∧
        tame (length (sigs w)) cf w' ∧
        trace w' = trace w ++ [EvCompute cf] ∧
        ∀ d, d ≠ length (sigs w) →
             closures_on w' (length (sigs w)) cf d = length (filter (λ d', d' = d) deps).
Proof.
  intros Hqw (body & Hcf & Hb) Hd Hfuel.
  destruct (createComputed_done cs fuel name cf deps w body)
    as (x & w' & Hrun & Hx & Hfns & Htr & Hlen & (sgc & Hsgc & Hv & Hsub) & Hsigs);
    [by apply quiet_world_in_range|done|done|by apply quiet_reader|done|].
  set (ci := length (sigs w)) in *.
  assert (∀ f, quiet_fn w f → quiet_fn w' f) as Hqf.
  { intros f (b & Hf & Hq). exists b. split; [rewrite Hfns; by apply lookup_app_l_Some|].
    intros v. eapply leaf_mono; [|apply Hq]. lia. }
  assert (∀ d k, k ∈ dep_closures d (length (fns w)) deps →
                 fns w' !! k = Some (Recompute ci cf)) as Hclos.
  { intros d k Hk%dep_closures_range. rewrite Hfns, lookup_app_r by lia.
    apply lookup_replicate_2. lia. }
  exists w'. split; [done|]. split; [split|split; [done|]].
  - apply Hqf. by exists body.
  - exists sgc. rewrite Hsub. split; [done|]. split; [constructor|].
    by intros g ?%elem_of_nil.
  - intros d sg' f Hne Hsg' Hf.
    assert (d < ci) as Hlt.
    { apply lookup_lt_Some in Hsg'. rewrite Hlen in Hsg'. lia. }
    destruct (lookup_lt_is_Some_2 (sigs w) d Hlt) as [sg Hsg].
    rewrite (Hsigs d sg Hsg) in Hsg'. simplify_eq/=.
    rewrite live_app, live_fmap_Some in Hf. apply elem_of_app in Hf as [Hf|Hf].
    + left. apply Hqf. by eapply Hqw.
    + right. by eapply Hclos.
  - intros d Hne. unfold closures_on.
    destruct (decide (d < ci)) as [Hlt|Hge].
    + destruct (lookup_lt_is_Some_2 (sigs w) d Hlt) as [sg Hsg].
      rewrite (Hsigs d sg Hsg). simpl.
      rewrite live_app, live_fmap_Some, filter_app, length_app.
      rewrite filter_none, filter_all; simpl.
      * apply dep_closures_length.
      * intros k Hk. apply is_closure_recompute. by eapply Hclos.
      * intros f Hf. rewrite is_closure_quiet; [done|]. apply Hqf. by eapply Hqw.
    + rewrite lookup_ge_None_2 by (rewrite Hlen; lia).
      rewrite filter_none; [done|]. intros d' Hd' ->.
      eapply Forall_forall in Hd; [|exact Hd']. simpl in Hd. unfold ci in *. lia.
Qed.

Lemma subscribe_tame ci cf w g :
  tame ci cf w → quiet_fn w g →
  tame ci cf (subscribe ci g w) ∧
  ∀ d, d ≠ ci → closures_on (subscribe ci g w) ci cf d = closures_on w ci cf d.
Proof.
  intros [H1 (sgc & Hs & Hnd & Hq) H3] Hg.
  assert (∀ f, quiet_fn w f → quiet_fn (subscribe ci g w) f) as Hqf.
  { intros f. apply quiet_fn_frame; [done|]. simpl. apply length_alter. }
  split; [split|].
  - by apply Hqf.
  - exists (with_subscribers (set_add g) sgc). split; [by apply lookup_subscribe|].
    simpl. split; [by apply set_add_NoDup|].
    intros f Hf. apply Hqf. apply elem_of_live in Hf. unfold set_add in Hf.
    case_bool_decide; [by apply Hq, elem_of_live|].
    apply elem_of_app in Hf as [Hf|Hf]; [by apply Hq, elem_of_live|].
    apply list_elem_of_singleton in Hf. by simplify_eq.
  - intros d sg f Hd Hsg Hf. simpl in Hsg. rewrite list_lookup_alter_ne in Hsg by done.
    destruct (H3 d sg f Hd Hsg Hf) as [?|?]; auto.
  - intros d Hd. unfold closures_on. simpl. by rewrite list_lookup_alter_ne.
Qed.

(** ** The theorems at work on the example worlds *)

Ltac cases_elem H :=
  repeat (apply elem_of_cons in H as [?|H]; [simplify_eq|]);
  try (by apply elem_of_nil in H).

Ltac solve_body :=
  intros; cbv beta delta [noop peek increment boom is_positive drop_other drop_self
                          read_signal];
  repeat (constructor; intros); try done; try (vm_compute; lia).

(** On [counter_world], whose callbacks never write [count]: after
    [set(1); update(increment); set(7)] the value is [7], and after
    [set(1); update(increment)] it is [2]. *)
Lemma get_returns_last_write_witness :
  get 0 (run_calls toggle_visible 3
           ([CallSet 0 (VNum 1); CallUpdate 0 2] ++ [CallSet 0 (VNum 7)]) counter_world)
  = Some (VNum 7) ∧
  get 0 (run_calls toggle_visible 3
           ([CallSet 0 (VNum 1)] ++ [CallUpdate 0 2]) counter_world)
  = Some (VNum 2).
Proof.
  assert (is_Some (get 0 counter_world)) as H1 by (by eexists).
  assert (never_writes 0 counter_world) as H2.
  { intros f d Hf. destruct f as [|[|[|[|f]]]]; vm_compute in Hf; simplify_eq; solve_body. }
  split.
  - apply (proj1 (get_returns_last_write 3 counter_world 0
                    [CallSet 0 (VNum 1); CallUpdate 0 2] H1 H2
                    ltac:(repeat constructor)) (VNum 7)).
  - apply (proj2 (get_returns_last_write 3 counter_world 0 [CallSet 0 (VNum 1)] H1 H2
                    ltac:(repeat constructor)) 2 (VNum 1) (VNum 2)
             (emit (EvUpdateFn 0 2 (VNum 1))
                (run_calls toggle_visible 3 [CallSet 0 (VNum 1)] counter_world)));
      vm_compute; reflexivity.
Defined.



(** The second of three subscribers throws: [set(7)] raises, the third
    subscriber is not invoked and the document is as before. *)
Lemma exception_aborts_notification_witness :
  ∃ w',
    set toggle_visible 3 0 (VNum 7) faulty_world = (Raised (VStr "boom"), w') ∧
    get 0 w' = Some (VNum 7) ∧
    doc w' = doc faulty_world ∧
    trace w' = trace faulty_world ++
      ((λ g, EvSubscriber 0 g (VNum 7)) <$> live (take 2 (subscribers faulty_count))) ++ [].
Proof.
  apply (proj1 (exception_aborts_notification 3 faulty_world 0 faulty_count 1 3
                  (VStr "boom") []
                  ltac:(reflexivity) ltac:(reflexivity)
                  ltac:(intros g Hg; cbn in Hg; cases_elem Hg;
                        eexists; split; [reflexivity|]; solve_body)
                  ltac:(apply (raising_user _ _ 3 boom); [reflexivity|solve_body])
                  ltac:(lia)) (VNum 7)).
Defined.

(** [count.update(boom)] raises and changes nothing. *)
Lemma update_aborts_when_fn_raises_witness :
  ∃ w', update toggle_visible 3 0 3 counter_world = (Raised (VStr "boom"), w') ∧
        get 0 w' = get 0 counter_world ∧
        sigs w' = sigs counter_world ∧
        doc w' = doc counter_world ∧
        trace w' = trace counter_world ++ [EvUpdateFn 0 3 (VNum 0)].
Proof.
  apply (proj2 (update_aborts_when_fn_raises 3 counter_world 0 counter_count 3
                  (VStr "boom") ltac:(reflexivity)) boom).
  - reflexivity.
  - solve_body.
  - lia.
Defined.

(** Unsubscribing the second subscriber of [count]. *)
Lemma unsubscribe_removes_registration_witness :
  (∃ sg1, sigs (subscribe 0 1 counter_world) !! 0 = Some sg1 ∧
          1 ∈ live (subscribers sg1)) ∧
  ∃ sg2,
    sigs (unsubscribe 0 1 counter_world) !! 0 = Some sg2 ∧
    value sg2 = value counter_count ∧
    live (subscribers sg2) = filter (λ g, g ≠ 1) (live (subscribers counter_count)) ∧
    (1 ∉ live (subscribers sg2)) ∧
    (∀ t, t ≠ 0 → sigs (unsubscribe 0 1 counter_world) !! t = sigs counter_world !! t) ∧
    unsubscribe 0 1 (unsubscribe 0 1 counter_world) = unsubscribe 0 1 counter_world ∧
    ∀ fuel v,
      (∀ g, g ∈ live (subscribers counter_count) → g ≠ 1 → quiet_fn counter_world g) →
      length (subscribers counter_count) < fuel →
      ∃ w', set toggle_visible fuel 0 v (unsubscribe 0 1 counter_world) = (Done (), w') ∧
            trace w' = trace counter_world ++
              ((λ g, EvSubscriber 0 g v)
                 <$> filter (λ g, g ≠ 1) (live (subscribers counter_count))).
Proof.
  apply (unsubscribe_removes_registration counter_world 0 counter_count 1).
  reflexivity.
Defined.

(** * Further properties

    Properties of the library read off its code: what the bound targets
    show, what no call changes, how registrations behave, how
    [createComputed] fails, and when a notification terminates. *)

(** ** Display targets *)

Lemma write_targets_shows_printable cs s w : shows_printable s (write_targets cs s w).
Proof. intros sg r e Hs Hr He _. by eapply write_targets_shows. Qed.

(** X1. A bound display target shows the signal's value as a string.
    For a name that stands for itself in the selector and a value whose
    string form [display] gives: right after [createSignal] every
    element whose [data-signal-read] is the signal's name has the string
    form of the initial value as its text; after every [set] and
    [update] that returns every reader of the signal has the string form
    of the value the signal then holds, whatever the subscribers did;
    and over subscribers that only read, [set], and [update] with a
    function that only reads, do return.  This holds for both copies of
    [createSignal].  [42] is shown as ["42"], [-7] as ["-7"], the empty
    string as the empty text and [undefined] as ["undefined"]. *)
Theorem display_text_is_value cs :
  (∀ fuel name initialValue w,
     selector_safe name = true →
     ∃ s w', createSignal cs fuel name initialValue w = (Done s, w') ∧
       get s w' = Some initialValue ∧
       shows_printable s w' ∧
       ∀ r e, doc w !! r = Some e → attr_read e = Some name → printable initialValue →
         ∃ e', doc w' !! r = Some e' ∧ innerText e' = display initialValue) ∧
  (∀ fuel s v w w', set cs fuel s v w = (Done (), w') → shows_printable s w') ∧
  (∀ fuel s f w w', update cs fuel s f w = (Done (), w') → shows_printable s w') ∧
  (∀ fuel w s sg v,
     sigs w !! s = Some sg →
     (∀ f, f ∈ live (subscribers sg) → quiet_fn w f) →
     length (subscribers sg) < fuel →
     ∃ w', set cs fuel s v w = (Done (), w') ∧
           get s w' = Some v ∧ shows_printable s w') ∧
  (∀ fuel w s sg fn,
     sigs w !! s = Some sg →
     quiet_fn w fn →
     (∀ f, f ∈ live (subscribers sg) → quiet_fn w f) →
     length (subscribers sg) < fuel →
     ∃ x w',
       call cs fuel fn (value sg) (emit (EvUpdateFn s fn (value sg)) w)
       = (Done x, emit (EvUpdateFn s fn (value sg)) w) ∧
       update cs fuel s fn w = (Done (), w') ∧
       get s w' = Some x ∧ shows_printable s w') ∧
  printable (VNum 42) ∧ display (VNum 42) = "42" ∧
  printable (VNum (-7)) ∧ display (VNum (-7)) = "-7" ∧
  printable (VStr "") ∧ display (VStr "") = "" ∧
  printable VUndefined ∧ display VUndefined = "undefined".
Proof.
  assert (∀ fuel w s sg v,
            sigs w !! s = Some sg →
            (∀ f, f ∈ live (subscribers sg) → quiet_fn w f) →
            length (subscribers sg) < fuel →
            ∃ w', set cs fuel s v w = (Done (), w') ∧
                  get s w' = Some v ∧ shows_printable s w') as Hquiet.
  { intros fuel w s sg v Hs Hq Hfuel. eexists. split; [by apply set_quiet|].
    split; [|apply write_targets_shows_printable].
    unfold get. rewrite write_targets_sigs. simpl. by rewrite list_lookup_alter_eq, Hs. }
  split; [|split; [|split; [|split; [|split; [|repeat split; first [done|simpl; lia]]]]]].
  - intros fuel name v w _. eexists _, _. split; [apply createSignal_done|].
    set (sg := {| value := v; subscribers := [];
                  readers := querySelectorAll attr_read name (doc w);
                  checkers := querySelectorAll attr_checker name (doc w) |}).
    set (w1 := with_sigs (λ l, l ++ [sg]) w).
    assert (sigs (write_targets cs (length (sigs w)) w1) !! length (sigs w) = Some sg) as Hsg.
    { rewrite write_targets_sigs. simpl. by rewrite list_lookup_middle. }
    split; [unfold get; by rewrite Hsg|].
    split; [apply write_targets_shows_printable|].
    intros r e Hr Ha _.
    assert (is_Some (doc (write_targets cs (length (sigs w)) w1) !! r)) as [e' He'].
    { apply lookup_lt_is_Some. unfold write_targets. simpl.
      rewrite list_lookup_middle by done. simpl.
      unfold write_checkers, write_readers. rewrite !length_foldl_alter.
      by eapply lookup_lt_Some. }
    exists e'. split; [done|].
    apply (write_targets_shows cs (length (sigs w)) w1 sg r e' Hsg); [|done].
    simpl. apply elem_of_querySelectorAll. eauto.
  - intros fuel s v w w' (w1 & _ & ->)%set_with_done. apply write_targets_shows_printable.
  - intros fuel s f w w' (sg & x & w0 & w1 & _ & _ & _ & ->)%update_with_done.
    apply write_targets_shows_printable.
  - exact Hquiet.
  - intros fuel w s sg fn Hs Hfn Hq Hfuel. destruct fuel as [|n]; [lia|].
    destruct (update_quiet_fn cs n s fn w sg Hs Hfn) as (x & Hcall & ->).
    destruct (Hquiet (S n) (emit (EvUpdateFn s fn (value sg)) w) s sg x Hs Hq Hfuel)
      as (w' & Hrun & Hget & Hshows).
    by exists x, w'.
Qed.

Lemma querySelectorAll_miss attr name d :
  (∀ e, e ∈ d → attr e ≠ Some name) → querySelectorAll attr name d = [].
Proof.
  intros H. apply elem_of_nil_inv. intros c (e & He & Ha)%elem_of_querySelectorAll.
  apply (H e); [|done]. by eapply list_elem_of_lookup_2.
Qed.

Lemma write_targets_unbound cs s w sg :
  sigs w !! s = Some sg → readers sg = [] → checkers sg = [] → write_targets cs s w = w.
Proof.
  intros Hs Hr Hc. unfold write_targets, write_checkers, write_readers.
  rewrite Hs, Hr, Hc. by destruct w.
Qed.

(** X2. A signal whose name no element carries (the name standing for
    itself in the selector): [createSignal] returns a signal with empty
    lists of targets and leaves the document, the functions and the
    trace as they were, whatever the depth budget; a [set] on the new
    signal returns, stores the value and writes nothing. *)
Theorem createSignal_binding_miss cs fuel name initialValue w :
  selector_safe name = true →
  (∀ e, e ∈ doc w → attr_read e ≠ Some name ∧ attr_checker e ≠ Some name) →
  ∃ w', createSignal cs fuel name initialValue w = (Done (length (sigs w)), w') ∧
        sigs w' = sigs w ++ [{| value := initialValue; subscribers := [];
                               readers := []; checkers := [] |}] ∧
        fns w' = fns w ∧ doc w' = doc w ∧ trace w' = trace w ∧
        ∀ fuel' v, ∃ w'', set cs fuel' (length (sigs w)) v w' = (Done (), w'') ∧
                          get (length (sigs w)) w'' = Some v ∧
                          doc w'' = doc w ∧ trace w'' = trace w.
Proof.
  intros _ Hmiss. rewrite createSignal_done. cbv zeta.
  rewrite !querySelectorAll_miss by (intros e He; by apply Hmiss).
  set (sg := {| value := initialValue; subscribers := []; readers := []; checkers := [] |}).
  set (w1 := with_sigs (λ l, l ++ [sg]) w).
  assert (sigs w1 !! length (sigs w) = Some sg) as Hs1 by (simpl; by rewrite list_lookup_middle).
  rewrite (write_targets_unbound cs _ w1 sg Hs1) by done.
  exists w1. do 5 (split; [done|]). intros fuel' v.
  set (w2 := with_sigs (alter (store_value v) (length (sigs w))) w1).
  assert (sigs w2 !! length (sigs w) = Some (store_value v sg)) as Hs2.
  { simpl. by rewrite list_lookup_alter_eq, list_lookup_middle. }
  exists w2. split.
  - unfold set, set_with, notify_with. rewrite Hs1. fold w2.
    assert (forEach_subscribers (call cs fuel') fuel' (length (sigs w)) 0 w2 = (Done (), w2))
      as ->.
    { destruct fuel'; cbn [forEach_subscribers]; by rewrite Hs2. }
    by rewrite (write_targets_unbound cs _ w2 (store_value v sg)).
  - split; [unfold get; by rewrite Hs2|done].
Qed.

(** ** What the library leaves alone *)

Lemma classList_remove_idemp tok cl :
  classList_remove tok (classList_remove tok cl) = classList_remove tok cl.
Proof.
  unfold classList_remove. induction cl as [|t cl IH]; [done|].
  rewrite filter_cons. destruct (decide (t ≠ tok)); [|done].
  rewrite filter_cons, decide_True by done. by rewrite IH.
Qed.

Lemma classList_remove_toggle b cl :
  classList_remove "visible" (toggle_visible b cl) = classList_remove "visible" cl.
Proof.
  unfold toggle_visible, classList_toggle.
  destruct (classList_contains "visible" cl), b; try done.
  - apply classList_remove_idemp.
  - unfold classList_remove. rewrite filter_app, filter_cons, decide_False by (by intros []).
    by rewrite filter_nil, app_nil_r.
Qed.

Lemma foldl_alter_notin {A} (g : A → A) (l : list nat) (d : list A) i :
  i ∉ l → foldl (λ d r, alter g r d) d l !! i = d !! i.
Proof.
  induction l as [|r l IH] using rev_ind; [done|].
  intros Hi. apply not_elem_of_app in Hi as [Hi1 Hi2].
  rewrite foldl_snoc, list_lookup_alter_ne; [by apply IH|].
  intros ->. apply Hi2. by apply list_elem_of_singleton.
Qed.

Lemma element_kept_refl e : element_kept e e.
Proof. done. Qed.

Lemma element_kept_trans e1 e2 e3 :
  element_kept e1 e2 → element_kept e2 e3 → element_kept e1 e3.
Proof. intros (?&?&?) (?&?&?). repeat split; congruence. Qed.

Lemma footprint_refl w : footprint w w.
Proof.
  do 5 (split; [done|]). intros i e e' H1 H2. by simplify_eq.
Qed.

Lemma footprint_bound_reader w w' i : footprint w w' → bound_reader w' i → bound_reader w i.
Proof.
  intros (_ & _ & Hr & _) (s & sg' & Hs & Hi). specialize (Hr s). rewrite Hs in Hr.
  destruct (sigs w !! s) as [sg|] eqn:E; simplify_eq/=. exists s, sg. split; [done|congruence].
Qed.

Lemma footprint_bound_checker w w' i : footprint w w' → bound_checker w' i → bound_checker w i.
Proof.
  intros (_ & _ & _ & Hr & _) (s & sg' & Hs & Hi). specialize (Hr s). rewrite Hs in Hr.
  destruct (sigs w !! s) as [sg|] eqn:E; simplify_eq/=. exists s, sg. split; [done|congruence].
Qed.

Lemma footprint_trans w1 w2 w3 : footprint w1 w2 → footprint w2 w3 → footprint w1 w3.
Proof.
  intros H12 H23.
  pose proof H12 as (Hf & Hl & Hr & Hc & Hd & He).
  pose proof H23 as (Hf' & Hl' & Hr' & Hc' & Hd' & He').
  split; [congruence|]. split; [congruence|].
  split; [intros s; by rewrite Hr', Hr|]. split; [intros s; by rewrite Hc', Hc|].
  split; [congruence|].
  intros i e e3 H1 H3.
  assert (is_Some (doc w2 !! i)) as [e2 H2].
  { apply lookup_lt_is_Some. rewrite Hd. by eapply lookup_lt_Some. }
  destruct (He i e e2 H1 H2) as (Hk & Ht & Hcl).
  destruct (He' i e2 e3 H2 H3) as (Hk' & Ht' & Hcl').
  split; [by eapply element_kept_trans|]. split.
  - intros Hn. rewrite Ht', Ht; [done..|]. intros Hb. apply Hn. by eapply footprint_bound_reader.
  - intros Hn. rewrite Hcl', Hcl; [done..|]. intros Hb. apply Hn.
    by eapply footprint_bound_checker.
Qed.

Lemma footprint_emit e w : footprint w (emit e w).
Proof. do 5 (split; [done|]). intros i e1 e2 H1 H2. simpl in H2. by simplify_eq. Qed.

Lemma footprint_store t v w : footprint w (with_sigs (alter (store_value v) t) w).
Proof.
  split; [done|]. split; [apply length_alter|].
  split; [|split; [|split; [done|]]].
  - intros s. simpl. destruct (decide (t = s)) as [->|Hne].
    + rewrite list_lookup_alter_eq. by destruct (sigs w !! s).
    + by rewrite list_lookup_alter_ne.
  - intros s. simpl. destruct (decide (t = s)) as [->|Hne].
    + rewrite list_lookup_alter_eq. by destruct (sigs w !! s).
    + by rewrite list_lookup_alter_ne.
  - intros i e1 e2 H1 H2. simpl in H2. by simplify_eq.
Qed.

Lemma footprint_subscribers g t w : footprint w (with_sigs (alter (with_subscribers g) t) w).
Proof.
  split; [done|]. split; [apply length_alter|].
  split; [|split; [|split; [done|]]].
  - intros s. simpl. destruct (decide (t = s)) as [->|Hne].
    + rewrite list_lookup_alter_eq. by destruct (sigs w !! s).
    + by rewrite list_lookup_alter_ne.
  - intros s. simpl. destruct (decide (t = s)) as [->|Hne].
    + rewrite list_lookup_alter_eq. by destruct (sigs w !! s).
    + by rewrite list_lookup_alter_ne.
  - intros i e1 e2 H1 H2. simpl in H2. by simplify_eq.
Qed.

Lemma footprint_write_targets t w : footprint w (write_targets toggle_visible t w).
Proof.
  unfold write_targets. destruct (sigs w !! t) as [sg|] eqn:Hs; [|apply footprint_refl].
  do 4 (split; [done|]). simpl.
  split. { unfold write_checkers, write_readers. by rewrite !length_foldl_alter. }
  intros i e e' H1 H2.
  set (g1 := set_innerText (display (value sg))) in *.
  set (g2 := map_classList (toggle_visible (truthy (value sg)))) in *.
  assert (∀ {B} (proj : element → B),
            (∀ x, proj (g1 x) = proj x) → (∀ x, proj (g2 x) = proj x) → proj e' = proj e)
    as Hproj.
  { intros B proj Hp1 Hp2.
    pose proof (foldl_alter_proj g2 proj (checkers sg) (write_readers sg (doc w)) i Hp2) as E2.
    pose proof (foldl_alter_proj g1 proj (readers sg) (doc w) i Hp1) as E1.
    unfold write_checkers in H2. fold g2 in H2. rewrite H2 in E2.
    unfold write_readers in E2 at 1. fold g1 in E2. rewrite E1, H1 in E2. by simplify_eq/=. }
  split; [|split].
  - split; [by apply Hproj|]. split; [by apply Hproj|].
    apply (Hproj _ (λ x, classList_remove "visible" (classList x))); [done|].
    intros x. simpl. apply classList_remove_toggle.
  - intros Hn.
    assert (i ∉ readers sg) as Hi by (intros Hi; apply Hn; by exists t, sg).
    pose proof (foldl_alter_proj g2 innerText (checkers sg) (write_readers sg (doc w)) i
                  ltac:(done)) as E2.
    unfold write_checkers in H2. fold g2 in H2. rewrite H2 in E2.
    unfold write_readers in E2. fold g1 in E2. rewrite (foldl_alter_notin g1) in E2 by done.
    rewrite H1 in E2. by simplify_eq/=.
  - intros Hn.
    assert (i ∉ checkers sg) as Hi by (intros Hi; apply Hn; by exists t, sg).
    unfold write_checkers in H2. fold g2 in H2. rewrite (foldl_alter_notin g2) in H2 by done.
    pose proof (foldl_alter_proj g1 classList (readers sg) (doc w) i ltac:(done)) as E1.
    unfold write_readers in H2. fold g1 in H2. rewrite H2, H1 in E1. by simplify_eq/=.
Qed.

Lemma footprint_fns w w' : footprint w w' → fns w' = fns w.
Proof. by intros [? _]. Qed.

Lemma call_footprint n f a w : footprint w (call toggle_visible n f a w).2.
Proof.
  apply (call_frame toggle_visible footprint (λ _, True) (λ _, True) (λ _ _, True)
           (λ _ _, True) footprint_refl footprint_trans footprint_fns
           (λ t f v w _, footprint_emit _ w) (λ t f v w _, footprint_emit _ w)
           (λ f w, footprint_emit _ w) (λ t v w _, footprint_store t v w)
           (λ t w _, footprint_write_targets t w)
           (λ t f w _, footprint_subscribers _ t w)
           (λ t f w _, footprint_subscribers _ t w) (λ _ _, I)), code_permitted_any.
Qed.

Lemma set_footprint n t v w : footprint w (set toggle_visible n t v w).2.
Proof.
  apply (set_frame toggle_visible footprint (λ _, True) (λ _, True) (λ _ _, True)
           (λ _ _, True) footprint_refl footprint_trans footprint_fns
           (λ t f v w _, footprint_emit _ w) (λ t f v w _, footprint_emit _ w)
           (λ f w, footprint_emit _ w) (λ t v w _, footprint_store t v w)
           (λ t w _, footprint_write_targets t w)
           (λ t f w _, footprint_subscribers _ t w)
           (λ t f w _, footprint_subscribers _ t w) (λ _ _, I));
    [done|apply code_permitted_any].
Qed.

Lemma update_footprint n t f w : footprint w (update toggle_visible n t f w).2.
Proof.
  apply (update_frame toggle_visible footprint (λ _, True) (λ _, True) (λ _ _, True)
           (λ _ _, True) footprint_refl footprint_trans footprint_fns
           (λ t f v w _, footprint_emit _ w) (λ t f v w _, footprint_emit _ w)
           (λ f w, footprint_emit _ w) (λ t v w _, footprint_store t v w)
           (λ t w _, footprint_write_targets t w)
           (λ t f w _, footprint_subscribers _ t w)
           (λ t f w _, footprint_subscribers _ t w) (λ _ _, I));
    [done|apply code_permitted_any].
Qed.

(** ** Scripts: what no call changes *)

Lemma bindings_kept_refl w : bindings_kept w w.
Proof. intros s sg Hs. by exists sg. Qed.

Lemma bindings_kept_trans w1 w2 w3 :
  bindings_kept w1 w2 → bindings_kept w2 w3 → bindings_kept w1 w3.
Proof.
  intros H1 H2 s sg Hs. destruct (H1 s sg Hs) as (sg2 & Hs2 & Hr & Hc).
  destruct (H2 s sg2 Hs2) as (sg3 & Hs3 & Hr' & Hc'). exists sg3. split; [done|].
  split; congruence.
Qed.

Lemma untagged_kept_refl w : untagged_kept w w.
Proof. split; [done|]. intros i e He. by exists e. Qed.

Lemma untagged_kept_trans w1 w2 w3 :
  untagged_kept w1 w2 → untagged_kept w2 w3 → untagged_kept w1 w3.
Proof.
  intros [Hl H1] [Hl' H2]. split; [congruence|]. intros i e He.
  destruct (H1 i e He) as (e2 & He2 & Hk & Ht & Hc).
  destruct (H2 i e2 He2) as (e3 & He3 & Hk' & Ht' & Hc').
  exists e3. split; [done|]. split; [by eapply element_kept_trans|].
  destruct Hk as (Ha & Hb & _). split.
  - intros Hn. rewrite Ht', Ht; [done..|congruence].
  - intros Hn. rewrite Hc', Hc; [done..|congruence].
Qed.

Lemma kept_refl w : kept w w.
Proof. split; [apply bindings_kept_refl|]. intros H. split; [done|apply untagged_kept_refl]. Qed.

Lemma kept_trans w1 w2 w3 : kept w1 w2 → kept w2 w3 → kept w1 w3.
Proof.
  intros [Hb H1] [Hb' H2]. split; [by eapply bindings_kept_trans|].
  intros Hw. destruct (H1 Hw) as [Hw2 Hu]. destruct (H2 Hw2) as [Hw3 Hu'].
  split; [done|]. by eapply untagged_kept_trans.
Qed.

Lemma well_bound_in_document w i :
  well_bound w → bound_reader w i ∨ bound_checker w i → i < length (doc w).
Proof.
  intros Hw [(s & sg & Hs & Hi)|(s & sg & Hs & Hi)]; destruct (Hw s sg Hs) as [Hr Hc].
  - destruct (Hr i Hi) as (e & He & _). by eapply lookup_lt_Some.
  - destruct (Hc i Hi) as (e & He & _). by eapply lookup_lt_Some.
Qed.

Lemma footprint_kept w w' : footprint w w' → kept w w'.
Proof.
  intros Hfp. pose proof Hfp as (Hf & Hl & Hr & Hc & Hd & He). split.
  - intros s sg Hs. specialize (Hr s). specialize (Hc s). rewrite Hs in Hr, Hc.
    destruct (sigs w' !! s) as [sg'|]; simplify_eq/=. exists sg'. split; [done|].
    split; congruence.
  - intros Hw. split.
    + intros s sg' Hs'. specialize (Hr s). specialize (Hc s). rewrite Hs' in Hr, Hc.
      destruct (sigs w !! s) as [sg|] eqn:Hs; simplify_eq/=.
      destruct (Hw s sg Hs) as [Hwr Hwc]. split.
      * intros r Hin. destruct (Hwr r) as (e & H1 & Ha); [congruence|].
        assert (is_Some (doc w' !! r)) as [e' H2].
        { apply lookup_lt_is_Some. rewrite Hd. by eapply lookup_lt_Some. }
        exists e'. split; [done|]. destruct (He r e e' H1 H2) as ((-> & _) & _). done.
      * intros c Hin. destruct (Hwc c) as (e & H1 & Ha); [congruence|].
        assert (is_Some (doc w' !! c)) as [e' H2].
        { apply lookup_lt_is_Some. rewrite Hd. by eapply lookup_lt_Some. }
        exists e'. split; [done|]. destruct (He c e e' H1 H2) as ((_ & -> & _) & _). done.
    + split; [done|]. intros i e H1.
      assert (is_Some (doc w' !! i)) as [e' H2].
      { apply lookup_lt_is_Some. rewrite Hd. by eapply lookup_lt_Some. }
      exists e'. split; [done|]. destruct (He i e e' H1 H2) as (Hk & Ht & Hcl).
      split; [done|]. split.
      * intros Hn. apply Ht. intros (s & sg & Hs & Hi). destruct (Hw s sg Hs) as [Hwr _].
        destruct (Hwr i Hi) as (e0 & H0 & [x Hx]). congruence.
      * intros Hn. apply Hcl. intros (s & sg & Hs & Hi). destruct (Hw s sg Hs) as [_ Hwc].
        destruct (Hwc i Hi) as (e0 & H0 & [x Hx]). congruence.
Qed.

(** A step that changes neither the document nor any list of bound
    targets. *)
Lemma kept_subscribers w w' :
  doc w' = doc w →
  (∀ s sg, sigs w !! s = Some sg →
     ∃ sg', sigs w' !! s = Some sg' ∧ readers sg' = readers sg ∧ checkers sg' = checkers sg) →
  (∀ s sg', sigs w' !! s = Some sg' →
     ∃ sg, sigs w !! s = Some sg ∧ readers sg' = readers sg ∧ checkers sg' = checkers sg) →
  kept w w'.
Proof.
  intros Hd H1 H2. split; [exact H1|]. intros Hw. split.
  - intros s sg' Hs'. destruct (H2 s sg' Hs') as (sg & Hs & -> & ->). rewrite Hd.
    by apply (Hw s sg).
  - split; [by rewrite Hd|]. intros i e He. exists e. by rewrite Hd.
Qed.

Lemma alloc_fn_kept d w : kept w (alloc_fn d w).2.
Proof. apply kept_subscribers; [done|..]; intros s sg Hs; by exists sg. Qed.

Lemma subscribe_dependencies_kept ci cf deps w :
  kept w (subscribe_dependencies ci cf deps w).2.
Proof.
  revert w. induction deps as [|d deps IH]; intros w; simpl; [apply kept_refl|].
  destruct (sigs w !! d) as [sg|] eqn:Hd; [|apply kept_refl].
  eapply kept_trans; [|apply IH].
  eapply kept_trans; [apply (alloc_fn_kept (Recompute ci cf) w)|].
  apply footprint_kept, footprint_subscribers.
Qed.

Lemma createSignal_kept fuel name v w :
  kept w (createSignal toggle_visible fuel name v w).2.
Proof.
  rewrite createSignal_done. cbv zeta. simpl.
  set (sg := {| value := v; subscribers := [];
                readers := querySelectorAll attr_read name (doc w);
                checkers := querySelectorAll attr_checker name (doc w) |}).
  eapply kept_trans; [|apply footprint_kept, footprint_write_targets].
  split.
  - intros s sg0 Hs. exists sg0. simpl. by rewrite lookup_app_l by (by eapply lookup_lt_Some).
  - intros Hw. split; [|split; [done|]; intros i e He; by exists e].
    intros s sg0. simpl. intros Hs.
    destruct (decide (s < length (sigs w))) as [Hlt|Hge].
    + rewrite lookup_app_l in Hs by done. by apply (Hw s sg0).
    + assert (sg0 = sg) as ->.
      { pose proof (lookup_lt_Some _ _ _ Hs) as Hlt.
        rewrite length_app in Hlt. simpl in Hlt.
        assert (s = length (sigs w)) as -> by lia.
        rewrite list_lookup_middle in Hs by done. by simplify_eq. }
      split; intros r [e [He Ha]]%elem_of_querySelectorAll; exists e; split; try done;
        by rewrite Ha.
Qed.

Lemma createComputed_kept fuel name cf deps w :
  kept w (createComputed toggle_visible fuel name cf deps w).2.
Proof.
  unfold createComputed.
  pose proof (footprint_kept _ _
                (footprint_trans _ _ _ (footprint_emit (EvCompute cf) w)
                   (call_footprint fuel cf VUndefined (emit (EvCompute cf) w)))) as H1.
  destruct (call toggle_visible fuel cf VUndefined _) as [[x| e|] w1]; simpl in *; try done.
  pose proof (createSignal_kept fuel name x w1) as H2.
  rewrite createSignal_done in H2 |- *. cbv zeta in *. simpl in H2.
  match goal with |- context [subscribe_dependencies ?a ?b ?c ?d] =>
    pose proof (subscribe_dependencies_kept a b c d) as H3;
    destruct (subscribe_dependencies a b c d) as [[?| ?|] w3] end; simpl in *;
    eapply kept_trans; eauto; eapply kept_trans; eauto.
Qed.

Lemma step_call_kept fuel c w : kept w (step_call toggle_visible fuel c w).
Proof.
  destruct c; simpl.
  - apply alloc_fn_kept.
  - apply createSignal_kept.
  - apply createComputed_kept.
  - apply footprint_kept, set_footprint.
  - apply footprint_kept, update_footprint.
  - apply footprint_kept, footprint_subscribers.
  - apply footprint_kept, footprint_subscribers.
Qed.

Lemma run_calls_kept fuel cl w : kept w (run_calls toggle_visible fuel cl w).
Proof.
  unfold run_calls. revert w. induction cl as [|c cl IH]; intros w; simpl; [apply kept_refl|].
  eapply kept_trans; [apply step_call_kept|apply IH].
Qed.

Lemma run_calls_footprint fuel cl w :
  Forall plain_call cl → footprint w (run_calls toggle_visible fuel cl w).
Proof.
  unfold run_calls. intros H. revert w.
  induction H as [|c cl Hc _ IH]; intros w; simpl; [apply footprint_refl|].
  eapply footprint_trans; [|apply IH]. destruct c; simpl in *; try done.
  - apply set_footprint.
  - apply update_footprint.
  - apply footprint_subscribers.
  - apply footprint_subscribers.
Qed.

(** X3. The lists of bound targets are fixed when the signal is
    created.  No script of calls, creating signals and computed signals
    included (under names that stand for themselves in the selector) and
    with any callbacks, changes the readers or the checkers of a signal
    that exists; every bound target stays an element that carries its
    attribute; and an element that the host appends to the document
    later is in no list of readers or checkers after any [set],
    [update], [subscribe] or unsubscribe calls on the signals that
    exist, whatever its attributes are. *)
Theorem bindings_fixed_at_construction :
  (∀ fuel calls w,
     Forall safe_call calls → bindings_kept w (run_calls toggle_visible fuel calls w)) ∧
  (∀ fuel calls w,
     Forall safe_call calls → well_bound w →
     well_bound (run_calls toggle_visible fuel calls w)) ∧
  (∀ fuel calls w e,
     well_bound w → Forall plain_call calls →
     ¬ bound_reader (run_calls toggle_visible fuel calls (appendChild e w)) (length (doc w)) ∧
     ¬ bound_checker (run_calls toggle_visible fuel calls (appendChild e w)) (length (doc w))).
Proof.
  split; [|split].
  - intros fuel calls w _. apply run_calls_kept.
  - intros fuel calls w _ Hw. by apply (run_calls_kept fuel calls w).
  - intros fuel calls w e Hw Hpl.
    pose proof (run_calls_footprint fuel calls (appendChild e w) Hpl) as Hfp.
    split.
    + intros Hb%(footprint_bound_reader _ _ _ Hfp).
      pose proof (well_bound_in_document w (length (doc w)) Hw (or_introl Hb)). lia.
    + intros Hb%(footprint_bound_checker _ _ _ Hfp).
      pose proof (well_bound_in_document w (length (doc w)) Hw (or_intror Hb)). lia.
Qed.

(** X4. What the library writes of a class list.  Through any script
    of calls, under names that stand for themselves in the selector and
    with any callbacks, every element keeps its two data attributes and,
    in order, its class tokens other than [visible], and an element
    without [data-signal-checker] keeps its whole class list. *)
Theorem class_lists_change_by_visible_only fuel calls w :
  Forall safe_call calls → well_bound w →
  classes_kept w (run_calls toggle_visible fuel calls w).
Proof.
  intros _ Hw i e He.
  destruct (proj2 (proj2 (run_calls_kept fuel calls w) Hw)) as [_ Hu].
  destruct (Hu i e He) as (e' & He' & Hk & _ & Hc). by exists e'.
Qed.

(** ** Registrations *)

(** ** Subscribing *)

Lemma set_add_idemp f es : set_add f (set_add f es) = set_add f es.
Proof.
  destruct (decide (Some f ∈ es)) as [H|H]; [by rewrite !(set_add_old f es H)|].
  apply set_add_old. unfold set_add. rewrite bool_decide_eq_false_2 by done.
  apply elem_of_app. right. by apply list_elem_of_singleton.
Qed.

Lemma subscribe_idemp s f w : subscribe s f (subscribe s f w) = subscribe s f w.
Proof.
  unfold subscribe, with_sigs. simpl. f_equal. apply alter_idemp.
  intros sg. unfold with_subscribers. simpl. by rewrite set_add_idemp.
Qed.

(** X5. [subscribe(fn)] does not call [fn]: the trace, the document
    and the value are as before.  The next [set(v)] calls the functions
    registered earlier, in order, and then [fn], each with [v]. *)
Theorem subscribe_does_not_replay cs fuel w s sg f v :
  sigs w !! s = Some sg →
  Some f ∉ subscribers sg →
  (∀ g, g ∈ live (subscribers sg) → quiet_fn w g) →
  quiet_fn w f →
  length (subscribers sg) + 1 < fuel →
  trace (subscribe s f w) = trace w ∧
  doc (subscribe s f w) = doc w ∧
  get s (subscribe s f w) = Some (value sg) ∧
  ∃ w', set cs fuel s v (subscribe s f w) = (Done (), w') ∧
        trace w' = trace w ++
          ((λ g, EvSubscriber s g v) <$> live (subscribers sg)) ++ [EvSubscriber s f v].
Proof.
  intros Hs Hnew Hq Hf Hfuel.
  pose proof (lookup_subscribe s f w sg Hs) as Hs1.
  split; [done|]. split; [done|]. split; [unfold get; by rewrite Hs1|].
  eexists. split.
  - apply (set_quiet cs fuel (subscribe s f w) s _ v Hs1).
    + simpl. rewrite live_set_add_new by done.
      intros g [Hg|Hg%list_elem_of_singleton]%elem_of_app.
      * apply (quiet_fn_frame w); [done|simpl; by rewrite length_alter|by apply Hq].
      * subst g. apply (quiet_fn_frame w); [done|simpl; by rewrite length_alter|done].
    + simpl. unfold set_add. rewrite bool_decide_eq_false_2 by done.
      rewrite length_app. simpl. lia.
  - rewrite write_targets_trace. simpl. rewrite live_set_add_new by done.
    by rewrite fmap_app.
Qed.

(** ** No function is registered twice *)

Lemma no_duplicates_alter g t w :
  (∀ sg, NoDup (live (subscribers sg)) → NoDup (live (subscribers (g sg)))) →
  no_duplicates w → no_duplicates (with_sigs (alter g t) w).
Proof.
  intros Hg Hw s sg'. simpl. intros Hs. destruct (decide (t = s)) as [->|Hne].
  - rewrite list_lookup_alter_eq in Hs. destruct (sigs w !! s) as [sg|] eqn:E; simplify_eq/=.
    apply Hg. by apply (Hw s).
  - rewrite list_lookup_alter_ne in Hs by done. by apply (Hw s).
Qed.

Lemma duplicates_kept_out_refl w : duplicates_kept_out w w.
Proof. done. Qed.

Lemma duplicates_kept_out_trans w1 w2 w3 :
  duplicates_kept_out w1 w2 → duplicates_kept_out w2 w3 → duplicates_kept_out w1 w3.
Proof. intros [? ?] [? ?]. split; [congruence|auto]. Qed.

Lemma duplicates_kept_out_alter g t w :
  (∀ sg, NoDup (live (subscribers sg)) → NoDup (live (subscribers (g sg)))) →
  duplicates_kept_out w (with_sigs (alter g t) w).
Proof. intros Hg. split; [done|]. by apply no_duplicates_alter. Qed.

Lemma duplicates_kept_out_write_targets cs t w :
  duplicates_kept_out w (write_targets cs t w).
Proof.
  split; [apply write_targets_fns|]. intros H s sg. rewrite write_targets_sigs. apply H.
Qed.

Lemma duplicates_kept_out_subscribe t f w : duplicates_kept_out w (subscribe t f w).
Proof. apply duplicates_kept_out_alter. intros sg. apply set_add_NoDup. Qed.

Lemma duplicates_kept_out_unsubscribe t f w : duplicates_kept_out w (unsubscribe t f w).
Proof. apply duplicates_kept_out_alter. intros sg. apply set_delete_NoDup. Qed.

Section NoDuplicates.
Variable cs : bool → list string → list string.

Lemma call_no_duplicates n f a w : duplicates_kept_out w (call cs n f a w).2.
Proof.
  apply (call_frame cs duplicates_kept_out (λ _, True) (λ _, True) (λ _ _, True)
           (λ _ _, True) duplicates_kept_out_refl duplicates_kept_out_trans
           (λ w w' H, proj1 H)
           (λ t f v w _, duplicates_kept_out_refl _) (λ t f v w _, duplicates_kept_out_refl _)
           (λ f w, duplicates_kept_out_refl _)
           (λ t v w _, duplicates_kept_out_alter (store_value v) t w (λ _ H, H))
           (λ t w _, duplicates_kept_out_write_targets cs t w)
           (λ t f w _, duplicates_kept_out_subscribe t f w)
           (λ t f w _, duplicates_kept_out_unsubscribe t f w) (λ _ _, I)),
    code_permitted_any.
Qed.

Lemma set_no_duplicates n t v w : no_duplicates w → no_duplicates (set cs n t v w).2.
Proof.
  apply (set_frame cs duplicates_kept_out (λ _, True) (λ _, True) (λ _ _, True)
           (λ _ _, True) duplicates_kept_out_refl duplicates_kept_out_trans
           (λ w w' H, proj1 H)
           (λ t f v w _, duplicates_kept_out_refl _) (λ t f v w _, duplicates_kept_out_refl _)
           (λ f w, duplicates_kept_out_refl _)
           (λ t v w _, duplicates_kept_out_alter (store_value v) t w (λ _ H, H))
           (λ t w _, duplicates_kept_out_write_targets cs t w)
           (λ t f w _, duplicates_kept_out_subscribe t f w)
           (λ t f w _, duplicates_kept_out_unsubscribe t f w) (λ _ _, I));
    [done|apply code_permitted_any].
Qed.

Lemma update_no_duplicates n t f w : no_duplicates w → no_duplicates (update cs n t f w).2.
Proof.
  apply (update_frame cs duplicates_kept_out (λ _, True) (λ _, True) (λ _ _, True)
           (λ _ _, True) duplicates_kept_out_refl duplicates_kept_out_trans
           (λ w w' H, proj1 H)
           (λ t f v w _, duplicates_kept_out_refl _) (λ t f v w _, duplicates_kept_out_refl _)
           (λ f w, duplicates_kept_out_refl _)
           (λ t v w _, duplicates_kept_out_alter (store_value v) t w (λ _ H, H))
           (λ t w _, duplicates_kept_out_write_targets cs t w)
           (λ t f w _, duplicates_kept_out_subscribe t f w)
           (λ t f w _, duplicates_kept_out_unsubscribe t f w) (λ _ _, I));
    [done|apply code_permitted_any].
Qed.

Lemma createSignal_no_duplicates n name v w :
  no_duplicates w → no_duplicates (createSignal cs n name v w).2.
Proof.
  intros Hw. rewrite createSignal_done. cbv zeta. simpl.
  apply duplicates_kept_out_write_targets.
  intros s sg. simpl. intros Hs. destruct (decide (s < length (sigs w))) as [Hlt|Hge].
  - rewrite lookup_app_l in Hs by done. by apply (Hw s).
  - pose proof (lookup_lt_Some _ _ _ Hs) as Hlt. rewrite length_app in Hlt. simpl in Hlt.
    assert (s = length (sigs w)) as -> by lia.
    rewrite list_lookup_middle in Hs by done. simplify_eq. simpl. apply NoDup_nil_2.
Qed.

Lemma subscribe_dependencies_no_duplicates ci cf deps w :
  no_duplicates w → no_duplicates (subscribe_dependencies ci cf deps w).2.
Proof.
  revert w. induction deps as [|d deps IH]; intros w Hw; simpl; [done|].
  destruct (sigs w !! d); [|done]. apply IH.
  apply duplicates_kept_out_subscribe. exact Hw.
Qed.

Lemma createComputed_no_duplicates n name cf deps w :
  no_duplicates w → no_duplicates (createComputed cs n name cf deps w).2.
Proof.
  intros Hw. unfold createComputed.
  pose proof (proj2 (call_no_duplicates n cf VUndefined (emit (EvCompute cf) w)) Hw) as H1.
  destruct (call cs n cf VUndefined _) as [[x| e|] w1]; simpl in *; try done.
  pose proof (createSignal_no_duplicates n name x w1 H1) as H2.
  rewrite createSignal_done in H2 |- *. cbv zeta in *. simpl in H2.
  match goal with |- context [subscribe_dependencies ?a ?b ?c ?d] =>
    pose proof (subscribe_dependencies_no_duplicates a b c d H2) as H3;
    destruct (subscribe_dependencies a b c d) as [[?| ?|] w3] end; done.
Qed.

Lemma run_calls_no_duplicates n cl w :
  no_duplicates w → no_duplicates (run_calls cs n cl w).
Proof.
  unfold run_calls. revert w. induction cl as [|c cl IH]; intros w Hw; simpl; [done|].
  apply IH. destruct c; simpl.
  - done.
  - by apply createSignal_no_duplicates.
  - by apply createComputed_no_duplicates.
  - by apply set_no_duplicates.
  - by apply update_no_duplicates.
  - by apply duplicates_kept_out_subscribe.
  - by apply duplicates_kept_out_unsubscribe.
Qed.
End NoDuplicates.

(** X6. The subscribers are a [Set]: subscribing a function that is
    registered changes nothing, so that after two [subscribe(fn)] one
    call of an unsubscribe handle leaves [fn] unregistered; and no
    script of calls, with any callbacks, makes a signal hold a function
    twice. *)
Theorem subscribe_registers_once :
  (∀ s f w, subscribe s f (subscribe s f w) = subscribe s f w) ∧
  (∀ s f w sg', sigs (unsubscribe s f (subscribe s f (subscribe s f w))) !! s = Some sg' →
                f ∉ live (subscribers sg')) ∧
  (∀ cs fuel calls w, no_duplicates w → no_duplicates (run_calls cs fuel calls w)) ∧
  (∀ cs fuel calls, no_duplicates (run_calls cs fuel calls empty_world)).
Proof.
  split; [apply subscribe_idemp|]. split; [|split].
  - intros s f w sg'. rewrite subscribe_idemp. simpl. rewrite list_lookup_alter_eq.
    destruct (alter _ s (sigs w) !! s) as [sg1|]; intros; simplify_eq/=.
    rewrite elem_of_live. apply set_delete_gone.
  - intros. by apply run_calls_no_duplicates.
  - intros. apply run_calls_no_duplicates. by intros [|s] sg Hs.
Qed.

(** ** Subscribing during a pass *)

Lemma missing_le n es : missing n es ≤ n.
Proof.
  unfold missing. etrans; [apply length_filter|]. by rewrite length_seq.
Qed.

Lemma missing_add n es g :
  g < n → Some g ∉ es → missing n (es ++ [Some g]) + 1 = missing n es.
Proof.
  intros Hg Hnew. unfold missing.
  assert (∀ l : list nat, g ∉ l →
            filter (λ x, Some x ∉ es ++ [Some g]) l = filter (λ x, Some x ∉ es) l) as Hsame.
  { induction l as [|x l IHl]; intros Hl; [done|].
    apply not_elem_of_cons in Hl as [Hx Hl]. rewrite !filter_cons, IHl by done.
    destruct (decide (Some x ∉ es)) as [Hy|Hy].
    - rewrite decide_True; [done|].
      rewrite not_elem_of_app, list_elem_of_singleton. split; [done|congruence].
    - rewrite decide_False; [done|]. rewrite not_elem_of_app. by intros [? _]. }
  assert (∀ l : list nat, NoDup l → g ∈ l →
            length (filter (λ x, Some x ∉ es ++ [Some g]) l) + 1
            = length (filter (λ x, Some x ∉ es) l)) as Hcount.
  { induction l as [|x l IH]; intros Hnd Hin; [by apply elem_of_nil in Hin|].
    apply NoDup_cons in Hnd as [Hx Hnd]. rewrite !filter_cons.
    destruct (decide (x = g)) as [->|Hne].
    - rewrite (Hsame l Hx). rewrite decide_False, decide_True by
        (try done; rewrite not_elem_of_app, list_elem_of_singleton; by intros [_ ?]).
      simpl. lia.
    - apply elem_of_cons in Hin as [?|Hin]; [congruence|].
      specialize (IH Hnd Hin).
      destruct (decide (Some x ∉ es)) as [Hy|Hy].
      + rewrite decide_True; [simpl; lia|].
        rewrite not_elem_of_app, list_elem_of_singleton. split; [done|congruence].
      + rewrite decide_False; [done|].
        rewrite not_elem_of_app. by intros [? _]. }
  apply Hcount; [apply NoDup_seq|]. apply elem_of_seq. lia.
Qed.

Section Growing.
Variable nf : nat.
Variable P : fref → Prop.
Hypothesis P_range : ∀ g, P g → g < nf.

Lemma entries_grow_refl es : entries_grow nf P es es.
Proof. split; [done|]. split; [done|]. auto. Qed.

Lemma entries_grow_trans es1 es2 es3 :
  entries_grow nf P es1 es2 → entries_grow nf P es2 es3 → entries_grow nf P es1 es3.
Proof.
  intros (Hp & Hm & Hin) (Hp' & Hm' & Hin'). split; [by etrans|]. split; [lia|].
  intros g Hg. destruct (Hin' g Hg) as [Hg2|?]; [|by right]. by apply Hin.
Qed.

Lemma entries_grow_add f es : P f → entries_grow nf P es (set_add f es).
Proof.
  intros Hf. destruct (decide (Some f ∈ es)) as [Hin|Hnew].
  - rewrite set_add_old by done. apply entries_grow_refl.
  - unfold set_add. rewrite bool_decide_eq_false_2 by done.
    split; [by apply prefix_app_r|]. split.
    + rewrite length_app. simpl. pose proof (missing_add nf es f (P_range f Hf) Hnew). lia.
    + intros g [Hg|Hg%list_elem_of_singleton]%elem_of_app; [by left|]. right. congruence.
Qed.

Lemma signal_grow_refl sg : signal_grow nf P sg sg.
Proof. do 3 (split; [done|]). apply entries_grow_refl. Qed.

Lemma signal_grow_trans sg1 sg2 sg3 :
  signal_grow nf P sg1 sg2 → signal_grow nf P sg2 sg3 → signal_grow nf P sg1 sg3.
Proof.
  intros (?&?&?&?) (?&?&?&?). repeat split; try congruence.
  all: eapply entries_grow_trans; eauto.
Qed.
End Growing.

Lemma grown_refl P w : grown P w w.
Proof.
  do 2 (split; [done|]). apply Forall_Forall2_diag, Forall_forall. intros sg _.
  apply signal_grow_refl.
Qed.

Lemma grown_trans P w1 w2 w3 : grown P w1 w2 → grown P w2 w3 → grown P w1 w3.
Proof.
  intros (Hf & Hd & H1) (Hf' & Hd' & H2). split; [congruence|]. split; [congruence|].
  rewrite Hf in H2. eapply Forall2_trans; [|exact H1|exact H2]. apply signal_grow_trans.
Qed.

Lemma grown_emit P e w : grown P w (emit e w).
Proof. apply (grown_refl P w). Qed.

Lemma grown_length P w w' : grown P w w' → length (sigs w') = length (sigs w).
Proof. intros (_ & _ & H). symmetry. by eapply Forall2_length. Qed.

Lemma grown_subscribe P s f w :
  (∀ g, P g → g < length (fns w)) → P f → grown P w (subscribe s f w).
Proof.
  intros Hrange Hf. do 2 (split; [done|]). simpl. apply Forall2_alter_r.
  - apply Forall_Forall2_diag, Forall_forall. intros sg _. apply signal_grow_refl.
  - intros sg sg' H1 H2 _. assert (sg' = sg) as -> by congruence.
    do 3 (split; [done|]). simpl. by apply entries_grow_add.
Qed.

Lemma attaching_fn_grown P w w' f : grown P w w' → attaching_fn w P f → attaching_fn w' P f.
Proof.
  intros Hg (body & Hf & Hb). exists body. rewrite (grown_length P w w' Hg).
  destruct Hg as (-> & _). done.
Qed.

Lemma exec_attaching cs callf m P p w :
  (∀ g, P g → g < length (fns w)) →
  attaching (length (sigs w)) P p →
  ∃ r w', exec cs callf m p w = (Done r, w') ∧ grown P w w' ∧ trace w' = trace w.
Proof.
  intros Hrange Hp. remember (length (sigs w)) as n eqn:Hn. revert w Hrange Hn.
  induction Hp as [v|s k Hs Hk IH|s f k Hs Hf Hk IH]; intros w Hrange Hn; simpl.
  - eauto using grown_refl.
  - subst n. apply lookup_lt_is_Some in Hs as [sg ->]. by apply IH.
  - subst n. apply lookup_lt_is_Some in Hs as [sg ->].
    pose proof (grown_subscribe P s f w Hrange Hf) as Hg.
    destruct (IH (subscribe s f w)) as (r & w' & -> & Hg' & Ht).
    { done. }
    { symmetry. apply (grown_length P _ _ Hg). }
    exists r, w'. split; [done|]. split; [by eapply grown_trans|done].
Qed.

Lemma call_attaching cs n P f a w :
  (∀ g, P g → attaching_fn w P g) → P f →
  ∃ r w', call cs (S n) f a w = (Done r, w') ∧ grown P w w' ∧ trace w' = trace w.
Proof.
  intros HP Hf. destruct (HP f Hf) as (body & Hb & Hbody).
  rewrite (call_user _ _ _ _ _ _ Hb). apply exec_attaching; [|done].
  intros g Hg. destruct (HP g Hg) as (bg & Hbg & _). by eapply lookup_lt_Some.
Qed.

Section AttachingPass.
Variable P : fref → Prop.
Variable callf : fref → val → world → outcome val * world.
Hypothesis callf_attaching : ∀ f a w,
  (∀ g, P g → attaching_fn w P g) → P f →
  ∃ r w', callf f a w = (Done r, w') ∧ grown P w w' ∧ trace w' = trace w.

(** A pass over subscribers that subscribe further functions: every
    function that is registered when the pass ends, those added while it
    ran included, was called, in registration order. *)
Lemma forEach_subscribers_attaching s m i w sg :
  (∀ g, P g → attaching_fn w P g) →
  sigs w !! s = Some sg →
  (∀ f, Some f ∈ subscribers sg → P f) →
  length (subscribers sg) + missing (length (fns w)) (subscribers sg) ≤ m + i →
  ∃ w' sg',
    forEach_subscribers callf m s i w = (Done (), w') ∧
    grown P w w' ∧
    sigs w' !! s = Some sg' ∧
    trace w' = trace w ++
      ((λ f, EvSubscriber s f (value sg)) <$> live (drop i (subscribers sg'))).
Proof.
  revert i w sg. induction m as [|m IH]; intros i w sg HP Hs Hall Hm.
  - exists w, sg. cbn [forEach_subscribers]. rewrite Hs.
    rewrite lookup_ge_None_2 by lia. rewrite drop_ge by lia. simpl. rewrite app_nil_r.
    split; [done|]. split; [apply grown_refl|done].
  - rewrite (forEach_subscribers_step _ _ _ _ _ _ Hs).
    destruct (subscribers sg !! i) as [[f|]|] eqn:Hi.
    + set (ev := EvSubscriber s f (value sg)).
      assert (P f) as Hf by (apply Hall; by eapply list_elem_of_lookup_2).
      destruct (callf_attaching f (value sg) (emit ev w)) as (r & w1 & -> & Hg & Ht);
        [done..|].
      pose proof Hg as (Hfns & _ & Hsigs).
      destruct (Forall2_lookup_l _ _ _ s sg Hsigs Hs) as (sg1 & Hs1 & Hv & _ & _ & Hgr).
      pose proof Hgr as (Hpre & Hmeas & Hmem).
      destruct (IH (S i) w1 sg1) as (w' & sg' & -> & Hg' & Hs' & Ht').
      { intros g Hg0. apply (attaching_fn_grown P (emit ev w)); [done|]. by apply HP. }
      { done. }
      { intros g Hg0. destruct (Hmem g Hg0); auto. }
      { rewrite Hfns. simpl in *. lia. }
      exists w', sg'. split; [done|]. split; [by eapply (grown_trans P (emit ev w))|].
      split; [done|].
      pose proof Hg' as (_ & _ & Hsigs').
      destruct (Forall2_lookup_l _ _ _ s sg1 Hsigs' Hs1) as (sg2 & Hs2 & _ & _ & _ & Hpre' & _).
      assert (sg2 = sg') as -> by congruence.
      assert (subscribers sg' !! i = Some (Some f)) as Hi'.
      { eapply prefix_lookup_Some; [|exact Hpre']. by eapply prefix_lookup_Some. }
      rewrite (drop_S _ _ _ Hi'). rewrite Ht', Ht, Hv. simpl. by rewrite <- app_assoc.
    + destruct (IH (S i) w sg) as (w' & sg' & -> & Hg' & Hs' & Ht'); [done..|lia|].
      exists w', sg'. do 3 (split; [done|]).
      pose proof Hg' as (_ & _ & Hsigs').
      destruct (Forall2_lookup_l _ _ _ s sg Hsigs' Hs) as (sg2 & Hs2 & _ & _ & _ & Hpre' & _).
      assert (sg2 = sg') as -> by congruence.
      assert (subscribers sg' !! i = Some None) as Hi' by (by eapply prefix_lookup_Some).
      by rewrite (drop_S _ _ _ Hi').
    + exists w, sg. apply lookup_ge_None in Hi. rewrite drop_ge by lia. simpl.
      rewrite app_nil_r. split; [done|]. split; [apply grown_refl|done].
Qed.
End AttachingPass.


(** ** [createComputed] that fails *)

Lemma subscribe_dependencies_app ci cf l1 l2 w :
  subscribe_dependencies ci cf (l1 ++ l2) w
  = match subscribe_dependencies ci cf l1 w with
    | (Done _, w') => subscribe_dependencies ci cf l2 w'
    | r => r
    end.
Proof.
  revert w. induction l1 as [|d l1 IH]; intros w; simpl; [done|].
  destruct (sigs w !! d); [|done]. apply IH.
Qed.

Lemma createComputed_missing_dependency cs fuel name cf pre d post w w' :
  createComputed cs fuel name cf pre w = (Done (length (sigs w)), w') →
  length (sigs w') ≤ d →
  createComputed cs fuel name cf (pre ++ d :: post) w = (Raised type_error, w').
Proof.
  unfold createComputed.
  destruct (call cs fuel cf VUndefined _) as [[x| e|] w1]; try done.
  rewrite createSignal_done. cbv zeta. rewrite subscribe_dependencies_app.
  destruct (subscribe_dependencies _ cf pre _) as [[[]| e|] w3]; intros; simplify_eq.
  simpl. by rewrite lookup_ge_None_2.
Qed.

(** X8. [createComputed] has no error handling.  If [computeFn] throws
    when it is first called, the exception propagates and nothing is
    created: no signal, no registration, no write to the document.  If
    an entry of [dependencies] is not a signal, the call raises a
    [TypeError] at that entry, after the internal signal was created and
    a closure was registered on each earlier dependency; both are left
    in place. *)
Theorem createComputed_failures cs fuel name cf w body :
  fns w !! cf = Some (User body) →
  0 < fuel →
  (∀ e deps,
     raises (length (sigs w)) e (body VUndefined) →
     createComputed cs fuel name cf deps w = (Raised e, emit (EvCompute cf) w)) ∧
  (∀ pre d post,
     reader (λ s, s < length (sigs w)) (body VUndefined) →
     entries_in_range w →
     Forall (λ t, t < length (sigs w)) pre →
     length (sigs w) < d →
     ∃ w', createComputed cs fuel name cf (pre ++ d :: post) w = (Raised type_error, w') ∧
           length (sigs w') = S (length (sigs w)) ∧
           is_Some (get (length (sigs w)) w') ∧
           fns w' = fns w ++ replicate (length pre) (Recompute (length (sigs w)) cf) ∧
           ∀ t sg, sigs w !! t = Some sg →
             sigs w' !! t
             = Some (with_subscribers
                       (λ es, es ++ (Some <$> dep_closures t (length (fns w)) pre)) sg)).
Proof.
  intros Hcf Hfuel. split.
  - intros e deps Hr. destruct fuel as [|n]; [lia|]. unfold createComputed.
    rewrite (call_user cs n cf VUndefined (emit (EvCompute cf) w) body Hcf).
    by rewrite (exec_raises cs (call cs n) n _ e).
  - intros pre d post Hb Hr Hpre Hd.
    destruct (createComputed_done cs fuel name cf pre w body Hr Hpre Hcf Hb Hfuel)
      as (x & w' & Hrun & _ & Hfns & _ & Hlen & (sgc & Hsgc & _) & Hsigs).
    exists w'. split; [|split; [done|split; [|done]]].
    + apply createComputed_missing_dependency; [done|lia].
    + unfold get. by rewrite Hsgc.
Qed.

(** ** A computed signal without dependencies *)

Lemma keeps_value_refl s w : keeps_value s w w.
Proof. done. Qed.

Lemma keeps_value_trans s w1 w2 w3 :
  keeps_value s w1 w2 → keeps_value s w2 w3 → keeps_value s w1 w3.
Proof. intros [? ?] [? ?]. split; congruence. Qed.

Lemma never_writes_keeps s w w' : keeps_value s w w' → never_writes s w → never_writes s w'.
Proof. intros [H _] Hnw f d. rewrite H. apply Hnw. Qed.

Lemma set_keeps_value cs n s t v w :
  t ≠ s → never_writes s w → keeps_value s w (set cs n t v w).2.
Proof.
  intros Ht Hnw.
  apply (set_frame cs (keeps_value s) (λ t, t ≠ s) (λ t, t ≠ s) (λ _ _, True) (λ _ _, True)
           (keeps_value_refl s) (keeps_value_trans s) (λ w w' H, proj1 H)
           (λ t f v w _, keeps_value_refl s _) (λ t f v w _, keeps_value_refl s _)
           (λ f w, keeps_value_refl s _)
           (λ t v w Ht, keeps_value_store s t v w Ht)
           (λ t w _, keeps_value_write_targets cs s t w)
           (λ t f w _, keeps_value_subscribers s _ t w)
           (λ t f w _, keeps_value_subscribers s _ t w) (λ _ H, H)); done.
Qed.

Lemma update_keeps_value cs n s t f w :
  t ≠ s → never_writes s w → keeps_value s w (update cs n t f w).2.
Proof.
  intros Ht Hnw.
  apply (update_frame cs (keeps_value s) (λ t, t ≠ s) (λ t, t ≠ s) (λ _ _, True)
           (λ _ _, True)
           (keeps_value_refl s) (keeps_value_trans s) (λ w w' H, proj1 H)
           (λ t f v w _, keeps_value_refl s _) (λ t f v w _, keeps_value_refl s _)
           (λ f w, keeps_value_refl s _)
           (λ t v w Ht, keeps_value_store s t v w Ht)
           (λ t w _, keeps_value_write_targets cs s t w)
           (λ t f w _, keeps_value_subscribers s _ t w)
           (λ t f w _, keeps_value_subscribers s _ t w) (λ _ H, H)); done.
Qed.

Lemma run_calls_keeps_value cs n s cl w :
  Forall (λ c, plain_call c ∧ ¬ call_writes s c) cl →
  never_writes s w →
  keeps_value s w (run_calls cs n cl w).
Proof.
  unfold run_calls. intros H. revert w.
  induction H as [|c cl [Hc Hnc] _ IH]; intros w Hnw; simpl; [done|].
  assert (keeps_value s w (step_call cs n c w)) as Hstep.
  { destruct c; simpl in *; try done.
    - by apply set_keeps_value.
    - by apply update_keeps_value.
    - apply keeps_value_subscribers.
    - apply keeps_value_subscribers. }
  eapply keeps_value_trans; [exact Hstep|]. apply IH. by eapply never_writes_keeps.
Qed.

(** X9. A computed signal with an empty dependency list is computed
    once: [createComputed(name, computeFn, [])] allocates no closure and
    changes no other signal, and after any script of [set], [update],
    [subscribe] and unsubscribe calls on the other signals its [get]
    still returns what [computeFn] returned at construction, whatever
    [computeFn] reads. *)
Theorem computed_without_dependencies_is_frozen cs fuel name cf w body :
  closed_world w →
  fns w !! cf = Some (User body) →
  reader (λ s, s < length (sigs w)) (body VUndefined) →
  0 < fuel →
  ∃ x w',
    createComputed cs fuel name cf [] w = (Done (length (sigs w)), w') ∧
    pure_run (sigs w) (body VUndefined) = Done x ∧
    fns w' = fns w ∧
    (∀ t sg, sigs w !! t = Some sg → sigs w' !! t = Some sg) ∧
    ∀ fuel' calls,
      Forall (λ c, plain_call c ∧ ¬ call_writes (length (sigs w)) c) calls →
      get (length (sigs w)) (run_calls cs fuel' calls w') = Some x.
Proof.
  intros [Hr Hcode] Hcf Hb Hfuel.
  destruct (createComputed_done cs fuel name cf [] w body Hr ltac:(constructor) Hcf Hb Hfuel)
    as (x & w' & Hrun & Hx & Hfns & _ & Hlen & (sgc & Hsgc & Hv & _) & Hsigs).
  simpl in Hfns. rewrite app_nil_r in Hfns.
  exists x, w'. do 3 (split; [done|]). split.
  - intros t sg Hs. rewrite (Hsigs t sg Hs). f_equal. destruct sg. unfold with_subscribers.
    simpl. by rewrite app_nil_r.
  - intros fuel' calls Hcalls.
    assert (never_writes (length (sigs w)) w') as Hnw.
    { intros f d. rewrite Hfns. intros Hf. specialize (Hcode f d Hf).
      destruct d as [bd|sg c]; simpl in *; [|lia].
      intros a. eapply permitted_impl; [| | |apply Hcode]; simpl; intros; try done; lia. }
    destruct (run_calls_keeps_value cs fuel' _ calls w' Hcalls Hnw) as [_ ->].
    unfold get. by rewrite Hsgc, <- Hv.
Qed.

(** ** Updates in sequence *)

Lemma pure_fn_shape w w' f g : same_shape w w' → pure_fn w f g → pure_fn w' f g.
Proof. intros [Hf _] (body & Hb & Hg). exists body. by rewrite Hf. Qed.

(** X10. Updates compose: on a signal that no callback writes, the
    calls [update(f1); ...; update(fn)] with functions that only return
    a result leave [fn(... f1(v) ...)] as the value, however the
    notification passes end. *)
Theorem updates_compose cs fuel w s v0 fs gs :
  get s w = Some v0 →
  never_writes s w →
  Forall2 (pure_fn w) fs gs →
  0 < fuel →
  get s (run_calls cs fuel (CallUpdate s <$> fs) w) = Some (foldl (λ v g, g v) v0 gs).
Proof.
  intros Hget Hnw Hfs Hfuel. destruct fuel as [|n]; [lia|]. clear Hfuel.
  revert gs w v0 Hget Hnw Hfs. unfold run_calls.
  induction fs as [|f fs IH]; intros gs w v0 Hget Hnw Hfs.
  - apply Forall2_nil_inv_l in Hfs as ->. done.
  - apply Forall2_cons_inv_l in Hfs as (g & gs' & (body & Hb & Hg) & Hfs & ->). simpl.
    pose proof (update_same_shape cs (S n) s f w) as Hsh.
    apply IH.
    + apply (update_stores_result cs (S n) s f w v0 (g v0)
               (emit (EvUpdateFn s f v0) w) Hget Hnw).
      rewrite (call_user cs n f v0 (emit (EvUpdateFn s f v0) w) body Hb), Hg. done.
    + by eapply never_writes_shape.
    + eapply Forall2_impl; [exact Hfs|]. intros f' g'. by apply pure_fn_shape.
Qed.

(** ** [update] is [get], [fn], [set] *)

(** X11. [update(fn)] is [set(fn(get()))]: if [fn], applied to the
    current value, returns [x], then [update(fn)] ends exactly as
    [set(x)] does from the world [fn] left, with any subscribers: the
    same outcome, values, registrations, document and trace.  There is
    no comparison with the previous value on either path. *)
Theorem update_is_set_of_result cs fuel s f w sg :
  sigs w !! s = Some sg →
  (∀ x w1,
     call cs fuel f (value sg) (emit (EvUpdateFn s f (value sg)) w) = (Done x, w1) →
     update cs fuel s f w = set cs fuel s x w1) ∧
  (∀ g, pure_fn w f g → 0 < fuel →
     update cs fuel s f w
     = set cs fuel s (g (value sg)) (emit (EvUpdateFn s f (value sg)) w)).
Proof.
  intros Hs.
  assert (∀ x w1,
     call cs fuel f (value sg) (emit (EvUpdateFn s f (value sg)) w) = (Done x, w1) →
     update cs fuel s f w = set cs fuel s x w1) as Hlaw.
  { intros x w1 Hcall. unfold update, update_with, set, set_with. rewrite Hs, Hcall.
    pose proof (call_same_shape cs fuel f (value sg) (emit (EvUpdateFn s f (value sg)) w))
      as [_ Hlen].
    rewrite Hcall in Hlen. simpl in Hlen.
    destruct (lookup_lt_is_Some_2 (sigs w1) s) as [sg1 ->]; [|done].
    rewrite Hlen. by eapply lookup_lt_Some. }
  split; [exact Hlaw|].
  intros g (body & Hb & Hg) Hfuel. destruct fuel as [|n]; [lia|]. apply Hlaw.
  rewrite (call_user cs n f (value sg) (emit (EvUpdateFn s f (value sg)) w) body Hb), Hg.
  done.
Qed.

(** ** A pass that re-enters without a base case *)

Lemma unguarded_frame s i f w w' :
  fns w' = fns w → length (sigs w') = length (sigs w) →
  subscribers <$> sigs w' !! s = subscribers <$> sigs w !! s →
  unguarded s i f w → unguarded s i f w'.
Proof.
  intros Hf Hl Hsub [Hbody (sg & Hs & Hi & Hq)]. split; [by rewrite Hf|].
  rewrite Hs in Hsub. destruct (sigs w' !! s) as [sg'|]; simplify_eq/=.
  exists sg'. split; [done|]. rewrite Hsub. split; [done|].
  intros g Hg. apply (quiet_fn_frame w); auto.
Qed.

Section UnguardedPass.
Variable s : sref.
Variable i : nat.
Variable f : fref.
Variable callf : fref → val → world → outcome val * world.
Hypothesis callf_unguarded : ∀ a w, unguarded s i f w → (callf f a w).1 = Exhausted.
Hypothesis callf_quiet : ∀ g a w, quiet_fn w g →
  (callf g a w).1 = Exhausted ∨ ∃ r, callf g a w = (Done r, w).

Lemma forEach_subscribers_unguarded m j w :
  j ≤ i → unguarded s i f w → (forEach_subscribers callf m s j w).1 = Exhausted.
Proof.
  revert j w. induction m as [|m IH]; intros j w Hj Hu.
  - destruct Hu as [_ (sg & Hs & Hi & _)]. cbn [forEach_subscribers]. rewrite Hs.
    destruct (lookup_lt_is_Some_2 (subscribers sg) j) as [e ->]; [|done].
    apply lookup_lt_Some in Hi. lia.
  - pose proof Hu as [_ (sg & Hs & Hi & Hq)].
    rewrite (forEach_subscribers_step _ _ _ _ _ _ Hs).
    set (w1 := λ g, emit (EvSubscriber s g (value sg)) w).
    assert (∀ g, unguarded s i f (w1 g)) as Hu1 by (intros g; by apply (unguarded_frame s i f w)).
    destruct (decide (j = i)) as [->|Hne].
    + rewrite Hi. pose proof (callf_unguarded (value sg) (w1 f) (Hu1 f)) as Hc.
      fold (w1 f). by destruct (callf f (value sg) (w1 f)) as [[?| ?|] w2]; simplify_eq/=.
    + destruct (lookup_lt_is_Some_2 (subscribers sg) j) as [e He].
      { apply lookup_lt_Some in Hi. lia. }
      rewrite He. destruct e as [g|]; [|apply IH; [lia|done]].
      assert (quiet_fn w g) as Hg.
      { apply Hq. apply list_elem_of_lookup. exists j. rewrite lookup_take_lt by lia. done. }
      fold (w1 g).
      destruct (callf_quiet g (value sg) (w1 g)) as [Hc|[r Hc]].
      { apply (quiet_fn_frame w); auto. }
      * by destruct (callf g (value sg) (w1 g)) as [[?| ?|] w2]; simplify_eq/=.
      * rewrite Hc. apply IH; [lia|apply Hu1].
Qed.

Lemma set_with_unguarded cs m v w :
  unguarded s i f w → (set_with cs callf m s v w).1 = Exhausted.
Proof.
  intros Hu. pose proof Hu as [_ (sg & Hs & Hi & Hq)].
  unfold set_with, notify_with. rewrite Hs.
  assert (unguarded s i f (with_sigs (alter (store_value v) s) w)) as Hu0.
  { apply (unguarded_frame s i f w); [done|simpl; apply length_alter|..|done].
    simpl. rewrite list_lookup_alter_eq. by destruct (sigs w !! s). }
  pose proof (forEach_subscribers_unguarded m 0 _ ltac:(lia) Hu0) as Hloop.
  by destruct (forEach_subscribers callf m s 0 _) as [[?| ?|] w1]; simplify_eq/=.
Qed.
End UnguardedPass.

Lemma call_unguarded cs s i f n :
  (∀ a w, unguarded s i f w → (call cs n f a w).1 = Exhausted) ∧
  (∀ g a w, quiet_fn w g → (call cs n g a w).1 = Exhausted ∨ ∃ r, call cs n g a w = (Done r, w)).
Proof.
  induction n as [|n [IH1 IH2]]; [by split; intros; [|left]|].
  split.
  - intros a w Hu. pose proof Hu as [(body & Hb & Hset) _].
    rewrite (call_user cs n f a w body Hb). destruct (Hset a) as (u & k & ->). simpl.
    pose proof (set_with_unguarded s i f (call cs n) IH1 IH2 cs n u w Hu) as Hs.
    by destruct (set_with cs (call cs n) n s u w) as [[?| ?|] w1]; simplify_eq/=.
  - intros g a w Hg. right. by apply call_quiet.
Qed.

(** X12. There is no re-entrancy guard.  If a subscriber of [s] calls
    [s.set] as its first action whenever it is invoked, the subscribers
    before it only reading, then [s.set(v)] neither returns nor raises
    an exception of a callback: for every depth budget the call runs
    out of stack. *)
Theorem unguarded_reentrancy_exhausts cs fuel s i f w v :
  unguarded s i f w → (set cs fuel s v w).1 = Exhausted.
Proof.
  intros Hu. destruct (call_unguarded cs s i f fuel) as [H1 H2].
  by apply (set_with_unguarded s i f (call cs fuel) H1 H2).
Qed.

(** ** Worlds in layers: notification terminates *)

Lemma same_subscribers_refl w : same_subscribers w w.
Proof. done. Qed.

Lemma same_subscribers_emit e w : same_subscribers w (emit e w).
Proof. done. Qed.

Lemma layered_same_subscribers w w' : layered w → same_subscribers w w' → layered w'.
Proof.
  intros Hl Hss s sg' f Hs' Hf. pose proof Hss as (Hfns & Hlen & _).
  destruct (same_subscribers_lookup w' w s sg' (same_subscribers_sym _ _ Hss) Hs')
    as (sg & Hs & Hsub).
  rewrite <- Hsub in Hf. destruct (Hl s sg f Hs Hf) as [Hq|(ci & cf & Hk & Hci & Hq)].
  - left. by apply (quiet_fn_frame w).
  - right. exists ci, cf. rewrite Hfns, Hlen. split; [done|]. split; [done|].
    by apply (quiet_fn_frame w).
Qed.

Lemma widest_same_subscribers L w w' : widest L w → same_subscribers w w' → widest L w'.
Proof.
  intros Hw Hss s sg' Hs'.
  destruct (same_subscribers_lookup w' w s sg' (same_subscribers_sym _ _ Hss) Hs')
    as (sg & Hs & Hsub).
  rewrite <- Hsub. by apply (Hw s).
Qed.

Lemma beyond_refl s w : beyond s w w.
Proof. done. Qed.

Lemma beyond_trans s w1 w2 w3 : beyond s w1 w2 → beyond s w2 w3 → beyond s w1 w3.
Proof.
  intros [H1 H2] [H3 H4]. split; [by eapply same_subscribers_trans|].
  intros t Ht. by rewrite H4, H2.
Qed.

Section Layers.
Variable cs : bool → list string → list string.
Variable L : nat.

Lemma forEach_subscribers_layered n m s i w sg :
  returns_at cs L n →
  layered w → widest L w → sigs w !! s = Some sg →
  (length (sigs w) - s) + L ≤ S n →
  length (subscribers sg) - i ≤ m →
  ∃ w', forEach_subscribers (call cs (S n)) m s i w = (Done (), w') ∧ beyond s w w'.
Proof.
  intros Hret. revert i w. induction m as [|m IH]; intros i w Hl Hw Hs Hn Hm.
  - exists w. cbn [forEach_subscribers]. rewrite Hs. rewrite lookup_ge_None_2 by lia. done.
  - rewrite (forEach_subscribers_step _ _ _ _ _ _ Hs).
    destruct (subscribers sg !! i) as [[f|]|] eqn:Hi; [| |by exists w].
    + set (ev := EvSubscriber s f (value sg)).
      assert (f ∈ live (subscribers sg)) as Hf.
      { apply elem_of_live. by eapply list_elem_of_lookup_2. }
      destruct (Hl s sg f Hs Hf) as [Hq|(ci & cf & Hk & Hci & Hq)].
      * destruct (call_quiet cs n f (value sg) (emit ev w)) as [r ->]; [exact Hq|].
        destruct (IH (S i) (emit ev w)) as (w' & -> & Hb); [done..|lia|].
        exists w'. split; [done|]. exact Hb.
      * assert (Hlen := lookup_lt_Some _ _ _ Hs).
        destruct n as [|n]; [lia|].
        rewrite (call_recompute cs (S n) f (value sg) (emit ev w) ci cf Hk).
        destruct (call_quiet cs n cf VUndefined (emit (EvCompute cf) (emit ev w)))
          as [x ->]; [exact Hq|].
        destruct (lookup_lt_is_Some_2 (sigs w) ci) as [sgc Hsgc]; [lia|].
        destruct (Hret ci x (emit (EvCompute cf) (emit ev w)) sgc)
          as (w3 & -> & Hss & Hlow & _); [done..|simpl; lia|].
        assert (beyond s w w3) as Hb3.
        { split; [exact Hss|]. intros t Ht. apply Hlow. lia. }
        destruct (IH (S i) w3) as (w' & -> & Hb).
        { by eapply layered_same_subscribers. }
        { by eapply widest_same_subscribers. }
        { destruct Hb3 as [_ ->]; [done|lia]. }
        { destruct Hss as (_ & -> & _). simpl. lia. }
        { lia. }
        exists w'. split; [done|]. by eapply beyond_trans.
    + destruct (IH (S i) w) as (w' & -> & Hb); [done..|lia|]. by exists w'.
Qed.

Lemma set_with_layered n : returns_at cs L n.
Proof.
  induction n as [|n IHn]; intros s v w sg Hl Hw Hs Hn.
  { apply lookup_lt_Some in Hs. lia. }
  set (w0 := with_sigs (alter (store_value v) s) w).
  pose proof (same_subscribers_store s v w) as Hss0. fold w0 in Hss0.
  assert (sigs w0 !! s = Some (store_value v sg)) as Hs0.
  { simpl. by rewrite list_lookup_alter_eq, Hs. }
  destruct (forEach_subscribers_layered n (S n) s 0 w0 (store_value v sg) IHn)
    as (w1 & Hrun & Hss1 & Hlow).
  { by eapply layered_same_subscribers. }
  { by eapply widest_same_subscribers. }
  { done. }
  { simpl. rewrite length_alter. lia. }
  { simpl. pose proof (Hw s sg Hs). lia. }
  exists (write_targets cs s w1).
  split. { unfold set_with. rewrite Hs. unfold notify_with. fold w0. by rewrite Hrun. }
  rewrite write_targets_sigs. split; [|split].
  - eapply same_subscribers_trans; [exact Hss0|].
    eapply same_subscribers_trans; [exact Hss1|].
    unfold same_subscribers. by rewrite write_targets_fns, write_targets_sigs.
  - intros t Ht. rewrite Hlow by lia. simpl. rewrite list_lookup_alter_ne by lia. done.
  - by rewrite Hlow.
Qed.
End Layers.

Lemma layered_in_range w : layered w → entries_in_range w.
Proof.
  intros Hl s sg f Hs Hf. apply elem_of_live in Hf.
  destruct (Hl s sg f Hs Hf) as [(body & Hb & _)|(ci & cf & Hk & _)];
    by eapply lookup_lt_Some.
Qed.

Lemma createSignal_layered cs fuel name v w :
  layered w → layered (createSignal cs fuel name v w).2.
Proof.
  intros Hl. rewrite createSignal_done. cbv zeta. simpl.
  intros s sg f. rewrite write_targets_sigs, write_targets_fns. simpl.
  rewrite length_app. simpl. intros Hs Hf.
  assert (∀ g, quiet_fn w g →
               quiet_fn (write_targets cs (length (sigs w))
                           (with_sigs (λ l, l ++ [ {| value := v; subscribers := [];
                              readers := querySelectorAll attr_read name (doc w);
                              checkers := querySelectorAll attr_checker name (doc w) |} ])
                              w)) g) as Hqf.
  { intros g (b & Hb & Hq). exists b. rewrite write_targets_fns, write_targets_sigs.
    split; [done|]. intros a. simpl. rewrite length_app. simpl.
    eapply leaf_mono; [|apply Hq]. lia. }
  apply lookup_app_Some in Hs as [Hs|[_ Hs]].
  - destruct (Hl s sg f Hs Hf) as [Hq|(ci & cf & Hk & Hci & Hq)]; [left; by apply Hqf|].
    right. exists ci, cf. split; [done|]. split; [lia|by apply Hqf].
  - destruct (s - length (sigs w)); simplify_eq/=. by apply elem_of_nil in Hf.
Qed.

Lemma subscribe_layered s g w : layered w → quiet_fn w g → layered (subscribe s g w).
Proof.
  intros Hl Hg.
  assert (∀ f, quiet_fn w f → quiet_fn (subscribe s g w) f) as Hqf.
  { intros f. apply quiet_fn_frame; [done|]. simpl. apply length_alter. }
  intros t sg' f Hs' Hf. simpl. rewrite length_alter.
  destruct (decide (s = t)) as [->|Hne].
  - simpl in Hs'. rewrite list_lookup_alter_eq in Hs'.
    destruct (sigs w !! t) as [sg|] eqn:Hs; simplify_eq/=.
    apply elem_of_live in Hf. unfold set_add in Hf.
    assert (Some f ∈ subscribers sg ∨ f = g) as [Hin| ->].
    { case_bool_decide; [by left|]. apply elem_of_app in Hf as [?|Hf]; [by left|].
      apply list_elem_of_singleton in Hf. right. congruence. }
    + apply elem_of_live in Hin.
      destruct (Hl t sg f Hs Hin) as [Hq|(ci & cf & Hk & Hci & Hq)]; [left; by apply Hqf|].
      right. exists ci, cf. split; [done|]. split; [done|by apply Hqf].
    + left. by apply Hqf.
  - simpl in Hs'. rewrite list_lookup_alter_ne in Hs' by done.
    destruct (Hl t sg' f Hs' Hf) as [Hq|(ci & cf & Hk & Hci & Hq)]; [left; by apply Hqf|].
    right. exists ci, cf. split; [done|]. split; [done|by apply Hqf].
Qed.

Lemma createComputed_layered cs fuel name cf deps w :
  layered w → quiet_fn w cf →
  Forall (λ d, d < length (sigs w)) deps →
  0 < fuel →
  ∃ w', createComputed cs fuel name cf deps w = (Done (length (sigs w)), w') ∧ layered w'.
Proof.
  intros Hl (body & Hcf & Hb) Hd Hfuel.
  destruct (createComputed_done cs fuel name cf deps w body)
    as (x & w' & Hrun & Hx & Hfns & Htr & Hlen & (sgc & Hsgc & Hv & Hsub) & Hsigs);
    [by apply layered_in_range|done|done|by apply quiet_reader|done|].
  set (ci := length (sigs w)) in *.
  assert (∀ f, quiet_fn w f → quiet_fn w' f) as Hqf.
  { intros f (b & Hf & Hq). exists b. split; [rewrite Hfns; by apply lookup_app_l_Some|].
    intros v. eapply leaf_mono; [|apply Hq]. lia. }
  exists w'. split; [done|]. intros d sg' f Hsg' Hf. rewrite Hlen.
  destruct (decide (d < ci)) as [Hlt|Hge].
  - destruct (lookup_lt_is_Some_2 (sigs w) d Hlt) as [sg Hsg].
    rewrite (Hsigs d sg Hsg) in Hsg'. simplify_eq/=.
    rewrite live_app, live_fmap_Some in Hf. apply elem_of_app in Hf as [Hf|Hf].
    + destruct (Hl d sg f Hsg Hf) as [Hq|(ci' & cf' & Hk & Hci & Hq)]; [left; by apply Hqf|].
      right. exists ci', cf'. split; [rewrite Hfns; by apply lookup_app_l_Some|].
      split; [lia|by apply Hqf].
    + right. exists ci, cf. split; [|split; [lia|apply Hqf; by exists body]].
      apply dep_closures_range in Hf. rewrite Hfns, lookup_app_r by lia.
      apply lookup_replicate_2. lia.
  - assert (d = ci) as ->.
    { apply lookup_lt_Some in Hsg'. rewrite Hlen in Hsg'. lia. }
    rewrite Hsgc in Hsg'. simplify_eq. rewrite Hsub in Hf. by apply elem_of_nil in Hf.
Qed.

(** X13. Without re-entrant caller code a notification terminates,
    however many computed signals are chained.  In a world in layers
    (every subscriber only reads, or is the closure of a computed signal
    that was created after the signal it is registered on and whose
    [computeFn] only reads) [set] returns once the depth budget exceeds
    the number of signals plus the size of the largest subscriber set;
    the signal then holds the value, the signals created before it are
    untouched and the registrations are as before.  Such worlds are
    closed under [createSignal], under [createComputed] with a
    [computeFn] that only reads, and under [subscribe] of a function
    that only reads, and a world without signals is one: computed
    signals built through the API alone cannot form a cycle. *)
Theorem layered_notification_terminates :
  (∀ cs fuel L w s sg v,
     layered w → widest L w → sigs w !! s = Some sg →
     length (sigs w) + L < fuel →
     ∃ w', set cs fuel s v w = (Done (), w') ∧
           get s w' = Some v ∧
           (∀ t, t < s → sigs w' !! t = sigs w !! t) ∧
           same_subscribers w w' ∧ layered w' ∧ widest L w') ∧
  (∀ cs fuel name cf deps w,
     layered w → quiet_fn w cf → Forall (λ d, d < length (sigs w)) deps → 0 < fuel →
     ∃ w', createComputed cs fuel name cf deps w = (Done (length (sigs w)), w') ∧
           layered w') ∧
  (∀ cs fuel name v w, layered w → layered (createSignal cs fuel name v w).2) ∧
  (∀ s g w, layered w → quiet_fn w g → layered (subscribe s g w)) ∧
  (∀ F d t, layered (World [] F d t)).
Proof.
  split; [|split; [|split; [|split]]].
  - intros cs fuel L w s sg v Hl Hw Hs Hfuel.
    destruct (set_with_layered cs L fuel s v w sg Hl Hw Hs) as (w' & Hrun & Hss & Hlow & Hv).
    { lia. }
    exists w'. split; [exact Hrun|]. split; [unfold get; by rewrite Hv|].
    split; [done|]. split; [done|].
    split; [by eapply layered_same_subscribers|by eapply widest_same_subscribers].
  - apply createComputed_layered.
  - apply createSignal_layered.
  - apply subscribe_layered.
  - intros F d t [|s] sg f Hs; simplify_eq/=.
Qed.

(** ** The targets of a computed signal *)

Lemma shows_value_write_other cs ci d w sgc sg :
  sigs w !! ci = Some sgc → sigs w !! d = Some sg →
  (∀ i, i ∈ readers sgc → i ∉ readers sg) →
  shows_value ci w → shows_value ci (write_targets cs d w).
Proof.
  intros Hc Hd Hapart Hshow sg0 r e. rewrite write_targets_sigs. intros Hs Hr He.
  assert (sg0 = sgc) as -> by congruence.
  unfold write_targets in He. rewrite Hd in He. simpl in He.
  pose proof (foldl_alter_proj (map_classList (cs (truthy (value sg)))) innerText
                (checkers sg) (write_readers sg (doc w)) r ltac:(done)) as E2.
  unfold write_checkers in He. rewrite He in E2. unfold write_readers in E2.
  rewrite foldl_alter_notin in E2 by (by apply Hapart).
  destruct (doc w !! r) as [e0|] eqn:E0; simplify_eq/=.
  rewrite E2. by apply (Hshow sgc r e0).
Qed.

Lemma flags_value_write_other cs ci d w sgc sg :
  sigs w !! ci = Some sgc → sigs w !! d = Some sg →
  (∀ i, i ∈ checkers sgc → i ∉ checkers sg) →
  flags_value ci w → flags_value ci (write_targets cs d w).
Proof.
  intros Hc Hd Hapart Hflag sg0 c e. rewrite write_targets_sigs. intros Hs Hin He.
  assert (sg0 = sgc) as -> by congruence.
  unfold write_targets in He. rewrite Hd in He. simpl in He.
  unfold write_checkers in He. rewrite foldl_alter_notin in He by (by apply Hapart).
  pose proof (foldl_alter_proj (set_innerText (display (value sg))) classList
                (readers sg) (doc w) c ltac:(done)) as E1.
  unfold write_readers in He. rewrite He in E1.
  destruct (doc w !! c) as [e0|] eqn:E0; simplify_eq/=.
  rewrite E1. by apply (Hflag sgc c e0).
Qed.

Lemma targets_show_store_other ci d v w :
  d ≠ ci → targets_show ci w → targets_show ci (with_sigs (alter (store_value v) d) w).
Proof.
  intros Hd [Hsh Hfl]. split.
  - intros sg r e Hs. simpl in Hs. rewrite list_lookup_alter_ne in Hs by done.
    by apply Hsh.
  - intros sg c e Hs. simpl in Hs. rewrite list_lookup_alter_ne in Hs by done.
    by apply Hfl.
Qed.

Lemma is_closure_true w ci cf k :
  is_closure w ci cf k = true → fns w !! k = Some (Recompute ci cf).
Proof.
  unfold is_closure. destruct (fns w !! k) as [[b|s c]|]; try done.
  intros [-> ->]%bool_decide_eq_true. done.
Qed.

Section TameTargets.
Variable ci : sref.
Variable cf : fref.

Lemma call_closure_targets n k a w sgc :
  tame ci cf w →
  fns w !! k = Some (Recompute ci cf) →
  sigs w !! ci = Some sgc →
  length (subscribers sgc) ≤ n →
  ∃ w', call toggle_visible (S (S n)) k a w = (Done VUndefined, w') ∧
        revalued ci w w' ∧ targets_show ci w'.
Proof.
  intros Ht Hk Hs Hlen.
  destruct (call_closure_tame toggle_visible ci cf n k a w sgc Ht Hk Hs Hlen)
    as (x & w' & Hrun & Hrv & _).
  exists w'. split; [done|]. split; [done|].
  destruct Ht as [Hcf (sgc' & Hs' & Hnd & Hq) _].
  assert (sgc' = sgc) as -> by congruence.
  rewrite (call_recompute _ _ _ _ _ _ _ Hk) in Hrun.
  destruct (call_quiet toggle_visible n cf VUndefined (emit (EvCompute cf) w)) as [y Hy];
    [exact Hcf|].
  rewrite Hy in Hrun.
  change (set_with toggle_visible (call toggle_visible (S n)) (S n) ci y
            (emit (EvCompute cf) w))
    with (set toggle_visible (S n) ci y (emit (EvCompute cf) w)) in Hrun.
  rewrite (set_quiet toggle_visible (S n) (emit (EvCompute cf) w) ci sgc y) in Hrun;
    [|done|done|lia].
  simplify_eq. split; [apply write_targets_shows|apply write_targets_flags].
Qed.

Lemma forEach_subscribers_targets n d m i w sg sgc w' :
  tame ci cf w → d ≠ ci →
  sigs w !! d = Some sg → sigs w !! ci = Some sgc →
  length (subscribers sgc) ≤ n →
  targets_show ci w ∨
    (∃ k, k ∈ live (drop i (subscribers sg)) ∧ fns w !! k = Some (Recompute ci cf)) →
  forEach_subscribers (call toggle_visible (S (S n))) m d i w = (Done (), w') →
  targets_show ci w'.
Proof.
  revert i w sgc. induction m as [|m IH]; intros i w sgc Ht Hd Hs Hc Hn Hpre Hrun.
  - cbn [forEach_subscribers] in Hrun. rewrite Hs in Hrun.
    destruct (subscribers sg !! i) as [e|] eqn:Hi; [done|]. simplify_eq.
    destruct Hpre as [?|(k & Hk & _)]; [done|].
    apply lookup_ge_None in Hi. rewrite drop_ge in Hk by lia. by apply elem_of_nil in Hk.
  - rewrite (forEach_subscribers_step _ _ _ _ _ _ Hs) in Hrun.
    destruct (subscribers sg !! i) as [[f|]|] eqn:Hi.
    + rewrite (drop_S _ _ _ Hi) in Hpre. set (ev := EvSubscriber d f (value sg)) in *.
      assert (f ∈ live (subscribers sg)) as Hf.
      { apply elem_of_live. by eapply list_elem_of_lookup_2. }
      destruct (tame_others _ _ _ Ht d sg f Hd Hs Hf) as [Hq|Hcl].
      * destruct (call_quiet toggle_visible (S n) f (value sg) (emit ev w)) as [r Hr];
          [exact Hq|].
        rewrite Hr in Hrun.
        apply (IH (S i) (emit ev w) sgc); [by apply (tame_revalued ci cf w)
                                          |done..| |done].
        destruct Hpre as [?|(k & Hk & Hfk)]; [by left|]. right. exists k. split; [|done].
        change (live (Some f :: drop (S i) (subscribers sg)))
          with (f :: live (drop (S i) (subscribers sg))) in Hk.
        apply elem_of_cons in Hk as [->|Hk]; [|done].
        destruct Hq as (b & Hb & _). congruence.
      * destruct (call_closure_targets n f (value sg) (emit ev w) sgc)
          as (w1 & Hr & Hrv1 & Hshow1); [by apply (tame_revalued ci cf w)
                                        |done..|].
        rewrite Hr in Hrun.
        destruct (revalued_lookup_ci ci _ _ sgc Hrv1 Hc) as (sgc1 & Hc1 & Hsub1).
        apply (IH (S i) w1 sgc1); [|done| |done| |by left|done].
        -- apply (tame_revalued ci cf w); [done|].
           by apply (revalued_trans ci _ (emit ev w)).
        -- destruct Hrv1 as (_ & _ & Ho & _). by rewrite Ho.
        -- by rewrite Hsub1.
    + rewrite (drop_S _ _ _ Hi) in Hpre.
      by apply (IH (S i) w sgc).
    + simplify_eq. destruct Hpre as [?|(k & Hk & _)]; [done|].
      apply lookup_ge_None in Hi. rewrite drop_ge in Hk by lia. by apply elem_of_nil in Hk.
Qed.
End TameTargets.


(** * Calls that return

    What the targets and the computed signals hold after a [set] or an
    [update] is settled by the end of the notification pass, which a
    subscriber that throws cuts short.  This part states those
    properties for the calls that return, and shows the calls that do:
    over subscribers that only read, and in worlds in layers, where
    computed signals are chained or meet in a diamond. *)

(** ** Counting over a cascade *)

Lemma total_nil (A : event → nat) : total A [] = 0.
Proof. done. Qed.

Lemma total_cons (A : event → nat) e t : total A (e :: t) = A e + total A t.
Proof. done. Qed.

Lemma total_app (A : event → nat) t1 t2 : total A (t1 ++ t2) = total A t1 + total A t2.
Proof. unfold total. induction t1 as [|e t1 IH]; [done|]. csimpl. rewrite IH. lia. Qed.

Lemma total_tally (p : event → bool) t : total (λ e, if p e then 1 else 0) t = tally p t.
Proof. induction t as [|e t IH]; [done|]. by rewrite total_cons, tally_cons, IH. Qed.

Lemma total_sum {X} (p : X → event → bool) (l : list X) t :
  total (λ e, sum_list ((λ x, if p x e then 1 else 0) <$> l)) t
  = sum_list ((λ x, tally (p x) t) <$> l).
Proof.
  induction t as [|e t IH].
  - simpl. induction l as [|x l IHl]; [done|]. csimpl. by rewrite <- IHl.
  - rewrite total_cons, IH. clear IH.
    induction l as [|x l IHl]; [done|]. csimpl. rewrite tally_cons, <- IHl. lia.
Qed.

Lemma sum_list_zero {X} (g : X → nat) (l : list X) :
  (∀ x, x ∈ l → g x = 0) → sum_list (g <$> l) = 0.
Proof.
  induction l as [|x l IH]; intros H; [done|]. csimpl.
  rewrite (H x) by (by left). rewrite IH; [done|]. intros y Hy. apply H. by right.
Qed.

Lemma sum_list_count (c : sref) (l : list sref) :
  sum_list ((λ d, if bool_decide (c = d) then 1 else 0) <$> l)
  = length (filter (λ d, d = c) l).
Proof.
  induction l as [|d l IH]; [done|]. csimpl. rewrite filter_cons, IH.
  case_bool_decide; destruct (decide (d = c)); simplify_eq; done.
Qed.

Lemma sum_list_filter {X} (p : X → bool) (l : list X) :
  sum_list ((λ x, if p x then 1 else 0) <$> l) = length (filter (λ x, p x = true) l).
Proof.
  induction l as [|x l IH]; [done|]. csimpl. rewrite filter_cons, IH.
  destruct (p x) eqn:E; [by rewrite decide_True|by rewrite decide_False].
Qed.

Lemma sum_list_once (f : fref) (l : list fref) :
  NoDup l → f ∈ l → sum_list ((λ g, if bool_decide (g = f) then 1 else 0) <$> l) = 1.
Proof.
  induction 1 as [|g l Hg Hnd IH]; intros Hf; [by apply elem_of_nil in Hf|]. csimpl.
  apply elem_of_cons in Hf as [->|Hf].
  - rewrite bool_decide_eq_true_2 by done. rewrite sum_list_zero; [done|].
    intros x Hx. rewrite bool_decide_eq_false_2; [done|]. by intros ->.
  - rewrite bool_decide_eq_false_2 by (by intros ->). by rewrite IH.
Qed.

Lemma registered_lookup w d sg : sigs w !! d = Some sg → registered w d = live (subscribers sg).
Proof. unfold registered. by intros ->. Qed.

Lemma registered_same_subscribers w w' d :
  same_subscribers w w' → registered w' d = registered w d.
Proof.
  intros (_ & _ & H). unfold registered. specialize (H d).
  destruct (sigs w' !! d) as [sg'|], (sigs w !! d) as [sg|]; simplify_eq/=; [|done].
  by rewrite H.
Qed.

(** A ledger over the events of a notification.  The weight [A] is what
    is counted, the weight [B] is what accounts for it, and [share s f]
    is the share of the entry [f] of the subscribers of [s]: every
    invocation of a caller function, and every invocation of a closure
    together with the run of [computeFn] and the shares of the
    subscribers of the signal it sets, is balanced. *)
Section Ledger.
Variable cs : bool → list string → list string.
Variable L : nat.
Variable w0 : world.
Variables A B : event → nat.
Variable share : sref → fref → nat.

Hypothesis user_entry :
  ∀ s f v body, fns w0 !! f = Some (User body) →
    A (EvSubscriber s f v) = share s f + B (EvSubscriber s f v).

Hypothesis closure_entry :
  ∀ s k v c cf, fns w0 !! k = Some (Recompute c cf) →
    A (EvSubscriber s k v) + A (EvCompute cf) + sum_list (share c <$> registered w0 c)
    = share s k + B (EvSubscriber s k v) + B (EvCompute cf).

Section LedgerPass.
Variable n : nat.

Hypothesis set_ledger :
  ∀ s v w sg,
    layered w → widest L w → same_subscribers w0 w → sigs w !! s = Some sg →
    (length (sigs w) - s) + L ≤ n →
    ∃ w' new,
      set_with cs (call cs n) n s v w = (Done (), w') ∧
      same_subscribers w w' ∧
      (∀ t, t < s → sigs w' !! t = sigs w !! t) ∧
      sigs w' !! s = Some (store_value v sg) ∧
      trace w' = trace w ++ new ∧
      total A new = sum_list (share s <$> registered w0 s) + total B new.

Lemma forEach_subscribers_ledger m s i w sg :
  layered w → widest L w → same_subscribers w0 w → sigs w !! s = Some sg →
  (length (sigs w) - s) + L ≤ S n →
  length (subscribers sg) - i ≤ m →
  ∃ w' new,
    forEach_subscribers (call cs (S n)) m s i w = (Done (), w') ∧
    beyond s w w' ∧
    trace w' = trace w ++ new ∧
    total A new = sum_list (share s <$> live (drop i (subscribers sg))) + total B new.
Proof.
  revert i w. induction m as [|m IH]; intros i w Hl Hw H0 Hs Hn Hm.
  - exists w, []. cbn [forEach_subscribers]. rewrite Hs, lookup_ge_None_2 by lia.
    rewrite drop_ge by lia. rewrite app_nil_r. split; [done|]. split; [apply beyond_refl|done].
  - rewrite (forEach_subscribers_step _ _ _ _ _ _ Hs).
    destruct (subscribers sg !! i) as [[f|]|] eqn:Hi.
    + rewrite (drop_S _ _ _ Hi). set (ev := EvSubscriber s f (value sg)).
      change (live (Some f :: drop (S i) (subscribers sg)))
        with (f :: live (drop (S i) (subscribers sg))).
      assert (f ∈ live (subscribers sg)) as Hf.
      { apply elem_of_live. by eapply list_elem_of_lookup_2. }
      pose proof H0 as (Hfns & _).
      destruct (Hl s sg f Hs Hf) as [Hq|(ci & cf & Hk & Hci & Hq)].
      * destruct (call_quiet cs n f (value sg) (emit ev w)) as [r ->]; [exact Hq|].
        destruct (IH (S i) (emit ev w)) as (w' & new & -> & Hb & Htr & Hsum); [done..|lia|].
        exists w', (ev :: new). split; [done|]. split; [exact Hb|].
        split; [rewrite Htr; simpl; by rewrite <- app_assoc|].
        destruct Hq as (body & Hbody & _). rewrite Hfns in Hbody.
        pose proof (user_entry s f (value sg) body Hbody) as Hue. fold ev in Hue.
        rewrite !total_cons, Hsum. csimpl. lia.
      * assert (Hlen := lookup_lt_Some _ _ _ Hs).
        destruct n as [|n']; [lia|].
        rewrite (call_recompute cs (S n') f (value sg) (emit ev w) ci cf Hk).
        destruct (call_quiet cs n' cf VUndefined (emit (EvCompute cf) (emit ev w)))
          as [x ->]; [exact Hq|].
        destruct (lookup_lt_is_Some_2 (sigs w) ci) as [sgc Hsgc]; [lia|].
        destruct (set_ledger ci x (emit (EvCompute cf) (emit ev w)) sgc)
          as (w3 & new3 & -> & Hss & Hlow & _ & Htr3 & Hsum3); [done..|simpl; lia|].
        assert (beyond s w w3) as Hb3.
        { split; [exact Hss|]. intros t Ht. apply Hlow. lia. }
        destruct (IH (S i) w3) as (w' & new & -> & Hb & Htr & Hsum).
        { by eapply layered_same_subscribers. }
        { by eapply widest_same_subscribers. }
        { by eapply same_subscribers_trans. }
        { destruct Hb3 as [_ ->]; [done|lia]. }
        { destruct Hss as (_ & -> & _). simpl. lia. }
        { lia. }
        exists w', (ev :: EvCompute cf :: new3 ++ new). split; [done|].
        split; [by eapply beyond_trans|].
        split. { rewrite Htr, Htr3. simpl. rewrite <- !app_assoc. done. }
        rewrite Hfns in Hk.
        pose proof (closure_entry s f (value sg) ci cf Hk) as Hce.
        rewrite !total_cons, !total_app, Hsum, Hsum3. csimpl. fold ev in Hce. lia.
    + rewrite (drop_S _ _ _ Hi).
      destruct (IH (S i) w) as (w' & new & -> & Hb & Htr & Hsum); [done..|lia|].
      exists w', new. done.
    + exists w, []. apply lookup_ge_None in Hi.
      rewrite drop_ge by lia. rewrite app_nil_r. split; [done|].
      split; [apply beyond_refl|done].
Qed.
End LedgerPass.

Lemma set_with_ledger n s v w sg :
  layered w → widest L w → same_subscribers w0 w → sigs w !! s = Some sg →
  (length (sigs w) - s) + L ≤ n →
  ∃ w' new,
    set_with cs (call cs n) n s v w = (Done (), w') ∧
    same_subscribers w w' ∧
    (∀ t, t < s → sigs w' !! t = sigs w !! t) ∧
    sigs w' !! s = Some (store_value v sg) ∧
    trace w' = trace w ++ new ∧
    total A new = sum_list (share s <$> registered w0 s) + total B new.
Proof.
  revert s v w sg. induction n as [|n IHn]; intros s v w sg Hl Hw H0 Hs Hn.
  { apply lookup_lt_Some in Hs. lia. }
  set (w1 := with_sigs (alter (store_value v) s) w).
  pose proof (same_subscribers_store s v w) as Hss0. fold w1 in Hss0.
  assert (sigs w1 !! s = Some (store_value v sg)) as Hs1.
  { simpl. by rewrite list_lookup_alter_eq, Hs. }
  destruct (forEach_subscribers_ledger n IHn (S n) s 0 w1 (store_value v sg))
    as (w2 & new & Hrun & [Hss1 Hlow] & Htr & Hsum).
  { by eapply layered_same_subscribers. }
  { by eapply widest_same_subscribers. }
  { by eapply same_subscribers_trans. }
  { done. }
  { simpl. rewrite length_alter. lia. }
  { simpl. pose proof (Hw s sg Hs). lia. }
  exists (write_targets cs s w2), new.
  split. { unfold set_with. rewrite Hs. unfold notify_with. fold w1. by rewrite Hrun. }
  rewrite write_targets_sigs, write_targets_trace. split; [|split; [|split; [|split]]].
  - eapply same_subscribers_trans; [exact Hss0|].
    eapply same_subscribers_trans; [exact Hss1|].
    unfold same_subscribers. by rewrite write_targets_fns, write_targets_sigs.
  - intros t Ht. rewrite Hlow by lia. simpl. rewrite list_lookup_alter_ne by lia. done.
  - by rewrite Hlow.
  - done.
  - rewrite Hsum, drop_0. cbn [subscribers store_value].
    by rewrite <- (registered_lookup w s sg Hs), (registered_same_subscribers w0 w s H0).
Qed.
End Ledger.

Lemma sum_list_share (c d : sref) (f : fref) (l : list fref) :
  NoDup l → (c = d → f ∈ l) →
  sum_list ((λ g, if bool_decide (c = d ∧ g = f) then 1 else 0) <$> l)
  = if bool_decide (c = d) then 1 else 0.
Proof.
  intros Hnd Hf. case_bool_decide as Hcd.
  - rewrite (list_fmap_ext _ (λ g, if bool_decide (g = f) then 1 else 0) l).
    + by apply sum_list_once; [|apply Hf].
    + intros i g _. subst c. destruct (decide (g = f)) as [->|Hne].
      * by rewrite (bool_decide_eq_true_2 (f = f)), (bool_decide_eq_true_2 (d = d ∧ f = f)).
      * rewrite (bool_decide_eq_false_2 (g = f)), (bool_decide_eq_false_2 (d = d ∧ g = f));
          first [done|by intros [_ ?]].
  - apply sum_list_zero. intros g _. rewrite bool_decide_eq_false_2; [done|]. by intros [? _].
Qed.

Lemma sum_list_notifications (s : sref) (g : sref → nat) (l : list sref) :
  sum_list ((λ d, (if decide (d = s) then 1 else 0) + g d) <$> l)
  = length (filter (λ d, d = s) l) + sum_list (g <$> l).
Proof.
  induction l as [|d l IH]; [done|]. csimpl. rewrite filter_cons, IH.
  destruct (decide (d = s)); simpl; lia.
Qed.

Lemma closures_on_registered w ci cf d :
  closures_on w ci cf d
  = length (filter (λ f, is_closure w ci cf f = true) (registered w d)).
Proof. unfold closures_on, registered. by destruct (sigs w !! d). Qed.

Lemma installed_same_subscribers ci cf deps w w' :
  installed ci cf deps w → same_subscribers w w' → installed ci cf deps w'.
Proof.
  intros (Hci & Hcl & Hon) Hss. pose proof Hss as (Hf & Hl & _).
  split; [by rewrite Hl|]. split; [by rewrite Hf|].
  intros d. by rewrite (closures_on_same_subscribers ci cf w w' d Hss).
Qed.

(** Every subscriber of [d] is invoked once for every notification of
    [d]. *)
Lemma fired_per_notification cs L n s v w sg d f :
  layered w → no_duplicates w → widest L w → sigs w !! s = Some sg →
  (length (sigs w) - s) + L ≤ n →
  f ∈ registered w d →
  ∃ w' new,
    set_with cs (call cs n) n s v w = (Done (), w') ∧
    trace w' = trace w ++ new ∧
    tally (is_fired d f) new = notifications (fns w) s new d.
Proof.
  intros Hl Hnd Hw Hs Hn Hf.
  destruct (set_with_ledger cs L w
              (λ e, if is_fired d f e then 1 else 0)
              (λ e, if is_recompute (fns w) d e then 1 else 0)
              (λ s' g, if bool_decide (s' = d ∧ g = f) then 1 else 0))
    with (n := n) (s := s) (v := v) (w := w) (sg := sg)
    as (w' & new & Hrun & _ & _ & _ & Htr & Hsum); try done.
  - intros s' g u body Hg. simpl. rewrite Hg. lia.
  - intros s' k u c cf Hk. simpl. rewrite Hk.
    rewrite sum_list_share; [lia| |].
    + unfold registered. destruct (sigs w !! c) as [sgc|] eqn:Hc; [|constructor].
      by apply (Hnd c).
    + by intros ->.
  - exists w', new. split; [done|]. split; [done|].
    rewrite !total_tally in Hsum. rewrite Hsum. unfold notifications.
    rewrite sum_list_share.
    + case_bool_decide; destruct (decide (d = s)); simplify_eq; done.
    + rewrite (registered_lookup w s sg Hs). by apply (Hnd s).
    + by intros ->.
Qed.

(** [computeFn] runs once for every notification of every entry of the
    dependency list. *)
Lemma computes_per_notification cs L n s v w sg ci cf deps :
  layered w → widest L w → installed ci cf deps w → sigs w !! s = Some sg →
  (length (sigs w) - s) + L ≤ n →
  ∃ w' new,
    set_with cs (call cs n) n s v w = (Done (), w') ∧
    same_subscribers w w' ∧
    trace w' = trace w ++ new ∧
    tally (is_compute cf) new = sum_list (notifications (fns w) s new <$> deps).
Proof.
  intros Hl Hw (Hci & Hcl & Hon) Hs Hn.
  assert (∀ f, is_closure w ci cf f = true
               ↔ (match fns w !! f with
                  | Some (Recompute _ c) => bool_decide (c = cf)
                  | _ => false
                  end) = true) as Hcf.
  { intros f. unfold is_closure. destruct (fns w !! f) as [[b|c cf']|] eqn:Hf; [done| |done].
    rewrite !bool_decide_eq_true. pose proof (Hcl f c cf' Hf). tauto. }
  destruct (set_with_ledger cs L w
              (λ e, if is_compute cf e then 1 else 0)
              (λ e, sum_list ((λ d, if is_recompute (fns w) d e then 1 else 0) <$> deps))
              (λ _ f, if (match fns w !! f with
                          | Some (Recompute _ c) => bool_decide (c = cf)
                          | _ => false
                          end) then 1 else 0))
    with (n := n) (s := s) (v := v) (w := w) (sg := sg)
    as (w' & new & Hrun & Hss & _ & _ & Htr & Hsum); try done.
  - intros s' g u body Hg. simpl. rewrite Hg. by rewrite sum_list_zero.
  - intros s' k u c cf' Hk. simpl. rewrite Hk.
    rewrite (sum_list_zero (λ _ : sref, 0)) by done.
    rewrite sum_list_filter, sum_list_count.
    rewrite <- (list_filter_iff _ _ (registered w c) Hcf).
    rewrite <- closures_on_registered, Hon. lia.
  - exists w', new. split; [done|]. split; [done|]. split; [done|].
    rewrite total_tally, total_sum, sum_list_filter in Hsum.
    rewrite <- (list_filter_iff _ _ (registered w s) Hcf) in Hsum.
    rewrite <- closures_on_registered, Hon in Hsum.
    unfold notifications. by rewrite sum_list_notifications.
Qed.

(** Every run of [computeFn] is in a closure that sets the computed
    signal, and every such closure runs it. *)
Lemma computes_are_sets cs L n s v w sg ci cf deps :
  layered w → widest L w → installed ci cf deps w → sigs w !! s = Some sg →
  (length (sigs w) - s) + L ≤ n →
  ∃ w' new,
    set_with cs (call cs n) n s v w = (Done (), w') ∧
    trace w' = trace w ++ new ∧
    tally (is_compute cf) new = tally (is_recompute (fns w) ci) new.
Proof.
  intros Hl Hw (Hci & Hcl & Hon) Hs Hn.
  destruct (set_with_ledger cs L w
              (λ e, if is_compute cf e then 1 else 0)
              (λ e, if is_recompute (fns w) ci e then 1 else 0)
              (λ _ _, 0))
    with (n := n) (s := s) (v := v) (w := w) (sg := sg)
    as (w' & new & Hrun & _ & _ & _ & Htr & Hsum); try done.
  - intros s' g u body Hg. simpl. by rewrite Hg.
  - intros s' k u c cf' Hk. simpl. rewrite Hk.
    rewrite (sum_list_zero (λ _ : fref, 0)) by done.
    pose proof (Hcl k c cf' Hk).
    repeat case_bool_decide; first [lia|exfalso; tauto].
  - exists w', new. split; [done|]. split; [done|].
    rewrite !total_tally, (sum_list_zero (λ _ : fref, 0)) in Hsum by done. done.
Qed.

(** ** A computed signal in place *)

Lemma filter_ext_elem {X} (P Q : X → Prop) `{∀ x, Decision (P x)} `{∀ x, Decision (Q x)}
    (l : list X) :
  (∀ x, x ∈ l → P x ↔ Q x) → filter P l = filter Q l.
Proof.
  induction l as [|x l IH]; intros HPQ; [done|]. rewrite !filter_cons.
  rewrite IH by (intros y Hy; apply HPQ; by right).
  pose proof (HPQ x ltac:(by left)).
  destruct (decide (P x)), (decide (Q x)); tauto.
Qed.

Lemma is_closure_old w w' ci cf f :
  (∀ k d, fns w !! k = Some d → fns w' !! k = Some d) →
  f < length (fns w) → is_closure w' ci cf f = is_closure w ci cf f.
Proof.
  intros Hext Hf. unfold is_closure.
  destruct (lookup_lt_is_Some_2 (fns w) f Hf) as [d Hd]. by rewrite Hd, (Hext f d Hd).
Qed.

Lemma closures_on_out_of_range w ci cf d :
  length (sigs w) ≤ d → closures_on w ci cf d = 0.
Proof. intros Hd. unfold closures_on. by rewrite lookup_ge_None_2. Qed.

(** The closures on each signal after [createComputed]. *)
Lemma createComputed_closures_on cs fuel name cf deps w ci0 cf0 :
  layered w → quiet_fn w cf →
  Forall (λ d, d < length (sigs w)) deps → 0 < fuel →
  ∃ w', createComputed cs fuel name cf deps w = (Done (length (sigs w)), w') ∧
    length (sigs w') = S (length (sigs w)) ∧
    fns w' = fns w ++ replicate (length deps) (Recompute (length (sigs w)) cf) ∧
    ∀ d, closures_on w' ci0 cf0 d
         = closures_on w ci0 cf0 d
           + (if bool_decide (length (sigs w) = ci0 ∧ cf = cf0)
              then length (filter (λ d', d' = d) deps) else 0).
Proof.
  intros Hl (body & Hcf & Hb) Hd Hfuel.
  destruct (createComputed_done cs fuel name cf deps w body)
    as (x & w' & Hrun & Hx & Hfns & Htr & Hlen & (sgc & Hsgc & Hv & Hsub) & Hsigs);
    [by apply layered_in_range|done|done|by apply quiet_reader|done|].
  set (ci := length (sigs w)) in *.
  exists w'. do 3 (split; [done|]). intros d.
  assert (∀ k def, fns w !! k = Some def → fns w' !! k = Some def) as Hext.
  { intros k def Hk. rewrite Hfns. by apply lookup_app_l_Some. }
  assert (length (filter (λ d', d' = d) deps) = 0 ∨ d < ci) as Hcount.
  { destruct (decide (d < ci)); [by right|left].
    rewrite filter_none; [done|]. intros d' Hd' ->.
    eapply Forall_forall in Hd; [|exact Hd']. simpl in Hd. lia. }
  destruct (decide (d < ci)) as [Hlt|Hge].
  - destruct (lookup_lt_is_Some_2 (sigs w) d Hlt) as [sg Hsg].
    unfold closures_on. rewrite (Hsigs d sg Hsg), Hsg. simpl.
    rewrite live_app, live_fmap_Some, filter_app, length_app. f_equal.
    + f_equal. apply filter_ext_elem. intros f Hf.
      rewrite (is_closure_old w w'); [done|done|].
      apply elem_of_live in Hf. by apply (layered_in_range w Hl d sg f Hsg).
    + assert (∀ k, k ∈ dep_closures d (length (fns w)) deps →
                   is_closure w' ci0 cf0 k = bool_decide (ci = ci0 ∧ cf = cf0)) as Hk.
      { intros k Hk%dep_closures_range. unfold is_closure.
        rewrite Hfns, lookup_app_r by lia. rewrite lookup_replicate_2 by lia. done. }
      case_bool_decide as Hc.
      * rewrite filter_all; [apply dep_closures_length|].
        intros k Hin. by rewrite (Hk k Hin).
      * rewrite filter_none; [done|].
        intros k Hin. by rewrite (Hk k Hin).
  - destruct Hcount as [->|?]; [|lia].
    rewrite (closures_on_out_of_range w) by (unfold ci in *; lia).
    assert (closures_on w' ci0 cf0 d = 0) as ->.
    { unfold closures_on. destruct (decide (d = ci)) as [->|Hne].
      - by rewrite Hsgc, Hsub.
      - rewrite lookup_ge_None_2; [done|]. rewrite Hlen. lia. }
    by destruct (bool_decide _).
Qed.

Lemma createComputed_installed cs fuel name cf deps w :
  layered w → quiet_fn w cf →
  (∀ k c cf', fns w !! k = Some (Recompute c cf') → c < length (sigs w) ∧ cf' ≠ cf) →
  Forall (λ d, d < length (sigs w)) deps → 0 < fuel →
  ∃ w', createComputed cs fuel name cf deps w = (Done (length (sigs w)), w') ∧
        installed (length (sigs w)) cf deps w'.
Proof.
  intros Hl Hq Hfresh Hd Hfuel.
  destruct (createComputed_closures_on cs fuel name cf deps w (length (sigs w)) cf)
    as (w' & Hrun & Hlen & Hfns & Hon); [done..|].
  exists w'. split; [done|]. split; [lia|]. split.
  - intros k c cf'. rewrite Hfns. intros Hk. apply lookup_app_Some in Hk as [Hk|[_ Hk]].
    + destruct (Hfresh k c cf' Hk). split; [lia|done].
    + apply lookup_replicate in Hk as [Hk _]. by simplify_eq.
  - intros d. rewrite Hon, bool_decide_eq_true_2 by done.
    assert (closures_on w (length (sigs w)) cf d = 0) as ->; [|done].
    rewrite closures_on_registered, filter_none; [done|].
    intros f _. unfold is_closure.
    destruct (fns w !! f) as [[b|c cf']|] eqn:Hf; [done| |done].
    destruct (Hfresh f c cf' Hf). rewrite bool_decide_eq_false_2; [done|]. by intros [_ ?].
Qed.

Lemma installed_createComputed cs fuel name cf' deps' w ci cf deps :
  installed ci cf deps w → layered w → quiet_fn w cf' → cf' ≠ cf →
  Forall (λ d, d < length (sigs w)) deps' → 0 < fuel →
  ∃ w', createComputed cs fuel name cf' deps' w = (Done (length (sigs w)), w') ∧
        installed ci cf deps w'.
Proof.
  intros (Hci & Hcl & Hon) Hl Hq Hne Hd Hfuel.
  destruct (createComputed_closures_on cs fuel name cf' deps' w ci cf)
    as (w' & Hrun & Hlen & Hfns & Hon'); [done..|].
  exists w'. split; [done|]. split; [lia|]. split.
  - intros k c cf0. rewrite Hfns. intros Hk. apply lookup_app_Some in Hk as [Hk|[_ Hk]].
    + by apply (Hcl k).
    + apply lookup_replicate in Hk as [Hk _]. simplify_eq. split; [lia|done].
  - intros d. rewrite Hon', bool_decide_eq_false_2 by (by intros [_ ?]).
    rewrite Hon. lia.
Qed.

Lemma installed_subscribe ci cf deps s g w :
  installed ci cf deps w → quiet_fn w g → installed ci cf deps (subscribe s g w).
Proof.
  intros (Hci & Hcl & Hon) Hq. split; [simpl; by rewrite length_alter|]. split; [done|].
  intros d. rewrite <- Hon. unfold closures_on. simpl.
  destruct (decide (s = d)) as [->|Hne]; [|by rewrite list_lookup_alter_ne].
  rewrite list_lookup_alter_eq. destruct (sigs w !! d) as [sg|]; [|done]. simpl.
  unfold set_add. case_bool_decide; [done|].
  rewrite live_app, filter_app, length_app. simpl.
  rewrite (filter_none _ [g]); [simpl; rewrite Nat.add_0_r; reflexivity|].
  intros f Hf%list_elem_of_singleton. subst f.
  destruct Hq as (b & Hb & _). unfold is_closure. simpl. by rewrite Hb.
Qed.

Lemma installed_createSignal cs fuel name v ci cf deps w :
  installed ci cf deps w → installed ci cf deps (createSignal cs fuel name v w).2.
Proof.
  intros (Hci & Hcl & Hon). rewrite createSignal_done. cbv zeta. simpl.
  split; [rewrite write_targets_sigs; simpl; rewrite length_app; lia|].
  split; [by rewrite write_targets_fns|].
  intros d. rewrite <- Hon. unfold closures_on, is_closure.
  rewrite write_targets_sigs, write_targets_fns. simpl.
  destruct (decide (d < length (sigs w))) as [Hlt|Hge].
  - by rewrite lookup_app_l.
  - rewrite (lookup_ge_None_2 (sigs w)) by lia.
    destruct (decide (d = length (sigs w))) as [->|Hne].
    + by rewrite list_lookup_middle.
    + rewrite lookup_ge_None_2; [done|]. rewrite length_app. simpl. lia.
Qed.

(** ** Recomputations per notification *)

(** One [set], whatever it cascades into. *)
Lemma set_counted cs fuel L w ci cf deps s sg v :
  layered w → no_duplicates w → widest L w → installed ci cf deps w →
  sigs w !! s = Some sg → length (sigs w) + L < fuel →
  ∃ w' new,
    set cs fuel s v w = (Done (), w') ∧
    trace w' = trace w ++ new ∧
    (∀ d f, f ∈ registered w d →
       tally (is_fired d f) new = notifications (fns w) s new d) ∧
    tally (is_compute cf) new = sum_list (notifications (fns w) s new <$> deps) ∧
    tally (is_compute cf) new = tally (is_recompute (fns w) ci) new ∧
    (s ≠ ci → ∀ g, g ∈ registered w ci →
       tally (is_fired ci g) new = tally (is_compute cf) new) ∧
    (∀ a b, deps = [a; b] →
       notifications (fns w) s new a = 1 → notifications (fns w) s new b = 1 →
       tally (is_compute cf) new = 2) ∧
    layered w' ∧ no_duplicates w' ∧ widest L w' ∧ installed ci cf deps w'.
Proof.
  intros Hl Hnd Hw Hin Hs Hfuel.
  assert (length (sigs w) - s + L ≤ fuel) as Hn by lia.
  destruct (computes_per_notification cs L fuel s v w sg ci cf deps Hl Hw Hin Hs Hn)
    as (w' & new & Hrun & Hss & Htr & Hsum).
  assert (∀ w2 new2,
            set_with cs (call cs fuel) fuel s v w = (Done (), w2) →
            trace w2 = trace w ++ new2 → new2 = new) as Hsame.
  { intros w2 new2 Hrun2 Htr2. rewrite Hrun in Hrun2. simplify_eq.
    rewrite Htr in Htr2. by apply app_inv_head in Htr2. }
  assert (∀ d f, f ∈ registered w d →
            tally (is_fired d f) new = notifications (fns w) s new d) as Hfired.
  { intros d f Hf.
    destruct (fired_per_notification cs L fuel s v w sg d f Hl Hnd Hw Hs Hn Hf)
      as (w2 & new2 & Hrun2 & Htr2 & Hc).
    by rewrite (Hsame w2 new2 Hrun2 Htr2) in Hc. }
  assert (tally (is_compute cf) new = tally (is_recompute (fns w) ci) new) as Hsets.
  { destruct (computes_are_sets cs L fuel s v w sg ci cf deps Hl Hw Hin Hs Hn)
      as (w2 & new2 & Hrun2 & Htr2 & Hc).
    by rewrite (Hsame w2 new2 Hrun2 Htr2) in Hc. }
  exists w', new. split; [exact Hrun|]. split; [exact Htr|]. split; [exact Hfired|].
  split; [exact Hsum|]. split; [exact Hsets|]. split; [|split].
  - intros Hne g Hg. rewrite (Hfired ci g Hg), Hsets. unfold notifications.
    by rewrite decide_False by done.
  - intros a b -> Ha Hb. rewrite Hsum. csimpl. rewrite Ha, Hb. done.
  - split; [by eapply layered_same_subscribers|].
    split. { pose proof (set_no_duplicates cs fuel s v w Hnd) as H.
             unfold set in H. by rewrite Hrun in H. }
    split; [by eapply widest_same_subscribers|by eapply installed_same_subscribers].
Qed.



(** ** Visibility targets *)

(** C7, as amended.  A bound visibility target carries the class
    [visible] exactly when the signal's current value is truthy: right
    after [createSignal] for every element whose [data-signal-checker]
    is the signal's name (a name that stands for itself in the
    selector), and after every [set] and [update] that returns for every
    checker of the signal.  [set], and [update] with a function that
    only reads, do return when the subscribers only read, and in every
    world in layers.  [0] and the empty string are falsy, the string
    ["0"] and [-1] are truthy. *)
Theorem visibility_flag_iff_truthy :
  (∀ fuel name initialValue w,
     selector_safe name = true →
     ∃ s w', createSignal toggle_visible fuel name initialValue w = (Done s, w') ∧
       get s w' = Some initialValue ∧
       flags_value s w' ∧
       ∀ c e, doc w !! c = Some e → attr_checker e = Some name →
         ∃ e', doc w' !! c = Some e' ∧
               ("visible" ∈ classList e' ↔ truthy initialValue = true)) ∧
  (∀ fuel s v w w', set toggle_visible fuel s v w = (Done (), w') → flags_value s w') ∧
  (∀ fuel s f w w', update toggle_visible fuel s f w = (Done (), w') → flags_value s w') ∧
  (∀ fuel w s sg v,
     sigs w !! s = Some sg →
     (∀ f, f ∈ live (subscribers sg) → quiet_fn w f) →
     length (subscribers sg) < fuel →
     ∃ w', set toggle_visible fuel s v w = (Done (), w') ∧
           get s w' = Some v ∧ flags_value s w') ∧
  (∀ fuel w s sg fn,
     sigs w !! s = Some sg →
     quiet_fn w fn →
     (∀ f, f ∈ live (subscribers sg) → quiet_fn w f) →
     length (subscribers sg) < fuel →
     ∃ x w',
       call toggle_visible fuel fn (value sg) (emit (EvUpdateFn s fn (value sg)) w)
       = (Done x, emit (EvUpdateFn s fn (value sg)) w) ∧
       update toggle_visible fuel s fn w = (Done (), w') ∧
       get s w' = Some x ∧ flags_value s w') ∧
  (∀ fuel L w s sg v,
     layered w → widest L w → sigs w !! s = Some sg →
     length (sigs w) + L < fuel →
     ∃ w', set toggle_visible fuel s v w = (Done (), w') ∧
           get s w' = Some v ∧ flags_value s w') ∧
  (∀ fuel L w s sg fn,
     layered w → widest L w → sigs w !! s = Some sg →
     quiet_fn w fn →
     length (sigs w) + L < fuel →
     ∃ x w',
       call toggle_visible fuel fn (value sg) (emit (EvUpdateFn s fn (value sg)) w)
       = (Done x, emit (EvUpdateFn s fn (value sg)) w) ∧
       update toggle_visible fuel s fn w = (Done (), w') ∧
       get s w' = Some x ∧ flags_value s w') ∧
  truthy (VNum 0) = false ∧ truthy (VStr "") = false ∧
  truthy (VStr "0") = true ∧ truthy (VNum (-1)) = true.
Proof.
  assert (∀ fuel s v w w',
            set toggle_visible fuel s v w = (Done (), w') → flags_value s w') as Hset.
  { intros fuel s v w w' (w1 & _ & ->)%set_with_done. apply write_targets_flags. }
  assert (∀ fuel w s sg v,
            sigs w !! s = Some sg →
            (∀ f, f ∈ live (subscribers sg) → quiet_fn w f) →
            length (subscribers sg) < fuel →
            ∃ w', set toggle_visible fuel s v w = (Done (), w') ∧
                  get s w' = Some v ∧ flags_value s w') as Hquiet.
  { intros fuel w s sg v Hs Hq Hfuel. eexists. split; [by apply set_quiet|].
    split; [|apply write_targets_flags].
    unfold get. rewrite write_targets_sigs. simpl. by rewrite list_lookup_alter_eq, Hs. }
  assert (∀ fuel L w s sg v,
            layered w → widest L w → sigs w !! s = Some sg →
            length (sigs w) + L < fuel →
            ∃ w', set toggle_visible fuel s v w = (Done (), w') ∧
                  get s w' = Some v ∧ flags_value s w') as Hlayered.
  { intros fuel L w s sg v Hl Hw Hs Hfuel.
    destruct (set_with_layered toggle_visible L fuel s v w sg Hl Hw Hs)
      as (w' & Hrun & _ & _ & Hv); [lia|].
    exists w'. split; [exact Hrun|]. split; [unfold get; by rewrite Hv|].
    by apply (Hset fuel s v w). }
  split; [|split; [|split; [|split; [|split; [|split; [|split; [|done]]]]]]].
  - intros fuel name v w _. eexists _, _. split; [apply createSignal_done|].
    set (sg := {| value := v; subscribers := [];
                  readers := querySelectorAll attr_read name (doc w);
                  checkers := querySelectorAll attr_checker name (doc w) |}).
    set (w1 := with_sigs (λ l, l ++ [sg]) w).
    assert (sigs (write_targets toggle_visible (length (sigs w)) w1) !! length (sigs w)
            = Some sg) as Hsg.
    { unfold write_targets. simpl. rewrite list_lookup_middle by done. simpl.
      by rewrite list_lookup_middle. }
    split; [unfold get; by rewrite Hsg|].
    split; [apply write_targets_flags|].
    intros c e Hc Ha.
    assert (is_Some (doc (write_targets toggle_visible (length (sigs w)) w1) !! c))
      as [e' He'].
    { apply lookup_lt_is_Some. unfold write_targets. simpl.
      rewrite list_lookup_middle by done. simpl.
      unfold write_checkers, write_readers. rewrite !length_foldl_alter.
      by eapply lookup_lt_Some. }
    exists e'. split; [done|].
    apply (write_targets_flags (length (sigs w)) w1 sg c e' Hsg); [|done].
    simpl. apply elem_of_querySelectorAll. eauto.
  - exact Hset.
  - intros fuel s f w w' (sg & x & w0 & w1 & _ & _ & _ & ->)%update_with_done.
    apply write_targets_flags.
  - exact Hquiet.
  - intros fuel w s sg fn Hs Hfn Hq Hfuel. destruct fuel as [|n]; [lia|].
    destruct (update_quiet_fn toggle_visible n s fn w sg Hs Hfn) as (x & Hcall & ->).
    destruct (Hquiet (S n) (emit (EvUpdateFn s fn (value sg)) w) s sg x Hs Hq Hfuel)
      as (w' & Hrun & Hget & Hflags).
    by exists x, w'.
  - exact Hlayered.
  - intros fuel L w s sg fn Hl Hw Hs Hfn Hfuel. destruct fuel as [|n]; [lia|].
    destruct (update_quiet_fn toggle_visible n s fn w sg Hs Hfn) as (x & Hcall & ->).
    destruct (Hlayered (S n) L (emit (EvUpdateFn s fn (value sg)) w) s sg x Hl Hw Hs Hfuel)
      as (w' & Hrun & Hget & Hflags).
    by exists x, w'.
Qed.

(** C7 as stated fails: when a subscriber throws, [set] stores the
    value and raises before the targets are written.  On
    [faulty_world], after [count.set(7)] the value is [7], which is
    truthy, and the checker of [count] is without the class [visible]. *)
Lemma flag_stale_after_throwing_subscriber :
  ∃ w' e,
    set toggle_visible 3 0 (VNum 7) faulty_world = (Raised (VStr "boom"), w') ∧
    get 0 w' = Some (VNum 7) ∧
    truthy (VNum 7) = true ∧
    1 ∈ checkers faulty_count ∧
    doc w' !! 1 = Some e ∧
    "visible" ∉ classList e.
Proof.
  exists (set toggle_visible 3 0 (VNum 7) faulty_world).2, (Element None (Some "count") "" ["badge"]).
  split; [vm_compute; reflexivity|]. split; [vm_compute; reflexivity|].
  split; [reflexivity|]. split; [by left|]. split; [vm_compute; reflexivity|].
  simpl. intros H. cases_elem H.
Qed.

(** ** Computed signals that are current *)



(** ** The further properties at work on the example worlds *)

Lemma well_bound_counter_world : well_bound counter_world.
Proof.
  intros s sg Hs. destruct s as [|s]; vm_compute in Hs; simplify_eq.
  split; intros i Hi; cbn in Hi; cases_elem Hi;
    (eexists; split; [reflexivity|by eexists]).
Qed.

Lemma never_writes_counter_world : never_writes 0 counter_world.
Proof.
  intros f d Hf. destruct f as [|[|[|[|f]]]]; vm_compute in Hf; simplify_eq; solve_body.
Qed.

Lemma closed_positive_world : closed_world positive_world.
Proof.
  split.
  - intros s sg f Hs Hf. destruct s as [|s]; vm_compute in Hs; simplify_eq.
    by apply elem_of_nil in Hf.
  - intros f d Hf. destruct f as [|[|f]]; vm_compute in Hf; simplify_eq; solve_body.
Qed.

Lemma tame_rendering_world : tame 1 0 rendering_world.
Proof.
  destruct (createComputed_tame toggle_visible 3 "isCountPositive" 0 [0] positive_world)
    as (w' & Hrun & Ht & _).
  - intros s sg f Hs Hf. destruct s as [|s]; vm_compute in Hs; simplify_eq.
    by apply elem_of_nil in Hf.
  - eexists; split; [reflexivity|]; solve_body.
  - repeat constructor.
  - lia.
  - unfold rendering_world. by rewrite Hrun.
Qed.

(** [count.set(42)] returns and writes ["42"] into the reader of [count]. *)
Lemma display_text_is_value_witness :
  ∃ w', set toggle_visible 3 0 (VNum 42) counter_world = (Done (), w') ∧
        get 0 w' = Some (VNum 42) ∧ shows_printable 0 w'.
Proof.
  apply (proj1 (proj2 (proj2 (proj2 (display_text_is_value toggle_visible)))) 3 counter_world
           0 counter_count (VNum 42)).
  - reflexivity.
  - intros f Hf. cbn in Hf. cases_elem Hf; (eexists; split; [reflexivity|]; solve_body).
  - vm_compute; lia.
Defined.

(** No element of the page is named [total]. *)
Lemma createSignal_binding_miss_witness :
  ∃ w', createSignal toggle_visible 0 "total" (VNum 1) (World [] [] page []) = (Done 0, w') ∧
        doc w' = page.
Proof.
  destruct (createSignal_binding_miss toggle_visible 0 "total" (VNum 1) (World [] [] page []))
    as (w' & Hrun & _ & _ & Hdoc & _).
  - reflexivity.
  - intros e He. cbn in He. cases_elem He; split; discriminate.
  - exists w'. split; [exact Hrun|exact Hdoc].
Defined.

(** An element with [data-signal-read="count"] appended after [count]
    was created is not a target of [count] after [count.set(5)]. *)
Lemma bindings_fixed_at_construction_witness :
  ¬ bound_reader
      (run_calls toggle_visible 3 [CallSet 0 (VNum 5)] (appendChild late_element counter_world))
      (length (doc counter_world)) ∧
  ¬ bound_checker
      (run_calls toggle_visible 3 [CallSet 0 (VNum 5)] (appendChild late_element counter_world))
      (length (doc counter_world)).
Proof.
  apply (proj2 (proj2 bindings_fixed_at_construction) 3 [CallSet 0 (VNum 5)] counter_world
           late_element well_bound_counter_world).
  repeat constructor.
Defined.

(** Creating [count] on the page and setting it to [5]. *)
Lemma class_lists_change_by_visible_only_witness :
  classes_kept (World [] [] page [])
    (run_calls toggle_visible 3
       [CallDefine noop; CallCreateSignal "count" (VNum 0); CallSet 0 (VNum 5)]
       (World [] [] page [])).
Proof.
  apply (class_lists_change_by_visible_only 3
           [CallDefine noop; CallCreateSignal "count" (VNum 0); CallSet 0 (VNum 5)]
           (World [] [] page [])).
  - repeat constructor.
  - intros s sg Hs. by destruct s.
Defined.

(** Subscribing [increment] to [count], which has two subscribers. *)
Lemma subscribe_does_not_replay_witness :
  trace (subscribe 0 2 counter_world) = trace counter_world ∧
  doc (subscribe 0 2 counter_world) = doc counter_world ∧
  get 0 (subscribe 0 2 counter_world) = Some (value counter_count) ∧
  ∃ w', set toggle_visible 4 0 (VNum 9) (subscribe 0 2 counter_world) = (Done (), w') ∧
        trace w' = trace counter_world ++
          ((λ g, EvSubscriber 0 g (VNum 9)) <$> live (subscribers counter_count))
          ++ [EvSubscriber 0 2 (VNum 9)].
Proof.
  apply (subscribe_does_not_replay toggle_visible 4 counter_world 0 counter_count 2 (VNum 9)).
  - reflexivity.
  - intros Hin. cbn in Hin. cases_elem Hin.
  - intros f Hf. cbn in Hf. cases_elem Hf; (eexists; split; [reflexivity|]; solve_body).
  - eexists; split; [reflexivity|]; solve_body.
  - vm_compute; lia.
Defined.

(** After two subscriptions of [noop] one unsubscribe call removes it. *)
Lemma subscribe_registers_once_witness :
  ∃ sg', sigs (unsubscribe 0 0 (subscribe 0 0 (subscribe 0 0 counter_world))) !! 0 = Some sg' ∧
         0 ∉ live (subscribers sg').
Proof.
  eexists. split; [vm_compute; reflexivity|].
  apply (proj1 (proj2 subscribe_registers_once) 0 0 counter_world).
  vm_compute; reflexivity.
Defined.


(** [createComputed] over [boom] raises and creates nothing. *)
Lemma createComputed_failures_witness :
  createComputed toggle_visible 3 "c" 3 [0] counter_world
  = (Raised (VStr "boom"), emit (EvCompute 3) counter_world).
Proof.
  apply (proj1 (createComputed_failures toggle_visible 3 "c" 3 counter_world boom
                  ltac:(reflexivity) ltac:(lia)) (VStr "boom") [0]).
  constructor.
Defined.

(** [createComputed('isCountPositive', () => count.get() > 0, [])] stays
    [false] after [count.set(5)]. *)
Lemma computed_without_dependencies_is_frozen_witness :
  ∃ w', createComputed toggle_visible 3 "isCountPositive" 0 [] positive_world = (Done 1, w') ∧
        get 1 (run_calls toggle_visible 3 [CallSet 0 (VNum 5)] w') = Some (VBool false).
Proof.
  destruct (computed_without_dependencies_is_frozen toggle_visible 3 "isCountPositive" 0
              positive_world is_positive closed_positive_world
              ltac:(reflexivity)
              ltac:(constructor; [vm_compute; lia|intros; constructor])
              ltac:(lia))
    as (x & w' & Hrun & Hx & _ & _ & Hfrozen).
  exists w'. split; [exact Hrun|].
  vm_compute in Hx. simplify_eq.
  apply (Hfrozen 3 [CallSet 0 (VNum 5)]).
  repeat constructor. simpl. lia.
Defined.

(** Three times [count.update(c => c + 1)] from [0]. *)
Lemma updates_compose_witness :
  get 0 (run_calls toggle_visible 3 (CallUpdate 0 <$> [2; 2; 2]) counter_world)
  = Some (foldl (λ v g, g v) (VNum 0) [successor; successor; successor]).
Proof.
  apply (updates_compose toggle_visible 3 counter_world 0 (VNum 0) [2; 2; 2]
           [successor; successor; successor]).
  - reflexivity.
  - exact never_writes_counter_world.
  - repeat constructor; (exists increment; split; [reflexivity|done]).
  - lia.
Defined.

(** [count.update(c => c + 1)] is [count.set(1)] when [count] holds [0]. *)
Lemma update_is_set_of_result_witness :
  update toggle_visible 3 0 2 counter_world
  = set toggle_visible 3 0 (successor (value counter_count))
      (emit (EvUpdateFn 0 2 (value counter_count)) counter_world).
Proof.
  apply (proj2 (update_is_set_of_result toggle_visible 3 0 2 counter_world counter_count
                  ltac:(reflexivity)) successor).
  - exists increment. split; [reflexivity|done].
  - lia.
Defined.

(** The second subscriber of [count] is [v => count.set(v + 1)]. *)
Lemma unguarded_reentrancy_exhausts_witness :
  (set toggle_visible 50 0 (VNum 1) runaway_world).1 = Exhausted.
Proof.
  apply (unguarded_reentrancy_exhausts toggle_visible 50 0 1 1 runaway_world (VNum 1)).
  split.
  - exists bump. split; [reflexivity|]. intros a. by eexists _, _.
  - eexists. split; [reflexivity|]. split; [reflexivity|].
    intros g Hg. cbn in Hg. cases_elem Hg. eexists; split; [reflexivity|]; solve_body.
Defined.

(** [a.set(1)] in the world with a computed signal over [a] and [b]. *)
Lemma layered_notification_terminates_witness :
  ∃ w', set toggle_visible 5 0 (VNum 1) two_dependencies_world = (Done (), w') ∧
        get 0 w' = Some (VNum 1).
Proof.
  assert (quiet_fn two_dependencies_world 0) as Hq0.
  { eexists; split; [reflexivity|]; solve_body. }
  assert (quiet_fn two_dependencies_world 1) as Hq1.
  { eexists; split; [reflexivity|]; solve_body. }
  destruct (proj1 layered_notification_terminates toggle_visible 5 1 two_dependencies_world
              0 dependency_a (VNum 1))
    as (w' & Hrun & Hget & _).
  - intros s sg f Hs Hf.
    destruct s as [|[|[|s]]]; vm_compute in Hs; simplify_eq; cbn in Hf; cases_elem Hf.
    + right. exists 2, 0. split; [reflexivity|]. split; [vm_compute; lia|exact Hq0].
    + right. exists 2, 0. split; [reflexivity|]. split; [vm_compute; lia|exact Hq0].
    + left. exact Hq1.
  - intros s sg Hs. destruct s as [|[|[|s]]]; vm_compute in Hs; simplify_eq; simpl; lia.
  - reflexivity.
  - vm_compute; lia.
  - exists w'. split; [exact Hrun|exact Hget].
Defined.


(** ** The amended claims at work on the example worlds *)

(** [count.update(c => c + 1)] returns and leaves the class [visible]
    on the checker of [count]. *)
Lemma visibility_flag_iff_truthy_witness :
  ∃ x w',
    call toggle_visible 3 2 (value counter_count)
      (emit (EvUpdateFn 0 2 (value counter_count)) counter_world)
    = (Done x, emit (EvUpdateFn 0 2 (value counter_count)) counter_world) ∧
    update toggle_visible 3 0 2 counter_world = (Done (), w') ∧
    get 0 w' = Some x ∧ flags_value 0 w'.
Proof.
  apply (proj1 (proj2 (proj2 (proj2 (proj2 visibility_flag_iff_truthy)))) 3 counter_world 0
           counter_count 2).
  - reflexivity.
  - eexists; split; [reflexivity|]; solve_body.
  - intros f Hf. cbn in Hf. cases_elem Hf; (eexists; split; [reflexivity|]; solve_body).
  - vm_compute; lia.
Defined.

Lemma layered_diamond_world : layered diamond_world.
Proof.
  assert (quiet_fn diamond_world 0) as Hq0.
  { eexists; split; [reflexivity|]; solve_body. }
  assert (quiet_fn diamond_world 1) as Hq1.
  { eexists; split; [reflexivity|].
    intros; cbv beta delta [sum_of_two];
      repeat (constructor; intros); try done; try (vm_compute; lia). }
  assert (quiet_fn diamond_world 2) as Hq2.
  { eexists; split; [reflexivity|]; solve_body. }
  intros s sg f Hs Hf.
  destruct s as [|[|[|s]]]; vm_compute in Hs; simplify_eq; cbn in Hf; cases_elem Hf.
  - right. exists 1, 0. split; [reflexivity|]. split; [vm_compute; lia|exact Hq0].
  - right. exists 2, 1. split; [reflexivity|]. split; [vm_compute; lia|exact Hq1].
  - right. exists 2, 1. split; [reflexivity|]. split; [vm_compute; lia|exact Hq1].
  - left. exact Hq2.
Qed.

Lemma installed_diamond_world : installed 2 1 [0; 1] diamond_world.
Proof.
  split; [vm_compute; lia|]. split.
  - intros k c cf' Hk.
    destruct k as [|[|[|[|[|[|k]]]]]]; vm_compute in Hk; simplify_eq; split; intros; lia.
  - intros d. destruct d as [|[|[|d]]]; reflexivity.
Qed.

Lemma sealed_diamond_world : computed_sealed 2 1 [0; 1] diamond_world.
Proof.
  set (w := run_calls toggle_visible 3
              [CallDefine (read_signal 0); CallDefine sum_of_two; CallDefine noop;
               CallCreateSignal "a" (VNum 0); CallCreateComputed "b" 0 [0]] empty_world).
  assert (closed_world w) as Hclosed.
  { split.
    - intros s sg f Hs Hf.
      destruct s as [|[|s]]; vm_compute in Hs; simplify_eq; cbn in Hf; cases_elem Hf.
      vm_compute; lia.
    - intros f d Hf. destruct f as [|[|[|[|f]]]]; vm_compute in Hf; simplify_eq;
        solve_body. }
  destruct (createComputed_sealed toggle_visible 3 "c" 1 [0; 1] w sum_of_two Hclosed
              ltac:(repeat constructor; vm_compute; lia)
              ltac:(reflexivity)
              ltac:(intros v; constructor; [by left|intros; constructor;
                                            [by right; left|intros; constructor]])
              ltac:(lia))
    as (w' & Hcreate & Hsealed & _).
  change diamond_world with (subscribe 2 2 (createComputed toggle_visible 3 "c" 1 [0; 1] w).2).
  rewrite Hcreate. eapply sealed_kept; [exact Hsealed|]. apply closures_kept_subscribe.
Qed.


